(** * DataLoadingService: caching, deduplication and fallback

    A shallow embedding of the data-loading service of the portfolio
    front-end (class [DataLoadingService]): the cache [Map], the table of
    in-flight requests, the external-then-local load sequence and the
    public operations [getData], [getText], [getBlob], [getArrayBuffer],
    [clearCache] and [getCacheStats].

    JavaScript values live in an explicit heap so that object identity and
    aliasing between the cache and the values handed to callers are
    visible.  The asynchronous methods are split at their suspension
    points: the synchronous prefix of [getData] is one transition
    ([getData] below), the continuation that runs when [performDataLoad]
    settles is another ([settle]).  Between the two the load sequence
    reads nothing of the service but its configuration snapshots, so it
    is evaluated as a whole when it settles, against the [World] of that
    moment.

    The continuation of the owning call is the first thing that runs for
    a settled load: the promise handed to the callers that joined is
    derived from [requestPromise] by [then], and their own continuations
    are queued behind the owner's.  No caller therefore observes an
    outcome before the cache and the pending table have been updated.

    The calls the service issues itself (the prefetch started by the
    configuration bootstrap goes through [getData] and [getBlob]) are
    calls like any other in a trace. *)

From Stdlib Require Import ZArith String Ascii List Bool Lia.
From Stdlib Require Import DecimalString.
From stdpp Require Import base option list gmap strings.

Local Open Scope string_scope.
Local Open Scope list_scope.

(** ** Response types *)

(** [type ResponseType = 'json' | 'text' | 'blob' | 'arraybuffer'] *)
Inductive ResponseType : Set := json | text | blob | arraybuffer.

#[global] Instance ResponseType_eq_dec : EqDecision ResponseType.
Proof. solve_decision. Defined.

(** [source: 'local' | 'external'] *)
Inductive Source : Set := local | external.

(** ** Errors *)

(** What the code can throw or be rejected with.  [HttpErrorResponse] is
    what Angular's [HttpClient] fails with; it is not an instance of
    [Error], which matters for the message and cause that
    [performDataLoad] builds. *)
#[warnings="-register-all"]
Inductive JsError : Type :=
| PlainError (message : string)
| HttpErrorResponse (status : Z) (message : string)
| DataLoadError (message name path : string) (cause : option JsError).

(** [error instanceof Error] *)
Definition instanceofError (e : JsError) : bool :=
  match e with
  | HttpErrorResponse _ _ => false
  | _ => true
  end.

Definition error_message (e : JsError) : string :=
  match e with
  | PlainError m => m
  | HttpErrorResponse _ m => m
  | DataLoadError m _ _ _ => m
  end.

(** ** Values and the heap *)

Inductive val : Type :=
| VUndefined
| VNull
| VBool (b : bool)
| VNumber (n : Z)
| VString (s : string)
| VRef (a : nat).

Inductive objclass : Set := PlainObject | ArrayObject | BlobObject | ArrayBufferObject.

#[global] Instance objclass_eq_dec : EqDecision objclass.
Proof. solve_decision. Defined.

(** An object: its class, its own enumerable properties in the order in
    which they are enumerated, and the byte content held in the internal slot of a [Blob] or
    an [ArrayBuffer] (empty for the other classes). *)
Record obj : Type := mkObj {
  o_class : objclass;
  o_props : list (string * val);
  o_bytes : string
}.

(** The heap is the list of allocated objects; an address is an index. *)
Definition alloc (o : obj) (h : list obj) : val * list obj :=
  (VRef (length h), h ++ [o]).

(** [String(i)] for an array index. *)
Definition index_key (i : nat) : string :=
  NilZero.string_of_uint (Nat.to_uint i).

(** A string holds the UTF-8 encoding of its text, and the units a
    JavaScript string is indexed by are those of UTF-16: a character of
    one, two or three bytes is one unit, a character of four bytes is a
    pair of surrogates.  A surrogate on its own is written with the three
    bytes its code point would take. *)
Definition isContinuation (c : ascii) : bool :=
  ((128 <=? N_of_ascii c) && (N_of_ascii c <=? 191))%N.

Definition isLead (lo hi : N) (c : ascii) : bool :=
  ((lo <=? N_of_ascii c) && (N_of_ascii c <=? hi))%N.

Definition encode3 (x : N) : string :=
  String (ascii_of_N (224 + x / 4096))
    (String (ascii_of_N (128 + (x / 64) mod 64))
       (String (ascii_of_N (128 + x mod 64)) EmptyString)).

Definition surrogates (c1 c2 c3 c4 : ascii) : list string :=
  let codePoint :=
    ((N_of_ascii c1 mod 8) * 262144 + (N_of_ascii c2 mod 64) * 4096 +
     (N_of_ascii c3 mod 64) * 64 + N_of_ascii c4 mod 64)%N in
  let x := (codePoint - 65536)%N in
  [encode3 (55296 + x / 1024); encode3 (56320 + x mod 1024)].

(** The UTF-16 units of a text, in order.  A byte that does not begin a
    well-formed character is a unit of its own. *)
Fixpoint codeUnits (s : string) : list string :=
  match s with
  | EmptyString => []
  | String c1 r1 =>
      let single := String c1 EmptyString :: codeUnits r1 in
      match r1 with
      | EmptyString => single
      | String c2 r2 =>
          if isLead 192 223 c1 && isContinuation c2 then
            String c1 (String c2 EmptyString) :: codeUnits r2
          else
            match r2 with
            | EmptyString => single
            | String c3 r3 =>
                if isLead 224 239 c1 && isContinuation c2 && isContinuation c3 then
                  String c1 (String c2 (String c3 EmptyString)) :: codeUnits r3
                else
                  match r3 with
                  | EmptyString => single
                  | String c4 r4 =>
                      if isLead 240 247 c1 && isContinuation c2 &&
                         isContinuation c3 && isContinuation c4
                      then surrogates c1 c2 c3 c4 ++ codeUnits r4
                      else single
                  end
            end
      end
  end.

Fixpoint indexed (i : nat) (units : list string) : list (string * val) :=
  match units with
  | [] => []
  | u :: r => (index_key i, VString u) :: indexed (S i) r
  end.

(** The index properties of the wrapper object of a string primitive:
    one property per unit, keyed by its position. *)
Definition string_entries (i : nat) (s : string) : list (string * val) :=
  indexed i (codeUnits s).

(** The own enumerable properties that an object spread [{ ...v }] copies:
    those of the object a reference points to, the index properties of a
    string, nothing for the other primitives. *)
Definition own_enumerable (h : list obj) (v : val) : list (string * val) :=
  match v with
  | VString s => string_entries 0 s
  | VRef a =>
      match h !! a with
      | Some o => o_props o
      | None => []
      end
  | _ => []
  end.

(** [{ ...v }]: a new plain object holding the copied properties.  The
    copy is shallow: property values that are references are shared. *)
Definition spread (h : list obj) (v : val) : val * list obj :=
  alloc (mkObj PlainObject (own_enumerable h v) EmptyString) h.

(** [v instanceof Blob] *)
Definition instanceofBlob (h : list obj) (v : val) : bool :=
  match v with
  | VRef a =>
      match h !! a with
      | Some o => bool_decide (o_class o = BlobObject)
      | None => false
      end
  | _ => false
  end.

(** [data instanceof Blob ? data as T : { ...data } as T], the expression
    [getData] returns on both its cache-hit and its fetching path. *)
Definition return_view (h : list obj) (d : val) : val * list obj :=
  if instanceofBlob h d then (d, h) else spread h d.

(** ** Locators *)

(** [endpoint.startsWith(p)] *)
Fixpoint startsWith (s p : string) {struct p} : bool :=
  match p with
  | EmptyString => true
  | String c p' =>
      match s with
      | EmptyString => false
      | String d s' => Ascii.eqb d c && startsWith s' p'
      end
  end.

(** [normalizeLocalUrl(endpoint)] *)
Definition normalizeLocalUrl (endpoint : string) : string :=
  if startsWith endpoint "/" then endpoint
  else if startsWith endpoint "assets/" then "/" +:+ endpoint
  else "/assets/" +:+ endpoint.

(** ** Transport payloads *)

(** What the HTTP client hands back, before it becomes a heap value: a
    parsed JSON document, a text, a [Blob] or an [ArrayBuffer].  The
    members of an object are listed in the order in which they are
    enumerated. *)
#[warnings="-register-all"]
Inductive payload : Type :=
| PUndefined
| PNull
| PBool (b : bool)
| PNumber (n : Z)
| PString (s : string)
| PObject (props : list (string * payload))
| PArray (items : list payload)
| PBlob (bytes : string)
| PArrayBuffer (bytes : string).

(** JavaScript truthiness. *)
Definition truthy (p : payload) : bool :=
  match p with
  | PUndefined | PNull => false
  | PBool b => b
  | PNumber n => negb (n =? 0)%Z
  | PString s => negb (String.eqb s EmptyString)
  | _ => true
  end.

(** [p !== undefined && p !== null] *)
Definition notNullish (p : payload) : bool :=
  match p with
  | PUndefined | PNull => false
  | _ => true
  end.

(** [typeof p === 'object'] *)
Definition typeofObject (p : payload) : bool :=
  match p with
  | PNull | PObject _ | PArray _ | PBlob _ | PArrayBuffer _ => true
  | _ => false
  end.

Definition has_key (k : string) (props : list (string * payload)) : bool :=
  existsb (fun kv => String.eqb (fst kv) k) props.

(** ['size' in p && 'type' in p] for an object [p]: true of every [Blob]
    (both are accessors of its prototype) and of any object carrying the
    two keys. *)
Definition blobLike (p : payload) : bool :=
  match p with
  | PBlob _ => true
  | PObject props => has_key "size" props && has_key "type" props
  | _ => false
  end.

(** Materialising a payload allocates one fresh object per object, array,
    [Blob] or [ArrayBuffer] node; children are allocated before their
    parent. *)
Fixpoint materialize (p : payload) (h : list obj) : val * list obj :=
  match p with
  | PUndefined => (VUndefined, h)
  | PNull => (VNull, h)
  | PBool b => (VBool b, h)
  | PNumber n => (VNumber n, h)
  | PString s => (VString s, h)
  | PObject props =>
      let '(vs, h1) :=
        (fix go (ps : list (string * payload)) (h : list obj) : list (string * val) * list obj :=
           match ps with
           | [] => ([], h)
           | (k, q) :: r =>
               let '(v, h1) := materialize q h in
               let '(vs, h2) := go r h1 in
               ((k, v) :: vs, h2)
           end) props h in
      alloc (mkObj PlainObject vs EmptyString) h1
  | PArray items =>
      let '(vs, h1) :=
        (fix go (i : nat) (ps : list payload) (h : list obj) : list (string * val) * list obj :=
           match ps with
           | [] => ([], h)
           | q :: r =>
               let '(v, h1) := materialize q h in
               let '(vs, h2) := go (S i) r h1 in
               ((index_key i, v) :: vs, h2)
           end) 0 items h in
      alloc (mkObj ArrayObject vs EmptyString) h1
  | PBlob bytes => alloc (mkObj BlobObject [] bytes) h
  | PArrayBuffer bytes => alloc (mkObj ArrayBufferObject [] bytes) h
  end.

(** ** String helpers used by the external fetcher *)

(** [s.includes(sub)] *)
Fixpoint includes (s sub : string) : bool :=
  startsWith s sub ||
  match s with
  | EmptyString => false
  | String _ r => includes r sub
  end.

(** What [String.prototype.trim] removes: the characters of the
    WhiteSpace and LineTerminator productions.  A string holds the UTF-8
    encoding of its text, so a character is recognised by its bytes.

    One byte: tab, line feed, vertical tab, form feed, carriage return
    and space. *)
Definition isWhiteSpace (c : ascii) : bool :=
  let n := nat_of_ascii c in
  ((9 <=? n)%nat && (n <=? 13)%nat) || (n =? 32)%nat.

(** Two bytes: the no-break space U+00A0. *)
Definition isWhiteSpace2 (c1 c2 : ascii) : bool :=
  (nat_of_ascii c1 =? 194)%nat && (nat_of_ascii c2 =? 160)%nat.

(** Three bytes: U+1680, U+2000 to U+200A, U+2028, U+2029, U+202F, U+205F,
    U+3000 and the byte order mark U+FEFF. *)
Definition isWhiteSpace3 (c1 c2 c3 : ascii) : bool :=
  let n1 := nat_of_ascii c1 in
  let n2 := nat_of_ascii c2 in
  let n3 := nat_of_ascii c3 in
  ((n1 =? 225)%nat && (n2 =? 154)%nat && (n3 =? 128)%nat) ||
  ((n1 =? 226)%nat && (n2 =? 128)%nat &&
   (((128 <=? n3)%nat && (n3 <=? 138)%nat) ||
    (n3 =? 168)%nat || (n3 =? 169)%nat || (n3 =? 175)%nat)) ||
  ((n1 =? 226)%nat && (n2 =? 129)%nat && (n3 =? 159)%nat) ||
  ((n1 =? 227)%nat && (n2 =? 128)%nat && (n3 =? 128)%nat) ||
  ((n1 =? 239)%nat && (n2 =? 187)%nat && (n3 =? 191)%nat).

(** [s.trimStart()] *)
Fixpoint trimStart (s : string) : string :=
  match s with
  | EmptyString => EmptyString
  | String c1 r1 =>
      if isWhiteSpace c1 then trimStart r1
      else
        match r1 with
        | EmptyString => s
        | String c2 r2 =>
            if isWhiteSpace2 c1 c2 then trimStart r2
            else
              match r2 with
              | EmptyString => s
              | String c3 r3 => if isWhiteSpace3 c1 c2 c3 then trimStart r3 else s
              end
        end
  end.

(** [s.trimEnd()]: the string is cut where what is left is white space
    throughout.  None of the encodings above begins with a continuation
    byte, so the cut never falls inside a character. *)
Fixpoint trimEnd (s : string) : string :=
  match s with
  | EmptyString => EmptyString
  | String c r =>
      if String.eqb (trimStart s) EmptyString then EmptyString
      else String c (trimEnd r)
  end.

(** [s.trim()] *)
Definition trim (s : string) : string := trimEnd (trimStart s).

(** [!url.trim()]: nothing is left once the white space is trimmed. *)
Definition trimIsEmpty (s : string) : bool :=
  String.eqb (trim s) EmptyString.

(** The suffix of [s] that starts at its first opening brace. *)
Fixpoint fromFirstBrace (s : string) : option string :=
  match s with
  | EmptyString => None
  | String c r => if Ascii.eqb c "{" then Some s else fromFirstBrace r
  end.

(** The longest prefix of [s] that ends in a closing brace. *)
Fixpoint toLastBrace (s : string) : option string :=
  match s with
  | EmptyString => None
  | String c r =>
      match toLastBrace r with
      | Some t => Some (String c t)
      | None => if Ascii.eqb c "}" then Some (String c EmptyString) else None
      end
  end.

(** [textResponse.match(/\{[\s\S]*\}/)]: from the first opening brace to
    the last closing brace after it. *)
Definition matchBraces (s : string) : option string :=
  match fromFirstBrace s with
  | Some t => toLastBrace t
  | None => None
  end.

(** [url.substring(1)] *)
Definition substring1 (s : string) : string :=
  match s with
  | EmptyString => EmptyString
  | String _ r => r
  end.

(** ** The world a load runs against *)

Inductive result (A : Type) : Type :=
| Ok (x : A)
| Throw (e : JsError).
Arguments Ok {A} x.
Arguments Throw {A} e.

(** Everything outside the service that a load sequence reads: the two
    configuration snapshots as they stand once the bootstrap has settled,
    the HTTP client, and the platform functions.

    - [outreachConfig]: [outreachConfigLoader.config], [None] for [null];
      the loader only ever stores an object, modelled by its properties;
    - [proxyBaseUrl], [proxyEndpoint]: [envConfig?.proxy?.baseUrl] and
      [envConfig?.proxy?.endpoint], [None] when the chain is undefined;
    - [http_get url rt]: [firstValueFrom(http.get(url, {responseType: rt}))];
    - [JSON_parse], [TextDecoder_decode], [Response_text], [String_of]:
      [None] when the call throws. *)
Record World : Type := mkWorld {
  outreachConfig : option (gmap string payload);
  proxyBaseUrl : option string;
  proxyEndpoint : option string;
  http_get : string -> ResponseType -> result payload;
  JSON_parse : string -> option payload;
  encodeURIComponent : string -> string;
  TextDecoder_decode : string -> option string;
  Response_text : payload -> option string;
  String_of : payload -> option string;
  Date_now : Z
}.

(** One call of [http.get] issued by a load sequence. *)
Inductive attempt : Type :=
| ExternalAttempt (proxyUrl : string) (rt : ResponseType)
| LocalAttempt (localUrl : string) (rt : ResponseType).



(** [x || d] for an optional string [x]. *)
Definition orDefault (x : option string) (d : string) : string :=
  match x with
  | Some s => if String.eqb s EmptyString then d else s
  | None => d
  end.

(** [`${proxyBaseUrl}${proxyEndpoint}?url=${encodeURIComponent(url)}`] *)
Definition proxyUrlFor (w : World) (url : string) : string :=
  orDefault (proxyBaseUrl w) "http://localhost:3001" +:+
  orDefault (proxyEndpoint w) "/proxy" +:+ "?url=" +:+ encodeURIComponent w url.

(** The normalisation of the raw proxy response to a string. *)
Definition textOfRaw (w : World) (raw : payload) : string :=
  match raw with
  | PArrayBuffer bytes => default EmptyString (TextDecoder_decode w bytes)
  | PString s => s
  | PUndefined | PNull => EmptyString
  | _ =>
      if blobLike raw then default EmptyString (Response_text w raw)
      else default EmptyString (String_of w raw)
  end.

(** The [try { JSON.parse ... } catch { ... }] block that ends
    [fetchExternalData] for the ['json'] response type. *)
Definition parseOrRecover (w : World) (textResponse : string) : payload :=
  let recover :=
    if includes textResponse "<html" || includes textResponse "<HTML" then
      match matchBraces textResponse with
      | Some m =>
          match JSON_parse w m with
          | Some extractedJson => extractedJson
          | None => PString textResponse
          end
      | None => PString textResponse
      end
    else PString textResponse in
  match JSON_parse w textResponse with
  | Some jsonData =>
      if truthy jsonData && typeofObject jsonData then jsonData else recover
  | None => recover
  end.

(** [fetchExternalData(url, responseType)], with the calls of [http.get]
    it made. *)
Definition fetchExternalData (w : World) (url : string) (rt : ResponseType)
  : list attempt * result payload :=
  if String.eqb url EmptyString then
    ([], Throw (PlainError "Invalid URL provided to fetchExternalData"))
  else if trimIsEmpty url then
    ([], Throw (PlainError "Empty URL provided"))
  else if negb (startsWith url "http://") && negb (startsWith url "https://") then
    ([], Throw (PlainError ("Non-HTTP URL received: " +:+ url)))
  else
    let proxyUrl := proxyUrlFor w url in
    match rt with
    | blob => ([ExternalAttempt proxyUrl blob], http_get w proxyUrl blob)
    | arraybuffer => ([ExternalAttempt proxyUrl arraybuffer], http_get w proxyUrl arraybuffer)
    | _ =>
        ([ExternalAttempt proxyUrl text],
         match http_get w proxyUrl text with
         | Throw proxyError => Throw proxyError
         | Ok rawResponse =>
             let textResponse := textOfRaw w rawResponse in
             if String.eqb textResponse EmptyString then
               Throw (PlainError "Empty response from proxy server")
             else
               match rt with
               | text => Ok (PString textResponse)
               | _ => Ok (parseOrRecover w textResponse)
               end
         end)
    end.

(** The names of the members that every object inherits from
    [Object.prototype]. *)
Definition Object_prototype : list string :=
  ["constructor"; "__defineGetter__"; "__defineSetter__"; "hasOwnProperty";
   "__lookupGetter__"; "__lookupSetter__"; "isPrototypeOf"; "propertyIsEnumerable";
   "toString"; "valueOf"; "__proto__"; "toLocaleString"].

(** What reading a member of the override table finds: an own property
    of the table, else the member of that name inherited from
    [Object.prototype] (a function, or the prototype object itself under
    [__proto__]), else nothing ([undefined]). *)
#[warnings="-register-all"]
Inductive member : Type :=
| Own (p : payload)
| Inherited (name : string)
| Missing.

(** Truthiness of what was found: functions and objects are truthy. *)
Definition member_truthy (m : member) : bool :=
  match m with
  | Own p => truthy p
  | Inherited _ => true
  | Missing => false
  end.

(** [outreachConfig[key]] *)
Definition configLookup (cfg : gmap string payload) (key : string) : member :=
  match cfg !! key with
  | Some p => Own p
  | None =>
      if existsb (String.eqb key) Object_prototype then Inherited key else Missing
  end.

(** [getExternalUrl(localUrl)] *)
Definition getExternalUrl (w : World) (localUrl : string) : option string :=
  match outreachConfig w with
  | None => None
  | Some cfg =>
      let override1 := configLookup cfg localUrl in
      let override2 :=
        configLookup cfg
          (if startsWith localUrl "/" then substring1 localUrl else "/" +:+ localUrl) in
      let override := if member_truthy override1 then override1 else override2 in
      match override with
      | Own (PString s) => if member_truthy override then Some s else None
      | _ => None
      end
  end.

(** [performDataLoad(localUrl, responseType)] once the configuration
    bootstrap has settled ([TESTING_DELAY_MS] is 0): the calls of
    [http.get] it made, in order, and what its promise settles with. *)
Definition performDataLoad (w : World) (localUrl : string) (rt : ResponseType)
  : list attempt * result (payload * Source) :=
  let localFallback (made : list attempt) :=
    (made ++ [LocalAttempt localUrl rt],
     match http_get w localUrl rt with
     | Ok data =>
         if notNullish data then Ok (data, local)
         else
           Throw (DataLoadError
                    ("Failed to load data for " +:+ localUrl +:+ ": " +:+
                     "Local data is null or undefined")
                    "DataLoadError" localUrl
                    (Some (PlainError "Local data is null or undefined")))
     | Throw error =>
         Throw (DataLoadError
                  ("Failed to load data for " +:+ localUrl +:+ ": " +:+
                   (if instanceofError error then error_message error
                    else "Unknown error"))
                  "DataLoadError" localUrl
                  (if instanceofError error then Some error else None))
     end) in
  match getExternalUrl w localUrl with
  | Some externalUrl =>
      match fetchExternalData w externalUrl rt with
      | (made, Ok data) =>
          if notNullish data then (made, Ok (data, external))
          else localFallback made
      | (made, Throw _) => localFallback made
      end
  | None => localFallback []
  end.

(** ** The service state *)

(** [interface DataCacheEntry] *)
Record DataCacheEntry : Type := mkEntry {
  data : val;
  timestamp : Z;
  source : Source;
  responseType : ResponseType
}.

(** A call of [performDataLoad] that has not settled yet, owned by the
    [getData] call suspended at [await requestPromise]. *)
Record Load : Type := mkLoad {
  load_localUrl : string;
  load_responseType : ResponseType
}.

(** The fields of [DataLoadingService] together with what the event loop
    holds for it:
    - [cache]: [Map<string, DataCacheEntry | undefined>]; [Some None] is a
      key mapped to [undefined], the failure marker;
    - [pendingRequests]: [Map<string, Promise<any>>], a promise being
      named by the number of the load it belongs to;
    - [loads]: the load sequences in flight;
    - [next_load]: the number the next load sequence gets;
    - [network]: every [http.get] issued by a settled load sequence. *)
Record Service : Type := mkService {
  heap : list obj;
  cache : gmap string (option DataCacheEntry);
  pendingRequests : gmap string nat;
  loads : gmap nat Load;
  next_load : nat;
  network : list attempt
}.

(** The service as its constructor leaves it. *)
Definition new_service : Service :=
  mkService [] ∅ ∅ ∅ 0 [].

(** How a [getData] call stands when its synchronous prefix is over. *)
Inductive Outcome : Type :=
| Fulfilled (v : val)         (* returned a value: cache hit *)
| Rejected (e : JsError)      (* threw: recorded failure *)
| Joined (id : nat)           (* returned the pending promise of load [id] *)
| Started (id : nat).         (* began load [id] and awaits it *)

(** Lines 355-364 of [getData]: join the pending request of the locator,
    or begin a load sequence and register its promise. *)
Definition joinOrStart (localUrl : string) (rt : ResponseType) (s : Service)
  : Outcome * Service :=
  match pendingRequests s !! localUrl with
  | Some id => (Joined id, s)
  | None =>
      let id := next_load s in
      (Started id,
       mkService (heap s) (cache s)
                 (<[localUrl := id]> (pendingRequests s))
                 (<[id := mkLoad localUrl rt]> (loads s))
                 (S id) (network s))
  end.

(** [new DataLoadError(`Failed to load data for ${path} (previously failed)`,
    'DataLoadError', path)] *)
Definition previouslyFailed (path : string) : JsError :=
  DataLoadError ("Failed to load data for " +:+ path +:+ " (previously failed)")
                "DataLoadError" path None.

(** [getData(path, responseType)] up to its first suspension. *)
Definition getData (path : string) (rt : ResponseType) (s : Service)
  : Outcome * Service :=
  let localUrl := normalizeLocalUrl path in
  match cache s !! localUrl with
  | Some cached =>
      match cached with
      | Some entry =>
          if decide (responseType entry = rt) then
            let '(v, h) := return_view (heap s) (data entry) in
            (Fulfilled v,
             mkService h (cache s) (pendingRequests s) (loads s) (next_load s) (network s))
          else joinOrStart localUrl rt s
      | None =>
          (Rejected (previouslyFailed path), s)
      end
  | None => joinOrStart localUrl rt s
  end.

(** [getText(path)] *)
Definition getText (path : string) (s : Service) : Outcome * Service :=
  getData path text s.

(** [getBlob(path)] *)
Definition getBlob (path : string) (s : Service) : Outcome * Service :=
  getData path blob s.

(** [getArrayBuffer(path)] *)
Definition getArrayBuffer (path : string) (s : Service) : Outcome * Service :=
  getData path arraybuffer s.

(** What the callers attached to a load observe when it settles: the
    owner gets what [getData] returns or rethrows after
    [await requestPromise]; the callers that were handed the pending
    promise get what [requestPromise.then(result => result.data)] settles
    with. *)
Record Settlement : Type := mkSettlement {
  owner_sees : result val;
  joined_see : result val
}.

(** Lines 366-383 of [getData]: the continuation of the owning call when
    load [id] settles against the world [w].  A number that names no load
    in flight leaves the service as it is. *)
Definition settle (id : nat) (w : World) (s : Service)
  : option Settlement * Service :=
  match loads s !! id with
  | None => (None, s)
  | Some ld =>
      let localUrl := load_localUrl ld in
      let rt := load_responseType ld in
      let '(made, r) := performDataLoad w localUrl rt in
      match r with
      | Ok (p, src) =>
          let '(d, h1) := materialize p (heap s) in
          let cacheEntry := mkEntry d (Date_now w) src rt in
          let '(v, h2) := return_view h1 d in
          (Some (mkSettlement (Ok v) (Ok d)),
           mkService h2 (<[localUrl := Some cacheEntry]> (cache s))
                     (delete localUrl (pendingRequests s))
                     (delete id (loads s))
                     (next_load s) (network s ++ made))
      | Throw error =>
          (Some (mkSettlement (Throw error) (Throw error)),
           mkService (heap s) (<[localUrl := None]> (cache s))
                     (delete localUrl (pendingRequests s))
                     (delete id (loads s))
                     (next_load s) (network s ++ made))
      end
  end.

(** [clearCache(path?)]: [if (path)] is false for a missing and for an
    empty path, which both clear everything. *)
Definition clearCache (path : option string) (s : Service) : Service :=
  match path with
  | Some p =>
      if String.eqb p EmptyString then
        mkService (heap s) ∅ ∅ (loads s) (next_load s) (network s)
      else
        let localUrl := normalizeLocalUrl p in
        mkService (heap s) (delete localUrl (cache s))
                  (delete localUrl (pendingRequests s))
                  (loads s) (next_load s) (network s)
  | None => mkService (heap s) ∅ ∅ (loads s) (next_load s) (network s)
  end.

(** [getCacheStats()] *)
Definition getCacheStats (s : Service) : nat * nat :=
  (size (cache s), size (pendingRequests s)).

(** ** Callers mutating what they were handed *)

(** The number a string of decimal digits spells. *)
Fixpoint digits (acc : N) (s : string) : option N :=
  match s with
  | EmptyString => Some acc
  | String c r =>
      if ((48 <=? N_of_ascii c) && (N_of_ascii c <=? 57))%N
      then digits (acc * 10 + (N_of_ascii c - 48)) r
      else None
  end.

(** The array index that a property name spells, if it spells one: a
    decimal numeral without leading zero, below 2^32 - 1. *)
Definition arrayIndex (k : string) : option N :=
  match k with
  | EmptyString => None
  | String c r =>
      if Ascii.eqb c "0" then
        (if String.eqb r EmptyString then Some 0%N else None)
      else
        match digits 0 k with
        | Some n => if (n <? 4294967295)%N then Some n else None
        | None => None
        end
  end.

(** Whether a new property named [k] is enumerated before the property
    named [k']: array indices come first, in ascending order, and the
    other names follow in the order of their creation. *)
Definition enumeratedBefore (k k' : string) : bool :=
  match arrayIndex k, arrayIndex k' with
  | Some n, Some n' => (n <? n')%N
  | Some _, None => true
  | None, _ => false
  end.

(** A new property takes its place in the enumeration. *)
Fixpoint placeProp (k : string) (v : val) (props : list (string * val))
  : list (string * val) :=
  match props with
  | [] => [(k, v)]
  | (k', v') :: r =>
      if enumeratedBefore k k' then (k, v) :: props
      else (k', v') :: placeProp k v r
  end.

(** An existing property keeps its place. *)
Fixpoint replaceProp (k : string) (v : val) (props : list (string * val))
  : list (string * val) :=
  match props with
  | [] => []
  | (k', v') :: r =>
      if String.eqb k' k then (k, v) :: r else (k', v') :: replaceProp k v r
  end.

(** [obj[k] = v] on the property list of an object. *)
Definition assignProp (k : string) (v : val) (props : list (string * val))
  : list (string * val) :=
  if existsb (fun kv => String.eqb (fst kv) k) props then replaceProp k v props
  else placeProp k v props.

(** [delete obj[k]] on a property list. *)
Definition deleteProp (k : string) (props : list (string * val))
  : list (string * val) :=
  filter (fun kv => negb (String.eqb (fst kv) k)) props.

Inductive mutation : Type :=
| SetProp (a : nat) (k : string) (v : val)     (* [o[k] = v] on the object at [a] *)
| DeleteProp (a : nat) (k : string).           (* [delete o[k]] *)

Definition mutation_target (m : mutation) : nat :=
  match m with
  | SetProp a _ _ => a
  | DeleteProp a _ => a
  end.

Definition mutate_obj (m : mutation) (o : obj) : obj :=
  match m with
  | SetProp _ k v => mkObj (o_class o) (assignProp k v (o_props o)) (o_bytes o)
  | DeleteProp _ k => mkObj (o_class o) (deleteProp k (o_props o)) (o_bytes o)
  end.

Definition mutate_heap (m : mutation) (h : list obj) : list obj :=
  match h !! mutation_target m with
  | Some o => <[mutation_target m := mutate_obj m o]> h
  | None => h
  end.

Definition mutate (ms : list mutation) (s : Service) : Service :=
  mkService (foldl (fun h m => mutate_heap m h) (heap s) ms)
            (cache s) (pendingRequests s) (loads s) (next_load s) (network s).

(** ** Reading a value out of the heap *)

(** The content of a value, followed through the heap to a depth of
    [fuel] references: what a caller can observe of it without comparing
    identities. *)
#[warnings="-register-all"]
Inductive tree : Type :=
| TUndefined
| TNull
| TBool (b : bool)
| TNumber (n : Z)
| TString (s : string)
| TObject (c : objclass) (bytes : string) (props : list (string * tree))
| TCut.

Fixpoint snapshot (fuel : nat) (h : list obj) (v : val) {struct fuel} : tree :=
  match v with
  | VUndefined => TUndefined
  | VNull => TNull
  | VBool b => TBool b
  | VNumber n => TNumber n
  | VString s => TString s
  | VRef a =>
      match fuel with
      | O => TCut
      | S n =>
          match h !! a with
          | Some o =>
              TObject (o_class o) (o_bytes o)
                      (map (fun kv => (fst kv, snapshot n h (snd kv))) (o_props o))
          | None => TCut
          end
      end
  end.

(** ** Traces *)

Inductive event : Type :=
| CallGetData (path : string) (rt : ResponseType)
| CallClearCache (path : option string)
| LoadSettles (id : nat) (w : World)
| CallerMutates (m : mutation).

Inductive observation : Type :=
| Returned (o : Outcome)
| Settled (x : option Settlement)
| Silent.

Definition step (ev : event) (s : Service) : observation * Service :=
  match ev with
  | CallGetData path rt => let '(o, s') := getData path rt s in (Returned o, s')
  | CallClearCache path => (Silent, clearCache path s)
  | LoadSettles id w => let '(x, s') := settle id w s in (Settled x, s')
  | CallerMutates m => (Silent, mutate [m] s)
  end.

Fixpoint run (evs : list event) (s : Service) : list observation * Service :=
  match evs with
  | [] => ([], s)
  | ev :: rest =>
      let '(o, s1) := step ev s in
      let '(os, s2) := run rest s1 in
      (o :: os, s2)
  end.

(** ** Worlds for the examples *)

(** What the HTTP client fails with for a missing resource. *)
Definition http_404 : result payload :=
  Throw (HttpErrorResponse 404 "Not Found").

(** A static host serving [body] at [url] and failing with a 404
    elsewhere, with no configuration at all. *)
Definition serving (url : string) (body : payload) : World :=
  mkWorld None None None
          (fun u _ => if String.eqb u url then Ok body else http_404)
          (fun _ => None) (fun u => u) (fun b => Some b)
          (fun _ => None) (fun _ => None) 0.

(** A host that serves nothing. *)
Definition offline : World :=
  mkWorld None None None (fun _ _ => http_404)
          (fun _ => None) (fun u => u) (fun b => Some b)
          (fun _ => None) (fun _ => None) 0.

(** The static host of the text example. *)
Definition notes_host : World := serving "/assets/notes.txt" (PString "hi").

(** The static host of the binary example. *)
Definition bin_host : World := serving "/assets/a.bin" (PArrayBuffer "xyz").

(** A world with an override for the document [x.json] whose proxy is
    down, and whose static host serves the local copy. *)
Definition override_down : World :=
  mkWorld (Some {[ "/assets/data/x.json" := PString "https://ext/x.json" ]})
          None None
          (fun u _ => if String.eqb u "/assets/data/x.json"
                      then Ok (PObject [("a", PNumber 1)])
                      else Throw (HttpErrorResponse 504 "Gateway Timeout"))
          (fun _ => None) (fun u => u) (fun b => Some b)
          (fun _ => None) (fun _ => None) 0.


(** The static host of the document example. *)
Definition doc_host : World := serving "/assets/a.json" (PObject [("a", PNumber 1)]).

(** The static host of the nested document example. *)
Definition nested_host : World :=
  serving "/assets/a.json" (PObject [("a", PObject [("b", PNumber 1)])]).

(** Events that leave the entry of [/assets/a.bin] alone. *)
Definition bystanders : list event :=
  [CallGetData "b.json" json;
   CallGetData "a.bin" text;
   CallClearCache (Some "b.json")].

(** A request for the document as JSON is in flight, nothing is cached. *)
Definition json_pending : Service := snd (getData "a.json" json new_service).

(** The document is cached as JSON and a request for it as text is in
    flight. *)
Definition text_pending_over_json : Service :=
  snd (run [CallGetData "a.json" json;
            LoadSettles 0 doc_host;
            CallGetData "a.json" text] new_service).

(** The service after two concurrent calls for the nested document have
    been served: the inner object is at address 0, the stored document at
    address 1 (handed as it is to the caller that joined), the copy
    handed to the owner at address 2. *)
Definition nested_served : Service :=
  snd (run [CallGetData "a.json" json;
            CallGetData "a.json" json;
            LoadSettles 0 nested_host] new_service).

(** ** Predicates used by the statements *)

(** The external attempt produced nothing usable: [fetchExternalData]
    threw, or resolved to [null] or [undefined]. *)
Definition externalFailed (w : World) (externalUrl : string) (rt : ResponseType) : Prop :=
  match snd (fetchExternalData w externalUrl rt) with
  | Ok data => notNullish data = false
  | Throw _ => True
  end.



(** The event is a [clearCache] call that removes the entry of locator
    [u]: a call for a spelling of [u], or one that clears everything. *)
Definition clears (u : string) (ev : event) : bool :=
  match ev with
  | CallClearCache None => true
  | CallClearCache (Some p) =>
      String.eqb p EmptyString || String.eqb (normalizeLocalUrl p) u
  | _ => false
  end.

(** The event leaves a cached entry of locator [u] and kind [k] in
    place: it is neither a [clearCache] call that removes it nor a
    request for [u] under another kind, which would begin a load whose
    outcome replaces the entry. *)
Definition keeps_entry (u : string) (k : ResponseType) (ev : event) : bool :=
  match ev with
  | CallGetData path rt =>
      negb (String.eqb (normalizeLocalUrl path) u) || bool_decide (rt = k)
  | _ => negb (clears u ev)
  end.

(** No load sequence for locator [u] is in flight. *)
Definition no_load_for (u : string) (s : Service) : Prop :=
  forall id ld, loads s !! id = Some ld -> load_localUrl ld <> u.

(** The failure marker of [u] is in the cache and nothing is in flight
    that could overwrite it. *)
Definition failure_recorded (u : string) (s : Service) : Prop :=
  cache s !! u = Some None /\ no_load_for u s.

(** The cache holds for [u] an entry of kind [blob] whose value is the
    [Blob] at address [a], and nothing is in flight that could replace
    it. *)
Definition blob_cached (u : string) (a : nat) (s : Service) : Prop :=
  (exists e, cache s !! u = Some (Some e) /\ responseType e = blob /\ data e = VRef a) /\
  (exists o, heap s !! a = Some o /\ o_class o = BlobObject) /\
  no_load_for u s.

(** The states the service can be in: those a trace leads to from the
    freshly constructed service. *)
Definition reachable (s : Service) : Prop :=
  exists evs, s = snd (run evs new_service).

(** The two tables agree with the loads in flight: a pending record never
    sits next to a failure marker, it names a load in flight for its own
    locator, and load numbers are never reused. *)
Record consistent (s : Service) : Prop := mkConsistent {
  pending_not_failed :
    forall u id, pendingRequests s !! u = Some id -> cache s !! u <> Some None;
  pending_in_flight :
    forall u id, pendingRequests s !! u = Some id ->
                 exists k, loads s !! id = Some (mkLoad u k);
  loads_below :
    forall id ld, loads s !! id = Some ld -> id < next_load s
}.


(** A value is well scoped in a heap when it is a primitive or refers to
    an allocated object; a heap is closed when every property of every
    object is well scoped in it. *)
Definition val_ok (h : list obj) (v : val) : Prop :=
  match v with
  | VRef a => a < length h
  | _ => True
  end.

Definition heap_closed (h : list obj) : Prop :=
  forall a o, h !! a = Some o -> Forall (fun kv => val_ok h (snd kv)) (o_props o).

(** The heap is closed and every cached value is well scoped in it. *)
Definition wf (s : Service) : Prop :=
  heap_closed (heap s) /\
  forall u e, cache s !! u = Some (Some e) -> val_ok (heap s) (data e).

(** A caller can only store values it holds: primitives and references
    to allocated objects. *)
Definition mutation_ok (h : list obj) (m : mutation) : Prop :=
  match m with
  | SetProp _ _ v => val_ok h v
  | DeleteProp _ _ => True
  end.

(** [H] extends [h] and has the same objects at the addresses of [h]. *)
Definition agrees_below (h H : list obj) : Prop :=
  length h <= length H /\ forall a, a < length h -> H !! a = h !! a.

(** The content of what [getData] hands back for the stored value [d],
    read in the heap [h] in which [d] lives. *)
Definition view_tree (n : nat) (h : list obj) (d : val) : tree :=
  if instanceofBlob h d then snapshot n h d
  else
    match n with
    | O => TCut
    | S m =>
        TObject PlainObject EmptyString
                (map (fun kv => (fst kv, snapshot m h (snd kv))) (own_enumerable h d))
    end.

(** A caller has just been handed the object at address [c] as the
    structured value of locator [u], and [c] is a copy rather than the
    stored value itself: either by a cache hit, or as the owner of the
    load that fetched it. *)
Inductive handed_copy (u : string) (c : nat) (s1 : Service) : Prop :=
| by_cache_hit (s : Service) (path : string) (e : DataCacheEntry) :
    wf s ->
    normalizeLocalUrl path = u ->
    cache s !! u = Some (Some e) ->
    VRef c <> data e ->
    getData path json s = (Fulfilled (VRef c), s1) ->
    handed_copy u c s1
| by_fetch (s : Service) (id : nat) (w : World) (x : Settlement) (d : val) :
    wf s ->
    loads s !! id = Some (mkLoad u json) ->
    settle id w s = (Some x, s1) ->
    owner_sees x = Ok (VRef c) ->
    joined_see x = Ok d ->
    VRef c <> d ->
    handed_copy u c s1.

(** ** Further worlds and states for the examples *)

(** An override that points at a local path by mistake. *)
Definition override_misrouted : World :=
  mkWorld (Some {[ "/assets/data/x.json" := PString "assets/other.json" ]})
          None None (fun _ _ => http_404)
          (fun _ => None) (fun u => u) (fun b => Some b)
          (fun _ => None) (fun _ => None) 0.

(** A world with an override for the document [x.json] whose proxy
    answers with the given text and whose static host serves the local
    copy; its [JSON.parse] accepts the one text [{c:3}], which stands for
    a document with the single member [c]. *)
Definition override_answers (body : string) : World :=
  mkWorld (Some {[ "/assets/data/x.json" := PString "https://ext/x.json" ]})
          None None
          (fun u _ => if String.eqb u "http://localhost:3001/proxy?url=https://ext/x.json"
                      then Ok (PString body)
                      else if String.eqb u "/assets/data/x.json"
                           then Ok (PObject [("a", PNumber 1)])
                           else http_404)
          (fun t => if String.eqb t "{c:3}" then Some (PObject [("c", PNumber 3)]) else None)
          (fun u => u) (fun b => Some b)
          (fun _ => None) (fun _ => None) 0.

(** The key [getExternalUrl] tries second: the locator without its
    leading separator, or with one added. *)
Definition alternateKey (localUrl : string) : string :=
  if startsWith localUrl "/" then substring1 localUrl else "/" +:+ localUrl.

(** A world whose override table spells the locator of [x.json] without
    the leading separator. *)
Definition override_unslashed : World :=
  mkWorld (Some {[ "assets/data/x.json" := PString "https://ext/x.json" ]})
          None None (fun _ _ => http_404)
          (fun _ => None) (fun u => u) (fun b => Some b)
          (fun _ => None) (fun _ => None) 0.

(** A world whose override table has an entry for the locator
    [/constructor] only. *)
Definition override_shadowed : World :=
  mkWorld (Some {[ "/constructor" := PString "https://ext/c.json" ]})
          None None (fun _ _ => http_404)
          (fun _ => None) (fun u => u) (fun b => Some b)
          (fun _ => None) (fun _ => None) 0.

(** The document was requested, cleared while in flight and requested
    again: loads 0 and 1 are both in flight, the pending record names
    load 1. *)
Definition cleared_and_reissued : Service :=
  snd (run [CallGetData "a.json" json;
            CallClearCache (Some "a.json");
            CallGetData "a.json" json] new_service).

(** The static host of the [Blob] example. *)
Definition cv_host : World := serving "/assets/cv.pdf" (PBlob "%PDF").

(** Activity that leaves the cached [Blob] of [cv.pdf] in place: another
    request for it as a [Blob], requests and a [clearCache] for another
    document, a load of that document settling, and a caller writing to
    the [Blob] it was handed. *)
Definition cv_bystanders : list event :=
  [CallGetData "/assets/cv.pdf" blob;
   CallGetData "a.json" json;
   LoadSettles 1 doc_host;
   CallGetData "a.json" text;
   CallClearCache (Some "a.json");
   CallerMutates (SetProp 0 "seen" (VBool true))].

(** No success entry of the cache holds [null] or [undefined]. *)
Definition no_nullish_entry (s : Service) : Prop :=
  forall u e, cache s !! u = Some (Some e) ->
              data e <> VUndefined /\ data e <> VNull.

(** ** Reading configuration documents *)

(** [p?.k] for the property names the service reads in a configuration
    or data document ([proxy], [baseUrl], [endpoint], [outreach],
    [configPath], [metadata], [cv], [url], [enabled]): the member of an
    object, [undefined] for anything else, since no array, string or
    built-in prototype defines one of these names. *)
Definition optField (p : payload) (k : string) : payload :=
  match p with
  | PObject props =>
      match List.find (fun kv => String.eqb (fst kv) k) props with
      | Some kv => snd kv
      | None => PUndefined
      end
  | _ => PUndefined
  end.

(** [a || b] *)
Definition orElse (a b : payload) : payload := if truthy a then a else b.

(** The conversion a template literal applies to [p]: a string is
    itself, anything else goes through the platform's [String]. *)
Definition templateString (w : World) (p : payload) : option string :=
  match p with
  | PString s => Some s
  | _ => String_of w p
  end.

(** [`${n}`] for an integer. *)
Definition numberToString (n : Z) : string :=
  NilZero.string_of_int (Z.to_int n).

(** ** ConfigLoader *)

Module ConfigLoader.

(** The fields of [class ConfigLoader] ([data] is [None] for [null],
    [loadingPromise] names the promise by the number of the
    [loadConfig] call it belongs to), together with what the event
    loop holds for it: the calls of [loadConfig] suspended at their
    [await firstValueFrom(http.get(...))], each with the address it
    asked for, and the log of every request the loader has sent. *)
Record t : Type := mk {
  configPath : payload;
  environmentConfig : payload;
  useProxyForExternal : bool;
  data : option payload;
  loaded : bool;
  loadingPromise : option nat;
  suspended : list (nat * string);
  next_promise : nat;
  sent : list string
}.

(** [new ConfigLoader(configPath, http, environmentConfig, useProxyForExternal)] *)
Definition create (configPath : payload) (environmentConfig : payload)
           (useProxyForExternal : bool) : t :=
  mk configPath environmentConfig useProxyForExternal None false None [] 0 [].

(** [get config()] *)
Definition config (c : t) : payload :=
  match data c with
  | Some d => d
  | None => PNull
  end.

(** [get isLoaded()] *)
Definition isLoaded (c : t) : bool := loaded c.

(** The address the [try] block of [loadConfig] asks for, [None] when
    the block throws before it sends anything: [configPath] is not a
    string (it has no [startsWith]), or a proxy setting cannot be
    converted to a string. *)
Definition requestUrl (w : World) (c : t) : option string :=
  match configPath c with
  | PString path =>
      let isExternalUrl := startsWith path "http://" || startsWith path "https://" in
      if isExternalUrl && useProxyForExternal c then
        match templateString w
                (orElse (optField (optField (environmentConfig c) "proxy") "baseUrl")
                        (PString "http://localhost:3001")),
              templateString w
                (orElse (optField (optField (environmentConfig c) "proxy") "endpoint")
                        (PString "/proxy")) with
        | Some proxyBaseUrl, Some proxyEndpoint =>
            Some (proxyBaseUrl +:+ proxyEndpoint +:+ "?url=" +:+ encodeURIComponent w path)
        | _, _ => None
        end
      else Some (path +:+ "?t=" +:+ numberToString (Date_now w))
  | _ => None
  end.

(** [loadConfig()] up to its first suspension: the request is sent and
    the call suspends, or the [catch] block has already run. *)
Definition loadConfig (w : World) (c : t) : nat * t :=
  let p := next_promise c in
  match requestUrl w c with
  | Some url =>
      (p, mk (configPath c) (environmentConfig c) (useProxyForExternal c)
             (data c) (loaded c) (loadingPromise c)
             (suspended c ++ [(p, url)]) (S p) (sent c ++ [url]))
  | None =>
      (p, mk (configPath c) (environmentConfig c) (useProxyForExternal c)
             None false (loadingPromise c)
             (suspended c) (S p) (sent c))
  end.

(** How an [ensureLoaded] call stands after its synchronous part. *)
Inductive Ensured : Type :=
| Awaits (promise : nat)
| ReturnsAtOnce.

(** [ensureLoaded()] up to its first suspension. *)
Definition ensureLoaded (w : World) (c : t) : Ensured * t :=
  match loadingPromise c with
  | Some p => (Awaits p, c)
  | None =>
      if loaded c then (ReturnsAtOnce, c)
      else
        let '(p, c1) := loadConfig w c in
        (Awaits p,
         mk (configPath c1) (environmentConfig c1) (useProxyForExternal c1)
            (data c1) (loaded c1) (Some p)
            (suspended c1) (next_promise c1) (sent c1))
  end.

(** The rest of [loadConfig] once the request of call [p] has settled
    against the world [w]: the validation of the document, or the
    [catch] block.  A number that names no suspended call changes
    nothing. *)
Definition resume (p : nat) (w : World) (c : t) : t :=
  match List.find (fun q => Nat.eqb (fst q) p) (suspended c) with
  | None => c
  | Some (_, url) =>
      let rest := List.filter (fun q => negb (Nat.eqb (fst q) p)) (suspended c) in
      match http_get w url json with
      | Ok configData =>
          if truthy configData && typeofObject configData then
            mk (configPath c) (environmentConfig c) (useProxyForExternal c)
               (Some configData) true (loadingPromise c)
               rest (next_promise c) (sent c)
          else
            mk (configPath c) (environmentConfig c) (useProxyForExternal c)
               None false (loadingPromise c)
               rest (next_promise c) (sent c)
      | Throw _ =>
          mk (configPath c) (environmentConfig c) (useProxyForExternal c)
             None false (loadingPromise c)
             rest (next_promise c) (sent c)
      end
  end.

(** [reset()] *)
Definition reset (c : t) : t :=
  mk (configPath c) (environmentConfig c) (useProxyForExternal c)
     None false None (suspended c) (next_promise c) (sent c).

(** What can happen to a loader. *)
Inductive op : Type :=
| CallEnsureLoaded (w : World)
| RequestSettles (p : nat) (w : World)
| CallReset.

Definition step (o : op) (c : t) : t :=
  match o with
  | CallEnsureLoaded w => snd (ensureLoaded w c)
  | RequestSettles p w => resume p w c
  | CallReset => reset c
  end.

Definition run (ops : list op) (c : t) : t :=
  foldl (fun c o => step o c) c ops.

Definition isReset (o : op) : bool :=
  match o with
  | CallReset => true
  | _ => false
  end.

End ConfigLoader.

(** ** The configuration bootstrap *)

(** [await loader.ensureLoaded()] for a loader nobody else is using, the
    request it sends, if any, settling against the world [w]. *)
Definition awaitLoaded (w : World) (c : ConfigLoader.t) : ConfigLoader.t :=
  match ConfigLoader.ensureLoaded w c with
  | (ConfigLoader.Awaits p, c1) => ConfigLoader.resume p w c1
  | (ConfigLoader.ReturnsAtOnce, c1) => c1
  end.

(** The two loaders of the service once [initializeConfigs] has loaded
    them. *)
Record Bootstrapped : Type := mkBootstrapped {
  environmentConfigLoader : ConfigLoader.t;
  outreachConfigLoader : ConfigLoader.t
}.

(** [initializeConfigs()] on the loaders the constructor creates, up to
    the point where the prefetch is started: the environment document is
    loaded against the world [w1], the override table against [w2]. *)
Definition initializeConfigs (w1 w2 : World) : Bootstrapped :=
  let env :=
    awaitLoaded w1 (ConfigLoader.create (PString "/assets/environment.json") PNull false) in
  let envConfig := ConfigLoader.config env in
  let configPath := optField (optField envConfig "outreach") "configPath" in
  let outreach :=
    if truthy configPath then ConfigLoader.create configPath envConfig true
    else ConfigLoader.create (PString "/assets/outreachConfig.json") PNull true in
  mkBootstrapped env (awaitLoaded w2 outreach).

(** The override table as [getExternalUrl] reads it off the snapshot of
    the loader: nothing for [null], the members of an object, the
    elements of an array under their indices. *)
Definition asTable (config : payload) : option (gmap string payload) :=
  match config with
  | PNull | PUndefined => None
  | PObject props => Some (list_to_map props)
  | PArray items => Some (list_to_map (imap (fun i x => (index_key i, x)) items))
  | _ => Some ∅
  end.

(** A loader of the environment document whose request is in flight. *)
Definition environment_loading : ConfigLoader.t :=
  snd (ConfigLoader.ensureLoaded offline
         (ConfigLoader.create (PString "/assets/environment.json") PNull false)).

(** A static host serving an environment document that names a proxy
    and an external override table. *)
Definition environment_host : World :=
  serving "/assets/environment.json?t=0"
          (PObject [("proxy", PObject [("baseUrl", PString "https://relay.example");
                                       ("endpoint", PString "/fetch")]);
                    ("outreach", PObject [("configPath", PString "https://cfg.example/o.json")])]).

(** ** SkillsService, a consumer of the data service *)

(** JavaScript truthiness of a heap value. *)
Definition val_truthy (v : val) : bool :=
  match v with
  | VUndefined | VNull => false
  | VBool b => b
  | VNumber n => negb (n =? 0)%Z
  | VString s => negb (String.eqb s EmptyString)
  | VRef _ => true
  end.

Module SkillsService.

(** The fields of [class SkillsService]; a [BehaviorSubject] is modelled
    by its current value. *)
Record t : Type := mk {
  skillsDataSubject : val;
  loadingSubject : bool;
  errorSubject : option string;
  cachedSkillsData : val;
  isLoading : bool
}.

(** The service as constructed. *)
Definition create : t := mk VNull false None VNull false.

(** How a [getSkillsData] call stands after its synchronous part:
    it returned [of(cached)], it returned the stream of non-null values
    of [skillsData$], or it awaits the [getData] call it made. *)
Inductive Reply : Type :=
| OfCached (v : val)
| NonNullStream
| AwaitsData (o : Outcome).

(** [getSkillsData()] up to its first suspension. *)
Definition getSkillsData (k : t) (s : Service) : Reply * t * Service :=
  if val_truthy (cachedSkillsData k) then (OfCached (cachedSkillsData k), k, s)
  else if isLoading k then (NonNullStream, k, s)
  else
    let '(o, s1) := getData "assets/data/skills.json" json s in
    (AwaitsData o, mk (skillsDataSubject k) true None (cachedSkillsData k) true, s1).

(** The rest of [getSkillsData] once the awaited [getData] has settled:
    what the call settles with, and the service after the [finally]
    block. *)
Definition resume (r : result val) (k : t) : result val * t :=
  match r with
  | Ok d => (Ok d, mk d false (errorSubject k) d false)
  | Throw error =>
      (Throw error,
       mk (skillsDataSubject k) false
          (Some (if instanceofError error then error_message error
                 else "Failed to load skills data"))
          (cachedSkillsData k) false)
  end.

(** [retry()] up to its first suspension. *)
Definition retry (k : t) (s : Service) : Reply * t * Service :=
  getSkillsData (mk VNull (loadingSubject k) (errorSubject k) VNull (isLoading k)) s.

(** [clearCache()] *)
Definition clearCache (k : t) : t :=
  mk VNull (loadingSubject k) (errorSubject k) VNull (isLoading k).

End SkillsService.

(** [s.split(',')] *)
Fixpoint splitComma (s : string) : list string :=
  match s with
  | EmptyString => [EmptyString]
  | String c r =>
      if Ascii.eqb c "," then EmptyString :: splitComma r
      else
        match splitComma r with
        | piece :: pieces => String c piece :: pieces
        | [] => [String c EmptyString]
        end
  end.

(** [l.slice(0, n)] for an integer [n]: a negative [n] counts from the
    end. *)
Definition slice0 {A : Type} (l : list A) (n : Z) : list A :=
  if (n <? 0)%Z then firstn (Z.to_nat (Z.of_nat (length l) + n)) l
  else firstn (Z.to_nat n) l.

(** [SkillsService.extractTopSkills(skillsData, count)], reading of
    [skillsData] the list [metadata.orbits] ([None] when it is missing)
    and the [skills] string of every category. *)
Definition extractTopSkills (orbits : option (list string)) (skills : list string)
           (count : Z) : list string :=
  match orbits with
  | Some (o :: os) => o :: os
  | _ =>
      slice0 (concat (map (fun skill => firstn 2 (map trim (splitComma skill))) skills))
             count
  end.

(** ** PortfolioService, a consumer of the data service *)

Module PortfolioService.

(** [[...new Set(l)]]: the distinct elements in the order of their first
    occurrence. *)
Fixpoint distinctFrom (seen l : list string) : list string :=
  match l with
  | [] => []
  | x :: r =>
      if existsb (String.eqb x) seen then distinctFrom seen r
      else x :: distinctFrom (x :: seen) r
  end.

Definition distinct (l : list string) : list string := distinctFrom [] l.

(** The own properties of the [categoryLabels] object literal. *)
Definition categoryLabels : list (string * string) :=
  [("solo", "Solo Projects");
   ("collaborated", "Collaborative Projects");
   ("web", "Web Development");
   ("graphics", "Graphics & 3D");
   ("mobile", "Mobile Apps");
   ("desktop", "Desktop Applications");
   ("game", "Games");
   ("ai", "AI & Machine Learning");
   ("data", "Data Science");
   ("other", "Other Projects")].

(** The names that every object literal inherits from
    [Object.prototype]: looking one of them up in [categoryLabels] finds
    a function or an object, which is truthy. *)
Definition objectPrototypeMembers : list string :=
  ["constructor"; "__defineGetter__"; "__defineSetter__"; "hasOwnProperty";
   "__lookupGetter__"; "__lookupSetter__"; "isPrototypeOf"; "propertyIsEnumerable";
   "toString"; "valueOf"; "__proto__"; "toLocaleString"].

(** The label of a category: a text, or the inherited member that the
    lookup in [categoryLabels] came across. *)
Inductive Label : Type :=
| LabelText (text : string)
| InheritedMember (name : string).

(** [str.replace('-', ' ')]: the first dash only. *)
Fixpoint replaceFirstDash (str : string) : string :=
  match str with
  | EmptyString => EmptyString
  | String c r =>
      if Ascii.eqb c "-" then String " " r else String c (replaceFirstDash r)
  end.

(** [capitalizeFirstLetter(str)], the platform's [toUpperCase] being
    given. *)
Definition capitalizeFirstLetter (toUpperCase : string -> string) (str : string) : string :=
  match str with
  | EmptyString => toUpperCase EmptyString +:+ EmptyString
  | String c r => toUpperCase (String c EmptyString) +:+ r
  end.

(** [categoryLabels[categoryId] || this.capitalizeFirstLetter(categoryId.replace('-', ' '))] *)
Definition labelFor (toUpperCase : string -> string) (categoryId : string) : Label :=
  match List.find (fun kv => String.eqb (fst kv) categoryId) categoryLabels with
  | Some kv => LabelText (snd kv)
  | None =>
      if existsb (String.eqb categoryId) objectPrototypeMembers
      then InheritedMember categoryId
      else LabelText (capitalizeFirstLetter toUpperCase (replaceFirstDash categoryId))
  end.

Record Category : Type := mkCategory {
  id : string;
  label : Label;
  isDefault : bool
}.

(** [generateCategoriesFromProjects(projects)], reading of every project
    its [category]. *)
Definition generateCategoriesFromProjects (toUpperCase : string -> string)
           (categories : list string) : list Category :=
  mkCategory "all" (LabelText "All Projects") true ::
  map (fun categoryId => mkCategory categoryId (labelFor toUpperCase categoryId) false)
      (distinct categories).

End PortfolioService.

(** ** Themes *)

(** [interface ThemeMode], its [background] and [text] members laid out
    flat. *)
Record ThemeMode : Type := mkThemeMode {
  mode_id : string;
  mode_name : string;
  mode_description : string;
  background_primary : string * string;
  background_secondary : string;
  background_overlay : string;
  background_glass : string;
  background_glassHover : string;
  text_primary : string;
  text_secondary : string;
  text_muted : string
}.

(** [interface ColorTheme], its [colors] member laid out flat. *)
Record ColorTheme : Type := mkColorTheme {
  color_id : string;
  color_name : string;
  color_description : string;
  colors_primary : string;
  colors_primaryLight : string;
  colors_primaryDark : string;
  colors_secondary : string;
  colors_secondaryLight : string;
  colors_secondaryDark : string
}.

(** [interface CompleteTheme] *)
Record CompleteTheme : Type := mkCompleteTheme {
  theme_id : string;
  theme_name : string;
  theme_description : string;
  theme_mode : ThemeMode;
  theme_colors : ColorTheme
}.

Definition THEME_MODES : list ThemeMode :=
  [mkThemeMode "dark" "Dark" "Deep, professional dark theme"
               ("#0a2a28ff", "#3a261aff") "#1a2a3a" "rgba(10, 26, 42, 0.9)"
               "rgba(255, 255, 255, 0.1)" "rgba(255, 255, 255, 0.15)"
               "#ffffff" "#cccccc" "#999999";
   mkThemeMode "light" "Light" "Clean, bright light theme"
               ("#FAF9F6ff", "#61685aff") "#a2a2a2ff" "rgba(248, 249, 250, 0.9)"
               "rgba(0, 0, 0, 0.05)" "rgba(0, 0, 0, 0.08)"
               "#212529" "#6c757d" "#adb5bd"].

Definition COLOR_THEMES : list ColorTheme :=
  [mkColorTheme "default" "Default" "Classic blue professional theme"
                "#4058d3" "#5a6dd8" "#2d4bb5" "#a43f49" "#b85861" "#8b2e38";
   mkColorTheme "ocean" "Ocean" "Cool blue-green theme"
                "#2196f3" "#42a5f5" "#1976d2" "#009688" "#26a69a" "#00796b";
   mkColorTheme "sunset" "Sunset" "Warm orange theme"
                "#ff6b35" "#ff8a65" "#e64a19" "#ffc107" "#ffca28" "#ff8f00";
   mkColorTheme "royal" "Royal" "Elegant purple theme"
                "#7c4dff" "#9c6ade" "#5c35cc" "#e91e63" "#f06292" "#c2185b";
   mkColorTheme "auto" "Auto" "Reactive animated hue that wanders the spectrum over time"
                "#ff6b35" "#ff8a65" "#e64a19" "#ffc107" "#ffca28" "#ff8f00"].

(** [toLowerCase] on the letters of the ASCII alphabet, which is all the
    mode names contain. *)
Definition lowerAscii (c : ascii) : ascii :=
  let n := nat_of_ascii c in
  if ((65 <=? n)%nat && (n <=? 90)%nat) then ascii_of_nat (n + 32) else c.

Fixpoint toLowerCaseAscii (s : string) : string :=
  match s with
  | EmptyString => EmptyString
  | String c r => String (lowerAscii c) (toLowerCaseAscii r)
  end.

(** The loop that fills [THEME_COMBINATIONS]: every colour theme under
    every mode, mode after mode. *)
Definition THEME_COMBINATIONS : list CompleteTheme :=
  flat_map
    (fun mode =>
       map (fun colorTheme =>
              mkCompleteTheme
                (color_id colorTheme +:+ "-" +:+ mode_id mode)
                (color_name colorTheme +:+ " " +:+ mode_name mode)
                (color_description colorTheme +:+ " in " +:+
                 toLowerCaseAscii (mode_name mode) +:+ " mode")
                mode colorTheme)
           COLOR_THEMES)
    THEME_MODES.

(** [l.findIndex(p)] *)
Fixpoint findIndexFrom {A : Type} (p : A -> bool) (i : Z) (l : list A) : Z :=
  match l with
  | [] => (-1)%Z
  | x :: r => if p x then i else findIndexFrom p (i + 1)%Z r
  end.

Definition findIndex {A : Type} (p : A -> bool) (l : list A) : Z :=
  findIndexFrom p 0%Z l.

Module ThemeService.

(** The signal [currentThemeId] of [class ThemeService], together with
    the item [portfolio-theme] of the browser's [localStorage] ([None]
    when it is not set).  The service is taken in a browser: the guards
    [typeof window !== 'undefined'] of [saveTheme] and [loadSavedTheme]
    pass.  Applying the theme to the document is left out. *)
Record t : Type := mk {
  currentThemeId : string;
  stored : option string
}.

(** [getThemeInfo(themeId)] *)
Definition getThemeInfo (themeId : string) : option CompleteTheme :=
  List.find (fun theme => String.eqb (theme_id theme) themeId) THEME_COMBINATIONS.

(** [getCurrentTheme()] *)
Definition getCurrentTheme (s : t) : option CompleteTheme :=
  List.find (fun theme => String.eqb (theme_id theme) (currentThemeId s)) THEME_COMBINATIONS.

(** [getCurrentMode()] *)
Definition getCurrentMode (s : t) : string :=
  match getCurrentTheme s with
  | Some theme => mode_id (theme_mode theme)
  | None => "dark"
  end.

(** [getCurrentColorTheme()] *)
Definition getCurrentColorTheme (s : t) : string :=
  match getCurrentTheme s with
  | Some theme => color_id (theme_colors theme)
  | None => "default"
  end.

(** [getThemesForMode(mode)] *)
Definition getThemesForMode (mode : string) : list CompleteTheme :=
  List.filter (fun theme => String.eqb (mode_id (theme_mode theme)) mode) THEME_COMBINATIONS.

(** [getThemesForCurrentMode()] *)
Definition getThemesForCurrentMode (s : t) : list CompleteTheme :=
  getThemesForMode (getCurrentMode s).

(** [setTheme(themeId)]: the signal is set and the identifier saved. *)
Definition setTheme (themeId : string) (s : t) : t :=
  mk themeId (Some themeId).

(** [loadSavedTheme()] *)
Definition loadSavedTheme (s : t) : t :=
  match stored s with
  | Some saved =>
      if negb (String.eqb saved EmptyString) &&
         existsb (fun theme => String.eqb (theme_id theme) saved) THEME_COMBINATIONS
      then mk saved (stored s)
      else s
  | None => s
  end.

(** The constructor, in a browser whose storage holds [stored]. *)
Definition create (stored : option string) : t :=
  loadSavedTheme (mk "default-dark" stored).

(** [cycleTheme()].  The index read from the table is a remainder by its
    length, so it is in range; out of range the source would throw on
    [undefined.id]. *)
Definition cycleTheme (s : t) : t :=
  let currentIndex :=
    findIndex (fun theme => String.eqb (theme_id theme) (currentThemeId s))
              THEME_COMBINATIONS in
  let nextIndex :=
    ((currentIndex + 1) mod Z.of_nat (length THEME_COMBINATIONS))%Z in
  match nth_error THEME_COMBINATIONS (Z.to_nat nextIndex) with
  | Some theme => setTheme (theme_id theme) s
  | None => s
  end.

End ThemeService.

(** The identifiers of the themes, in the order of the table. *)
Definition themeIds : list string := map theme_id THEME_COMBINATIONS.

(** * Sanity checks of the embedding *)

Example normalize_relative : normalizeLocalUrl "data/x.json" = "/assets/data/x.json".
Proof. reflexivity. Qed.

Example normalize_assets : normalizeLocalUrl "assets/data/x.json" = "/assets/data/x.json".
Proof. reflexivity. Qed.

Example normalize_slash : normalizeLocalUrl "/data/x.json" = "/data/x.json".
Proof. reflexivity. Qed.

Example materialize_nested :
  materialize (PObject [("a", PObject [("b", PNumber 1)])]) [] =
  (VRef 1, [mkObj PlainObject [("b", VNumber 1)] EmptyString;
            mkObj PlainObject [("a", VRef 0)] EmptyString]).
Proof. reflexivity. Qed.

Example matchBraces_html :
  matchBraces "<html><body>{c:3}</body></html>" = Some "{c:3}".
Proof. reflexivity. Qed.

(** No match when the only closing brace comes before the first opening
    one. *)
Example matchBraces_closing_first : matchBraces "a}b{c" = None.
Proof. reflexivity. Qed.

(** The text made of the letter h, an e with acute accent (two bytes)
    and a character outside the basic plane (four bytes, U+1F600) has
    four units: the last two are the surrogates U+D83D and U+DE00. *)
Example string_entries_units :
  string_entries 0
    (String "h"
       (String (ascii_of_nat 195) (String (ascii_of_nat 169)
          (String (ascii_of_nat 240) (String (ascii_of_nat 159)
             (String (ascii_of_nat 152) (String (ascii_of_nat 128) EmptyString))))))) =
  [("0", VString "h");
   ("1", VString (String (ascii_of_nat 195) (String (ascii_of_nat 169) EmptyString)));
   ("2", VString (String (ascii_of_nat 237)
                    (String (ascii_of_nat 160) (String (ascii_of_nat 189) EmptyString))));
   ("3", VString (String (ascii_of_nat 237)
                    (String (ascii_of_nat 184) (String (ascii_of_nat 128) EmptyString))))].
Proof. reflexivity. Qed.

(** A new array index is enumerated among the indices, a new name that
    is not an index after all the properties, and an assignment to an
    existing property leaves the order alone. *)
Example assignProp_order :
  assignProp "1" VNull [("0", VNull); ("2", VNull); ("a", VNull)] =
    [("0", VNull); ("1", VNull); ("2", VNull); ("a", VNull)] /\
  assignProp "01" VNull [("0", VNull); ("2", VNull); ("a", VNull)] =
    [("0", VNull); ("2", VNull); ("a", VNull); ("01", VNull)] /\
  assignProp "2" (VBool true) [("0", VNull); ("2", VNull); ("a", VNull)] =
    [("0", VNull); ("2", VBool true); ("a", VNull)].
Proof. repeat split. Qed.

(** What a lookup in the override table finds. *)
Example configLookup_members :
  configLookup {[ "/constructor" := PString "https://ext/c.json" ]} "/constructor" =
    Own (PString "https://ext/c.json") /\
  configLookup {[ "/constructor" := PString "https://ext/c.json" ]} "constructor" =
    Inherited "constructor" /\
  configLookup {[ "/constructor" := PString "https://ext/c.json" ]} "/assets/a.json" =
    Missing.
Proof. repeat split. Qed.

(** * Locator normalisation *)

Lemma startsWith_app (p s : string) : startsWith (p +:+ s) p = true.
Proof.
  induction p as [|c p IH]; simpl; [done|].
  by rewrite Ascii.eqb_refl.
Qed.

Lemma normalizeLocalUrl_leading_slash (s : string) :
  startsWith (normalizeLocalUrl s) "/" = true.
Proof.
  unfold normalizeLocalUrl.
  destruct (startsWith s "/") eqn:E; [exact E|].
  destruct (startsWith s "assets/"); apply (startsWith_app "/").
Qed.

(** Normalisation is idempotent. *)
Lemma normalizeLocalUrl_idempotent (s : string) :
  normalizeLocalUrl (normalizeLocalUrl s) = normalizeLocalUrl s.
Proof.
  unfold normalizeLocalUrl at 1. by rewrite normalizeLocalUrl_leading_slash.
Qed.

(** C8, as stated, fails: a leading separator alone marks a path as
    already normalised, so ["/data/x.json"] keeps its spelling while
    ["data/x.json"] moves under the assets namespace. *)
Lemma C8_leading_slash_not_identified :
  startsWith "data/x.json" "/" = false /\
  startsWith "data/x.json" "assets/" = false /\
  normalizeLocalUrl ("/" +:+ "data/x.json") <> normalizeLocalUrl "data/x.json".
Proof. repeat split; discriminate. Qed.

(** C8 (amended): for a relative path [p] (neither a leading separator
    nor the assets prefix), the three spellings [p], ['assets/' + p] and
    ['/assets/' + p] normalise to the same key ['/assets/' + p]; the
    spelling ['/' + p] is returned as it is. *)
Theorem C8_normalize_spellings (p : string) :
  startsWith p "/" = false ->
  startsWith p "assets/" = false ->
  normalizeLocalUrl p = "/assets/" +:+ p /\
  normalizeLocalUrl ("assets/" +:+ p) = "/assets/" +:+ p /\
  normalizeLocalUrl ("/assets/" +:+ p) = "/assets/" +:+ p /\
  normalizeLocalUrl ("/" +:+ p) = "/" +:+ p.
Proof.
  intros Hslash Hassets.
  split; [|split; [|split]]; unfold normalizeLocalUrl.
  - by rewrite Hslash, Hassets.
  - by rewrite (startsWith_app "assets/" p).
  - reflexivity.
  - reflexivity.
Qed.

Lemma C8_normalize_spellings_witness :
  normalizeLocalUrl "data/x.json" = "/assets/data/x.json" /\
  normalizeLocalUrl "assets/data/x.json" = "/assets/data/x.json" /\
  normalizeLocalUrl "/assets/data/x.json" = "/assets/data/x.json" /\
  normalizeLocalUrl "/data/x.json" = "/data/x.json".
Proof. apply (C8_normalize_spellings "data/x.json"); reflexivity. Defined.

(** * What [getData] hands back *)

(** [Blob]s are handed back by identity, without touching the heap. *)
Lemma return_view_blob (h : list obj) (d : val) :
  instanceofBlob h d = true -> return_view h d = (d, h).
Proof. unfold return_view. by intros ->. Qed.

(** Anything else is handed back as a freshly allocated plain object that
    holds the own enumerable properties of the stored value. *)
Lemma return_view_copy (h : list obj) (d : val) :
  instanceofBlob h d = false ->
  return_view h d =
    (VRef (length h), h ++ [mkObj PlainObject (own_enumerable h d) EmptyString]).
Proof. unfold return_view. by intros ->. Qed.

(** So [getData] never resolves to a primitive, whatever was fetched. *)
Lemma return_view_is_ref (h : list obj) (d : val) :
  instanceofBlob h d = true \/ fst (return_view h d) = VRef (length h).
Proof.
  destruct (instanceofBlob h d) eqn:E; [by left | right].
  by rewrite return_view_copy.
Qed.

(** A cache hit never resolves to a primitive: it hands back a
    reference, to the stored [Blob] or to a fresh object. *)
Lemma getData_fulfilled_is_ref (path : string) (rt : ResponseType)
      (s s1 : Service) (v : val) :
  getData path rt s = (Fulfilled v, s1) -> exists a, v = VRef a.
Proof.
  unfold getData, joinOrStart.
  destruct (cache s !! normalizeLocalUrl path) as [[entry|]|]; try done.
  - destruct (decide (responseType entry = rt)).
    + unfold return_view, spread, alloc.
      destruct (instanceofBlob (heap s) (data entry)) eqn:Hb.
      * intros [= <- <-]. destruct (data entry); try discriminate. eauto.
      * intros [= <- <-]. eauto.
    + by destruct (pendingRequests s !! normalizeLocalUrl path).
  - by destruct (pendingRequests s !! normalizeLocalUrl path).
Qed.

(** Neither does the owner of a load, whatever the load fetched. *)
Lemma settle_owner_is_ref (id : nat) (w : World) (s s1 : Service)
      (x : Settlement) (v : val) :
  settle id w s = (Some x, s1) -> owner_sees x = Ok v -> exists a, v = VRef a.
Proof.
  unfold settle. destruct (loads s !! id) as [ld|]; [|done].
  destruct (performDataLoad w (load_localUrl ld) (load_responseType ld))
    as [made [[p src]|e]].
  - destruct (materialize p (heap s)) as [d h1].
    unfold return_view, spread, alloc.
    destruct (instanceofBlob h1 d) eqn:Hb.
    + intros [= <- <-]; simpl. intros [= <-].
      destruct d; try discriminate. eauto.
    + intros [= <- <-]; simpl. intros [= <-]. eauto.
  - intros [= <- <-]; simpl. discriminate.
Qed.

(** C1: [getText('notes.txt')] against a host that serves the text [hi].
    The claim says both the fetching call and the later cache-hit call
    resolve to the string [hi].  The code spreads the string instead: the
    fetching call resolves to a new object [{0: 'h', 1: 'i'}], and so
    does the cache hit; only a caller that joined the pending request
    would be handed the string itself. *)
Theorem C1_getText_spreads_the_text :
  fst (getText "notes.txt" new_service) = Started 0 /\
  fst (settle 0 notes_host (snd (getText "notes.txt" new_service))) =
    Some (mkSettlement (Ok (VRef 0)) (Ok (VString "hi"))) /\
  fst (getText "notes.txt"
         (snd (settle 0 notes_host (snd (getText "notes.txt" new_service))))) =
    Fulfilled (VRef 1) /\
  heap (snd (getText "notes.txt"
         (snd (settle 0 notes_host (snd (getText "notes.txt" new_service)))))) =
    [mkObj PlainObject [("0", VString "h"); ("1", VString "i")] EmptyString;
     mkObj PlainObject [("0", VString "h"); ("1", VString "i")] EmptyString].
Proof. vm_compute. repeat split. Qed.

(** C2: [getArrayBuffer('a.bin')] against a host that serves a three
    byte buffer.  The claim says the fetched [ArrayBuffer] itself is
    handed back.  The buffer is stored at address 0, but the fetching
    call resolves to a new empty object at address 1 and the cache hit to
    another one at address 2: only [Blob]s escape the spread. *)
Theorem C2_getArrayBuffer_returns_empty_object :
  fst (getArrayBuffer "a.bin" new_service) = Started 0 /\
  fst (settle 0 bin_host (snd (getArrayBuffer "a.bin" new_service))) =
    Some (mkSettlement (Ok (VRef 1)) (Ok (VRef 0))) /\
  fst (getArrayBuffer "a.bin"
         (snd (settle 0 bin_host (snd (getArrayBuffer "a.bin" new_service))))) =
    Fulfilled (VRef 2) /\
  heap (snd (getArrayBuffer "a.bin"
         (snd (settle 0 bin_host (snd (getArrayBuffer "a.bin" new_service)))))) =
    [mkObj ArrayBufferObject [] "xyz";
     mkObj PlainObject [] EmptyString;
     mkObj PlainObject [] EmptyString].
Proof. vm_compute. repeat split. Qed.

(** The [Blob] half of the claim does hold: a cache hit on a stored
    [Blob] returns the stored reference and allocates nothing. *)
Lemma getData_blob_hit_by_identity (path : string) (rt : ResponseType)
      (s : Service) (entry : DataCacheEntry) :
  cache s !! normalizeLocalUrl path = Some (Some entry) ->
  responseType entry = rt ->
  instanceofBlob (heap s) (data entry) = true ->
  getData path rt s = (Fulfilled (data entry), s).
Proof.
  intros Hc Hrt Hb. unfold getData. rewrite Hc.
  destruct (decide (responseType entry = rt)); [|done].
  rewrite return_view_blob by done. by destruct s.
Qed.

(** * Fallback order *)


Lemma trimStart_h (s : string) :
  trimStart (String "h"%char s) = String "h"%char s.
Proof. by destruct s as [|c2 [|c3 r]]. Qed.

Lemma trim_h (s : string) :
  trim (String "h"%char s) = String "h"%char (trimEnd s).
Proof.
  unfold trim. rewrite trimStart_h.
  change (trimEnd (String "h"%char s))
    with (if String.eqb (trimStart (String "h"%char s)) EmptyString
          then EmptyString else String "h"%char (trimEnd s)).
  by rewrite trimStart_h.
Qed.

Lemma startsWith_nonempty (s p : string) :
  startsWith s (String "h"%char p) = true ->
  String.eqb s EmptyString = false /\ trimIsEmpty s = false.
Proof.
  destruct s as [|d s]; simpl; [done|].
  intros H. apply andb_true_iff in H as [Hd _].
  apply Ascii.eqb_eq in Hd as ->. split; [done|].
  unfold trimIsEmpty. by rewrite trim_h.
Qed.

(** Past its validation, the external fetcher sends one request to the
    proxy and decodes the answer according to the kind. *)
Lemma fetchExternalData_http (w : World) (url : string) (rt : ResponseType) :
  startsWith url "http://" || startsWith url "https://" = true ->
  fetchExternalData w url rt =
    match rt with
    | blob => ([ExternalAttempt (proxyUrlFor w url) blob], http_get w (proxyUrlFor w url) blob)
    | arraybuffer =>
        ([ExternalAttempt (proxyUrlFor w url) arraybuffer],
         http_get w (proxyUrlFor w url) arraybuffer)
    | _ =>
        ([ExternalAttempt (proxyUrlFor w url) text],
         match http_get w (proxyUrlFor w url) text with
         | Throw proxyError => Throw proxyError
         | Ok rawResponse =>
             if String.eqb (textOfRaw w rawResponse) EmptyString then
               Throw (PlainError "Empty response from proxy server")
             else
               match rt with
               | text => Ok (PString (textOfRaw w rawResponse))
               | _ => Ok (parseOrRecover w (textOfRaw w rawResponse))
               end
         end)
    end.
Proof.
  intros Hhttp. unfold fetchExternalData.
  assert (String.eqb url EmptyString = false /\ trimIsEmpty url = false) as [-> ->].
  { apply orb_true_iff in Hhttp as [H|H];
      destruct (startsWith_nonempty _ _ H) as [H1 H2]; split; auto. }
  apply orb_true_iff in Hhttp as [H|H]; rewrite H; simpl; [done|].
  by rewrite andb_false_r.
Qed.

(** The local fetch always closes the sequence when it is reached. *)
Lemma performDataLoad_no_override (w : World) (localUrl : string) (rt : ResponseType) :
  getExternalUrl w localUrl = None ->
  fst (performDataLoad w localUrl rt) = [LocalAttempt localUrl rt].
Proof. unfold performDataLoad. by intros ->. Qed.

Lemma performDataLoad_external_failed
      (w : World) (localUrl externalUrl : string) (rt : ResponseType) :
  getExternalUrl w localUrl = Some externalUrl ->
  externalFailed w externalUrl rt ->
  fst (performDataLoad w localUrl rt) =
    fst (fetchExternalData w externalUrl rt) ++ [LocalAttempt localUrl rt].
Proof.
  unfold performDataLoad, externalFailed. intros -> Hfail.
  destruct (fetchExternalData w externalUrl rt) as [made [d|e]]; simpl in *.
  - by rewrite Hfail.
  - done.
Qed.

(** A load that fails has always tried the local source last. *)
Lemma performDataLoad_throw_after_local
      (w : World) (localUrl : string) (rt : ResponseType) (e : JsError) :
  snd (performDataLoad w localUrl rt) = Throw e ->
  last (fst (performDataLoad w localUrl rt)) = Some (LocalAttempt localUrl rt).
Proof.
  unfold performDataLoad.
  destruct (getExternalUrl w localUrl) as [ext|].
  - destruct (fetchExternalData w ext rt) as [made [d|e']]; simpl.
    + destruct (notNullish d); simpl; [done|].
      intros _. by rewrite last_snoc.
    + intros _. by rewrite last_snoc.
  - done.
Qed.

(** The requests of a load sequence enter the log of the service when
    the owning [getData] call resumes. *)
Lemma settle_network (id : nat) (w : World) (s : Service) (ld : Load) :
  loads s !! id = Some ld ->
  network (snd (settle id w s)) =
    network s ++ fst (performDataLoad w (load_localUrl ld) (load_responseType ld)).
Proof.
  unfold settle. intros ->.
  destruct (performDataLoad w (load_localUrl ld) (load_responseType ld))
    as [made [[p src]|e]]; simpl; [|done].
  destruct (materialize p (heap s)) as [d h1].
  by destruct (return_view h1 d).
Qed.

(** C6: fallback order.  If an override URL exists for the locator and
    the external attempt fails, the local fetch of the locator is issued
    right after whatever the external attempt sent; if no override
    exists, the local fetch is the only request issued.  Whenever the
    load fails terminally, the last request it issued was the local
    fetch.  These requests are exactly what the [getData] call that owns
    the load adds to the traffic of the service. *)
Theorem C6_fallback_order (w : World) (localUrl : string) (rt : ResponseType) :
  (forall externalUrl,
      getExternalUrl w localUrl = Some externalUrl ->
      externalFailed w externalUrl rt ->
      fst (performDataLoad w localUrl rt) =
        fst (fetchExternalData w externalUrl rt) ++ [LocalAttempt localUrl rt]) /\
  (getExternalUrl w localUrl = None ->
      fst (performDataLoad w localUrl rt) = [LocalAttempt localUrl rt]) /\
  (forall e,
      snd (performDataLoad w localUrl rt) = Throw e ->
      last (fst (performDataLoad w localUrl rt)) = Some (LocalAttempt localUrl rt)) /\
  (forall (s : Service) (id : nat),
      loads s !! id = Some (mkLoad localUrl rt) ->
      network (snd (settle id w s)) = network s ++ fst (performDataLoad w localUrl rt)).
Proof.
  split; [|split; [|split]].
  - intros ext. apply performDataLoad_external_failed.
  - apply performDataLoad_no_override.
  - intros e. apply performDataLoad_throw_after_local.
  - intros s id Hld. by rewrite (settle_network id w s _ Hld).
Qed.

Lemma C6_fallback_order_witness :
  fst (performDataLoad override_down "/assets/data/x.json" json) =
    [ExternalAttempt "http://localhost:3001/proxy?url=https://ext/x.json" text;
     LocalAttempt "/assets/data/x.json" json] /\
  fst (performDataLoad offline "/assets/data/x.json" json) =
    [LocalAttempt "/assets/data/x.json" json] /\
  last (fst (performDataLoad offline "/assets/data/x.json" json)) =
    Some (LocalAttempt "/assets/data/x.json" json) /\
  network (snd (settle 0 override_down
                  (snd (getData "assets/data/x.json" json new_service)))) =
    [] ++ fst (performDataLoad override_down "/assets/data/x.json" json).
Proof.
  pose proof (C6_fallback_order override_down "/assets/data/x.json" json)
    as (H1 & _ & _ & H4).
  pose proof (C6_fallback_order offline "/assets/data/x.json" json) as (_ & H2 & H3 & _).
  split; [|split; [|split]].
  - exact (H1 "https://ext/x.json" eq_refl I).
  - exact (H2 eq_refl).
  - exact (H3 (DataLoadError "Failed to load data for /assets/data/x.json: Unknown error"
                             "DataLoadError" "/assets/data/x.json" None) eq_refl).
  - exact (H4 (snd (getData "assets/data/x.json" json new_service)) 0 eq_refl).
Defined.

(** * The cases of [getData] and of its continuation *)

Lemma getData_recorded_failure (path : string) (rt : ResponseType) (s : Service) :
  cache s !! normalizeLocalUrl path = Some None ->
  getData path rt s = (Rejected (previouslyFailed path), s).
Proof. unfold getData. by intros ->. Qed.

Lemma getData_miss (path : string) (rt : ResponseType) (s : Service) :
  cache s !! normalizeLocalUrl path = None ->
  getData path rt s = joinOrStart (normalizeLocalUrl path) rt s.
Proof. unfold getData. by intros ->. Qed.

Lemma getData_mismatch (path : string) (rt : ResponseType) (s : Service)
      (entry : DataCacheEntry) :
  cache s !! normalizeLocalUrl path = Some (Some entry) ->
  responseType entry <> rt ->
  getData path rt s = joinOrStart (normalizeLocalUrl path) rt s.
Proof.
  unfold getData. intros -> Hne.
  by destruct (decide (responseType entry = rt)).
Qed.

Lemma getData_hit (path : string) (rt : ResponseType) (s : Service)
      (entry : DataCacheEntry) :
  cache s !! normalizeLocalUrl path = Some (Some entry) ->
  responseType entry = rt ->
  getData path rt s =
    (Fulfilled (fst (return_view (heap s) (data entry))),
     mkService (snd (return_view (heap s) (data entry)))
               (cache s) (pendingRequests s) (loads s) (next_load s) (network s)).
Proof.
  unfold getData. intros -> Hrt.
  destruct (decide (responseType entry = rt)); [|done].
  by destruct (return_view (heap s) (data entry)).
Qed.

Lemma joinOrStart_pending (u : string) (rt : ResponseType) (s : Service) (id : nat) :
  pendingRequests s !! u = Some id ->
  joinOrStart u rt s = (Joined id, s).
Proof. unfold joinOrStart. by intros ->. Qed.

Lemma joinOrStart_idle (u : string) (rt : ResponseType) (s : Service) :
  pendingRequests s !! u = None ->
  joinOrStart u rt s =
    (Started (next_load s),
     mkService (heap s) (cache s)
               (<[u := next_load s]> (pendingRequests s))
               (<[next_load s := mkLoad u rt]> (loads s))
               (S (next_load s)) (network s)).
Proof. unfold joinOrStart. by intros ->. Qed.

(** The continuation of a failed load records the failure marker. *)
Lemma settle_failure (id : nat) (w : World) (s s1 : Service) (ld : Load)
      (x : Settlement) (e : JsError) :
  loads s !! id = Some ld ->
  settle id w s = (Some x, s1) ->
  owner_sees x = Throw e ->
  joined_see x = Throw e /\
  snd (performDataLoad w (load_localUrl ld) (load_responseType ld)) = Throw e /\
  s1 = mkService (heap s) (<[load_localUrl ld := None]> (cache s))
                 (delete (load_localUrl ld) (pendingRequests s))
                 (delete id (loads s)) (next_load s)
                 (network s ++ fst (performDataLoad w (load_localUrl ld) (load_responseType ld))).
Proof.
  unfold settle. intros -> Hs Ho.
  destruct (performDataLoad w (load_localUrl ld) (load_responseType ld))
    as [made [[p src]|e']]; simpl in *.
  - destruct (materialize p (heap s)) as [d h1].
    destruct (return_view h1 d) as [v h2].
    inversion Hs; subst. discriminate.
  - inversion Hs; subst. simpl in Ho. by inversion Ho.
Qed.

(** The continuation of a successful load stores the fetched value and
    hands the owner its view of it. *)
Lemma settle_success (id : nat) (w : World) (s : Service) (ld : Load)
      (made : list attempt) (p : payload) (src : Source) :
  loads s !! id = Some ld ->
  performDataLoad w (load_localUrl ld) (load_responseType ld) = (made, Ok (p, src)) ->
  settle id w s =
    (Some (mkSettlement
             (Ok (fst (return_view (snd (materialize p (heap s)))
                                   (fst (materialize p (heap s))))))
             (Ok (fst (materialize p (heap s))))),
     mkService (snd (return_view (snd (materialize p (heap s)))
                                 (fst (materialize p (heap s)))))
               (<[load_localUrl ld :=
                    Some (mkEntry (fst (materialize p (heap s))) (Date_now w) src
                                  (load_responseType ld))]> (cache s))
               (delete (load_localUrl ld) (pendingRequests s))
               (delete id (loads s)) (next_load s) (network s ++ made)).
Proof.
  unfold settle. intros -> ->.
  destruct (materialize p (heap s)) as [d h1]; simpl.
  by destruct (return_view h1 d) as [v h2].
Qed.

(** A fetched [Blob] is handed back by identity as well: the owner, the
    callers that joined and the cache all hold the one object that was
    allocated for it. *)
Lemma settle_blob_by_identity (id : nat) (w : World) (s : Service) (ld : Load)
      (made : list attempt) (bytes : string) (src : Source) :
  loads s !! id = Some ld ->
  performDataLoad w (load_localUrl ld) (load_responseType ld) =
    (made, Ok (PBlob bytes, src)) ->
  fst (settle id w s) =
    Some (mkSettlement (Ok (VRef (length (heap s)))) (Ok (VRef (length (heap s))))) /\
  heap (snd (settle id w s)) = heap s ++ [mkObj BlobObject [] bytes] /\
  cache (snd (settle id w s)) !! load_localUrl ld =
    Some (Some (mkEntry (VRef (length (heap s))) (Date_now w) src (load_responseType ld))).
Proof.
  intros Hld Hload. rewrite (settle_success _ _ _ _ _ _ _ Hld Hload). simpl.
  unfold alloc; simpl.
  rewrite return_view_blob by (simpl; by rewrite list_lookup_middle).
  simpl. repeat split. apply lookup_insert_eq.
Qed.

Lemma clearCache_lookup (path : string) (s : Service) :
  cache (clearCache (Some path) s) !! normalizeLocalUrl path = None /\
  pendingRequests (clearCache (Some path) s) !! normalizeLocalUrl path = None.
Proof.
  unfold clearCache. destruct (String.eqb path EmptyString); simpl.
  - by rewrite !lookup_empty.
  - by rewrite !lookup_delete_eq.
Qed.

Lemma clearCache_all_lookup (u : string) (s : Service) :
  cache (clearCache None s) !! u = None /\
  pendingRequests (clearCache None s) !! u = None.
Proof. simpl. by rewrite !lookup_empty. Qed.

(** * Failure stickiness *)

(** C5: once the load owned by a [getData(p, k)] call has failed, the
    call that follows for the same locator and kind is rejected with the
    "previously failed" error and leaves the service exactly as it was:
    no load sequence is begun, nothing is sent.  After [clearCache(p)]
    the next call begins a fresh load instead. *)
Theorem C5_failure_is_sticky
        (s s1 : Service) (id : nat) (ld : Load) (w : World)
        (x : Settlement) (e : JsError) (path : string) :
  loads s !! id = Some ld ->
  settle id w s = (Some x, s1) ->
  owner_sees x = Throw e ->
  normalizeLocalUrl path = load_localUrl ld ->
  getData path (load_responseType ld) s1 = (Rejected (previouslyFailed path), s1) /\
  fst (getData path (load_responseType ld) (clearCache (Some path) s1)) =
    Started (next_load s1).
Proof.
  intros Hld Hs Ho Hp.
  destruct (settle_failure _ _ _ _ _ _ _ Hld Hs Ho) as (_ & _ & ->).
  split.
  - apply getData_recorded_failure. simpl. rewrite Hp. apply lookup_insert_eq.
  - match goal with |- context [clearCache _ ?t] => set (s1 := t) end.
    destruct (clearCache_lookup path s1) as [Hc Hq].
    rewrite getData_miss by done.
    rewrite joinOrStart_idle by done. simpl.
    unfold clearCache. by destruct (String.eqb path EmptyString).
Qed.

Lemma C5_failure_is_sticky_witness :
  getData "assets/a.bin" json
          (snd (settle 0 offline (snd (getData "a.bin" json new_service)))) =
    (Rejected (previouslyFailed "assets/a.bin"),
     snd (settle 0 offline (snd (getData "a.bin" json new_service)))) /\
  fst (getData "assets/a.bin" json
         (clearCache (Some "assets/a.bin")
            (snd (settle 0 offline (snd (getData "a.bin" json new_service)))))) =
    Started 1.
Proof.
  exact (C5_failure_is_sticky
           (snd (getData "a.bin" json new_service)) _ 0
           (mkLoad "/assets/a.bin" json) offline _
           (DataLoadError "Failed to load data for /assets/a.bin: Unknown error"
                          "DataLoadError" "/assets/a.bin" None)
           "assets/a.bin" eq_refl eq_refl eq_refl eq_refl).
Defined.

(** * A recorded failure stays until it is cleared *)

Lemma getData_cache (path : string) (rt : ResponseType) (s : Service) :
  cache (snd (getData path rt s)) = cache s.
Proof.
  unfold getData, joinOrStart.
  destruct (cache s !! normalizeLocalUrl path) as [[entry|]|]; simpl; try done.
  - destruct (decide (responseType entry = rt)).
    + by destruct (return_view (heap s) (data entry)).
    + by destruct (pendingRequests s !! normalizeLocalUrl path).
  - by destruct (pendingRequests s !! normalizeLocalUrl path).
Qed.

Lemma step_failure_recorded (u : string) (ev : event) (s : Service) :
  clears u ev = false ->
  failure_recorded u s ->
  failure_recorded u (snd (step ev s)).
Proof.
  intros Hev [Hc Hl]. destruct ev as [path rt|path|id w|m]; simpl.
  - (* getData *)
    destruct (getData path rt s) as [o s'] eqn:E; simpl.
    pose proof (getData_cache path rt s) as Hcache. rewrite E in Hcache; simpl in Hcache.
    split; [by rewrite Hcache|].
    destruct (decide (normalizeLocalUrl path = u)) as [Heq|Hne].
    + subst u. rewrite getData_recorded_failure in E by done. by inversion E; subst.
    + revert E. unfold getData, joinOrStart.
      destruct (cache s !! normalizeLocalUrl path) as [[entry|]|];
        repeat (case_match; simpl); intros E; inversion E; subst; try done;
        intros id ld; simpl;
        (destruct (decide (next_load s = id)) as [->|Hid];
         [rewrite lookup_insert_eq; intros [= <-]; done
         |rewrite lookup_insert_ne by done; apply Hl]).
  - (* clearCache *)
    destruct path as [p|]; [|done]. simpl in Hev.
    apply orb_false_iff in Hev as [Hp Hu].
    unfold clearCache. rewrite Hp. split; [|done]. simpl.
    apply String.eqb_neq in Hu. by rewrite lookup_delete_ne.
  - (* a load settles *)
    unfold settle. destruct (loads s !! id) as [ld|] eqn:Hld; [|done].
    pose proof (Hl _ _ Hld) as Hne.
    assert (no_load_for u
              (mkService (heap s) (cache s) (pendingRequests s)
                         (delete id (loads s)) (next_load s) (network s))) as Hl'.
    { intros id' ld'; simpl. intros H. apply lookup_delete_Some in H as [_ H].
      by eapply Hl. }
    destruct (performDataLoad w (load_localUrl ld) (load_responseType ld))
      as [made [[p src]|e]]; simpl.
    + destruct (materialize p (heap s)) as [d h1].
      destruct (return_view h1 d) as [v h2]; simpl.
      split; [simpl; by rewrite lookup_insert_ne | exact Hl'].
    + split; [simpl; by rewrite lookup_insert_ne | exact Hl'].
  - (* a caller mutates an object *)
    done.
Qed.

Lemma run_failure_recorded (u : string) (evs : list event) (s : Service) :
  forallb (fun ev => negb (clears u ev)) evs = true ->
  failure_recorded u s ->
  failure_recorded u (snd (run evs s)).
Proof.
  revert s. induction evs as [|ev evs IH]; intros s Hevs Hs; [done|].
  simpl in Hevs. apply andb_true_iff in Hevs as [Hev Hevs].
  apply negb_true_iff in Hev.
  pose proof (step_failure_recorded u ev s Hev Hs) as H1.
  simpl. destruct (step ev s) as [o s1]; simpl in *.
  specialize (IH s1 Hevs H1).
  by destruct (run evs s1).
Qed.

Lemma run_rejected_calls (u : string) (s : Service)
      (calls : list (string * ResponseType)) :
  cache s !! u = Some None ->
  Forall (fun c => normalizeLocalUrl (fst c) = u) calls ->
  run (map (fun c => CallGetData (fst c) (snd c)) calls) s =
    (map (fun c => Returned (Rejected (previouslyFailed (fst c)))) calls, s).
Proof.
  intros Hc. induction 1 as [|[q k] calls Hq _ IH]; [done|].
  simpl in *. rewrite getData_recorded_failure by (by rewrite Hq).
  by rewrite IH.
Qed.

(** C10, as stated, fails: the document is requested, cleared while in
    flight and requested again, so that loads 0 and 1 are both in flight.
    Load 0 fails terminally and the failure is recorded: a call made
    then is rejected.  Load 1 settles next, with the document, and its
    continuation overwrites the marker.  No [clearCache] was called
    after the failure, yet the request for the document as JSON is
    served and the request for it as text begins a fresh load. *)
Lemma C10_later_load_overwrites_the_failure :
  fst (settle 0 offline cleared_and_reissued) =
    Some (mkSettlement
            (Throw (DataLoadError "Failed to load data for /assets/a.json: Unknown error"
                                  "DataLoadError" "/assets/a.json" None))
            (Throw (DataLoadError "Failed to load data for /assets/a.json: Unknown error"
                                  "DataLoadError" "/assets/a.json" None))) /\
  fst (getData "a.json" text (snd (settle 0 offline cleared_and_reissued))) =
    Rejected (previouslyFailed "a.json") /\
  fst (getData "a.json" json
         (snd (run [LoadSettles 1 doc_host]
                   (snd (settle 0 offline cleared_and_reissued))))) = Fulfilled (VRef 2) /\
  fst (getData "a.json" text
         (snd (run [LoadSettles 1 doc_host]
                   (snd (settle 0 offline cleared_and_reissued))))) = Started 2.
Proof. vm_compute. repeat split. Qed.

(** C10 (amended): a recorded failure is blind to the response type.
    Once the load owned by a [getData(p, k1)] call has failed:
    - the calls that follow for the locator, in any spelling and for any
      response types, are each rejected with the "previously failed"
      error and leave the service exactly as it was, so nothing is
      fetched;
    - the same holds for a call of any response type made after any
      other activity of the service that does not clear the entry of
      [p], as long as no other load for [p] is still in flight when the
      failure is recorded (there is none unless the request was cleared
      and issued again while pending);
    - after [clearCache(p)] a call of any response type begins a fresh
      load. *)
Theorem C10_failure_is_kind_blind
        (s s1 : Service) (id : nat) (ld : Load) (w : World)
        (x : Settlement) (e : JsError) :
  loads s !! id = Some ld ->
  settle id w s = (Some x, s1) ->
  owner_sees x = Throw e ->
  (forall calls : list (string * ResponseType),
      Forall (fun c => normalizeLocalUrl (fst c) = load_localUrl ld) calls ->
      run (map (fun c => CallGetData (fst c) (snd c)) calls) s1 =
        (map (fun c => Returned (Rejected (previouslyFailed (fst c)))) calls, s1)) /\
  (no_load_for (load_localUrl ld) s1 ->
   forall (evs : list event) (path : string) (k2 : ResponseType),
     forallb (fun ev => negb (clears (load_localUrl ld) ev)) evs = true ->
     normalizeLocalUrl path = load_localUrl ld ->
     getData path k2 (snd (run evs s1)) =
       (Rejected (previouslyFailed path), snd (run evs s1))) /\
  (forall (path : string) (k2 : ResponseType),
      normalizeLocalUrl path = load_localUrl ld ->
      fst (getData path k2 (clearCache (Some path) s1)) = Started (next_load s1)).
Proof.
  intros Hld Hs Ho.
  destruct (settle_failure _ _ _ _ _ _ _ Hld Hs Ho) as (_ & _ & Hs1).
  assert (cache s1 !! load_localUrl ld = Some None) as Hmark.
  { subst s1; simpl. apply lookup_insert_eq. }
  split; [|split].
  - intros calls Hcalls. by apply (run_rejected_calls (load_localUrl ld)).
  - intros Hfree evs path k2 Hevs Hp.
    destruct (run_failure_recorded _ evs s1 Hevs (conj Hmark Hfree)) as [Hc _].
    apply getData_recorded_failure. by rewrite Hp.
  - intros path k2 Hp.
    destruct (clearCache_lookup path s1) as [Hc Hq].
    rewrite getData_miss by done.
    rewrite joinOrStart_idle by done. simpl.
    unfold clearCache. by destruct (String.eqb path EmptyString).
Qed.

Lemma C10_failure_is_kind_blind_witness :
  run (map (fun c => CallGetData (fst c) (snd c))
           [("a.bin", text); ("/assets/a.bin", blob); ("assets/a.bin", arraybuffer)])
      (snd (settle 0 offline (snd (getData "a.bin" json new_service)))) =
    (map (fun c => Returned (Rejected (previouslyFailed (fst c))))
         [("a.bin", text); ("/assets/a.bin", blob); ("assets/a.bin", arraybuffer)],
     snd (settle 0 offline (snd (getData "a.bin" json new_service)))) /\
  getData "/assets/a.bin" blob
          (snd (run bystanders
                    (snd (settle 0 offline (snd (getData "a.bin" json new_service)))))) =
    (Rejected (previouslyFailed "/assets/a.bin"),
     snd (run bystanders
              (snd (settle 0 offline (snd (getData "a.bin" json new_service)))))).
Proof.
  pose proof (C10_failure_is_kind_blind
                (snd (getData "a.bin" json new_service)) _ 0
                (mkLoad "/assets/a.bin" json) offline _
                (DataLoadError "Failed to load data for /assets/a.bin: Unknown error"
                               "DataLoadError" "/assets/a.bin" None)
                eq_refl eq_refl eq_refl) as (H1 & H2 & _).
  split.
  - apply H1. repeat constructor.
  - apply H2; [|reflexivity|reflexivity].
    intros id ld H. vm_compute in H. discriminate.
Defined.

(** * Clearing a request that is in flight *)

Lemma clearCache_clears (u : string) (path : option string) (s : Service) :
  clears u (CallClearCache path) = true ->
  cache (clearCache path s) !! u = None /\
  pendingRequests (clearCache path s) !! u = None.
Proof.
  destruct path as [p|]; simpl; [|by rewrite !lookup_empty].
  destruct (String.eqb p EmptyString); simpl; [by rewrite !lookup_empty|].
  intros Hu. apply String.eqb_eq in Hu as <-. by rewrite !lookup_delete_eq.
Qed.

Lemma clearCache_keeps_loads (path : option string) (s : Service) :
  loads (clearCache path s) = loads s /\ heap (clearCache path s) = heap s.
Proof.
  destruct path as [p|]; simpl; [|done].
  by destruct (String.eqb p EmptyString).
Qed.

(** C3, as stated, fails: [clearCache('a.json')] is called while the
    request is in flight, it empties the slot, and the result that
    arrives afterwards is stored in the cache all the same. *)
Lemma C3_late_result_is_stored :
  loads (snd (getData "a.json" json new_service)) !! 0 =
    Some (mkLoad "/assets/a.json" json) /\
  cache (clearCache (Some "a.json") (snd (getData "a.json" json new_service)))
    !! "/assets/a.json" = None /\
  cache (snd (settle 0 doc_host
                (clearCache (Some "a.json") (snd (getData "a.json" json new_service)))))
    !! "/assets/a.json" = Some (Some (mkEntry (VRef 0) 0 local json)).
Proof. vm_compute. repeat split. Qed.

(** C3 (amended): [clearCache(p)], or [clearCache()], called while a
    request for [p] is in flight removes the cache entry and the pending
    record of [p], but the load sequence itself goes on, and when it
    settles its owner stores the outcome under [p]: the fetched value on
    success, the failure marker on failure. *)
Theorem C3_cleared_request_lands_in_cache
        (s : Service) (id : nat) (ld : Load) (w : World) (path : option string) :
  loads s !! id = Some ld ->
  clears (load_localUrl ld) (CallClearCache path) = true ->
  cache (clearCache path s) !! load_localUrl ld = None /\
  pendingRequests (clearCache path s) !! load_localUrl ld = None /\
  loads (clearCache path s) !! id = Some ld /\
  (forall made p src,
      performDataLoad w (load_localUrl ld) (load_responseType ld) = (made, Ok (p, src)) ->
      cache (snd (settle id w (clearCache path s))) !! load_localUrl ld =
        Some (Some (mkEntry (fst (materialize p (heap s))) (Date_now w) src
                            (load_responseType ld)))) /\
  (forall made e,
      performDataLoad w (load_localUrl ld) (load_responseType ld) = (made, Throw e) ->
      cache (snd (settle id w (clearCache path s))) !! load_localUrl ld = Some None).
Proof.
  intros Hld Hclr.
  destruct (clearCache_clears _ _ s Hclr) as [Hc Hp].
  destruct (clearCache_keeps_loads path s) as [Hl Hh].
  assert (loads (clearCache path s) !! id = Some ld) as Hld' by by rewrite Hl.
  repeat split; try done.
  - intros made p src Hload.
    rewrite (settle_success _ _ _ _ _ _ _ Hld' Hload). simpl.
    rewrite Hh. apply lookup_insert_eq.
  - intros made e Hload. unfold settle. rewrite Hld', Hload. simpl.
    apply lookup_insert_eq.
Qed.

Lemma C3_cleared_request_lands_in_cache_witness :
  cache (snd (settle 0 doc_host
                (clearCache (Some "a.json") (snd (getData "a.json" json new_service)))))
    !! "/assets/a.json" = Some (Some (mkEntry (VRef 0) 0 local json)).
Proof.
  pose proof (C3_cleared_request_lands_in_cache
                (snd (getData "a.json" json new_service)) 0
                (mkLoad "/assets/a.json" json) doc_host (Some "a.json")
                eq_refl eq_refl) as (_ & _ & _ & H & _).
  exact (H [LocalAttempt "/assets/a.json" json] (PObject [("a", PNumber 1)]) local eq_refl).
Defined.

(** * Reachable states and their bookkeeping invariant *)

Lemma new_service_consistent : consistent new_service.
Proof. split; simpl; intros *; by rewrite lookup_empty. Qed.

Lemma joinOrStart_consistent (u : string) (rt : ResponseType) (s : Service) :
  cache s !! u <> Some None ->
  consistent s ->
  consistent (snd (joinOrStart u rt s)).
Proof.
  intros Hu [H1 H2 H3]. unfold joinOrStart.
  destruct (pendingRequests s !! u) as [id|] eqn:Hp; simpl; [done|].
  split; simpl.
  - intros u' id'. destruct (decide (u = u')) as [<-|Hne]; [done|].
    rewrite lookup_insert_ne by done. apply H1.
  - intros u' id'. destruct (decide (u = u')) as [<-|Hne].
    + rewrite lookup_insert_eq. intros [= <-]. exists rt. apply lookup_insert_eq.
    + rewrite lookup_insert_ne by done. intros Hp'.
      destruct (H2 _ _ Hp') as [k Hk]. exists k.
      rewrite lookup_insert_ne; [done|]. apply H3 in Hk. lia.
  - intros id' ld'. destruct (decide (next_load s = id')) as [<-|Hne].
    + lia.
    + rewrite lookup_insert_ne by done. intros H. apply H3 in H. lia.
Qed.

Lemma getData_consistent (path : string) (rt : ResponseType) (s : Service) :
  consistent s -> consistent (snd (getData path rt s)).
Proof.
  intros Hs. unfold getData.
  destruct (cache s !! normalizeLocalUrl path) as [[entry|]|] eqn:Hc; simpl.
  - destruct (decide (responseType entry = rt)).
    + destruct (return_view (heap s) (data entry)); simpl.
      by destruct Hs.
    + apply joinOrStart_consistent; [by rewrite Hc | done].
  - done.
  - apply joinOrStart_consistent; [by rewrite Hc | done].
Qed.

Lemma clearCache_consistent (path : option string) (s : Service) :
  consistent s -> consistent (clearCache path s).
Proof.
  intros [H1 H2 H3].
  assert (consistent (mkService (heap s) ∅ ∅ (loads s) (next_load s) (network s))) as Hall.
  { split; simpl; try done; intros *; by rewrite lookup_empty. }
  destruct path as [p|]; simpl; [|done].
  destruct (String.eqb p EmptyString); [done|].
  split; simpl; [| |done].
  - intros u id Hp. apply lookup_delete_Some in Hp as [Hne Hp].
    rewrite lookup_delete_ne by done. by eapply H1.
  - intros u id Hp. apply lookup_delete_Some in Hp as [Hne Hp]. by eapply H2.
Qed.

Lemma settle_consistent (id : nat) (w : World) (s : Service) :
  consistent s -> consistent (snd (settle id w s)).
Proof.
  intros [H1 H2 H3]. unfold settle.
  destruct (loads s !! id) as [ld|] eqn:Hld; [|done].
  assert (forall h c entry made,
             c !! load_localUrl ld = None \/ c !! load_localUrl ld = Some entry ->
             (forall u, u <> load_localUrl ld -> c !! u = cache s !! u) ->
             consistent (mkService h c (delete (load_localUrl ld) (pendingRequests s))
                                   (delete id (loads s)) (next_load s) made)) as Hgen.
  { intros h c entry made _ Hc. split; simpl.
    - intros u id' Hp. apply lookup_delete_Some in Hp as [Hne Hp].
      rewrite Hc by done. by eapply H1.
    - intros u id' Hp. apply lookup_delete_Some in Hp as [Hne Hp].
      destruct (H2 _ _ Hp) as [k Hk]. exists k.
      rewrite lookup_delete_ne; [done|].
      intros <-. rewrite Hld in Hk. inversion Hk as [Hk']. by rewrite Hk' in Hne.
    - intros id' ld' H. apply lookup_delete_Some in H as [_ H]. by eapply H3. }
  destruct (performDataLoad w (load_localUrl ld) (load_responseType ld))
    as [made [[p src]|e]]; simpl.
  - destruct (materialize p (heap s)) as [d h1].
    destruct (return_view h1 d) as [v h2]; simpl.
    eapply Hgen; [right; apply lookup_insert_eq|].
    intros u Hu. by rewrite lookup_insert_ne.
  - eapply Hgen; [right; apply lookup_insert_eq|].
    intros u Hu. by rewrite lookup_insert_ne.
Qed.

Lemma step_consistent (ev : event) (s : Service) :
  consistent s -> consistent (snd (step ev s)).
Proof.
  intros Hs. destruct ev as [path rt|path|id w|m]; simpl.
  - pose proof (getData_consistent path rt s Hs). by destruct (getData path rt s).
  - by apply clearCache_consistent.
  - pose proof (settle_consistent id w s Hs). by destruct (settle id w s).
  - by destruct Hs.
Qed.

Lemma run_consistent (evs : list event) (s : Service) :
  consistent s -> consistent (snd (run evs s)).
Proof.
  revert s. induction evs as [|ev evs IH]; intros s Hs; [done|].
  simpl. pose proof (step_consistent ev s Hs) as H1.
  destruct (step ev s) as [o s1]; simpl in *.
  specialize (IH s1 H1). by destruct (run evs s1).
Qed.

Lemma reachable_consistent (s : Service) : reachable s -> consistent s.
Proof. intros [evs ->]. apply run_consistent, new_service_consistent. Qed.

(** * Joining a pending request of another kind *)

Lemma getData_starts_nothing_while_pending
      (path : string) (rt : ResponseType) (s : Service) (id : nat) :
  pendingRequests s !! normalizeLocalUrl path = Some id ->
  loads (snd (getData path rt s)) = loads s /\
  pendingRequests (snd (getData path rt s)) = pendingRequests s /\
  network (snd (getData path rt s)) = network s.
Proof.
  intros Hp. unfold getData.
  destruct (cache s !! normalizeLocalUrl path) as [[entry|]|]; simpl; try done.
  - destruct (decide (responseType entry = rt)).
    + by destruct (return_view (heap s) (data entry)).
    + by rewrite (joinOrStart_pending _ _ _ _ Hp).
  - by rewrite (joinOrStart_pending _ _ _ _ Hp).
Qed.

(** C9, as stated, fails: a request for [a.json] as text (load 1) is
    pending while the cache still holds the document as JSON; the call
    [getData('a.json', 'json')] that arrives then is served from the
    cache (a fresh copy at address 2) and is not handed the pending text
    request. *)
Lemma C9_cache_hit_beats_pending :
  pendingRequests text_pending_over_json !! "/assets/a.json" = Some 1 /\
  loads text_pending_over_json !! 1 = Some (mkLoad "/assets/a.json" text) /\
  fst (getData "a.json" json text_pending_over_json) = Fulfilled (VRef 2) /\
  fst (getData "a.json" json text_pending_over_json) <> Joined 1.
Proof. vm_compute. repeat split; discriminate. Qed.

(** C9 (amended): the pending table is keyed by the locator alone.  A
    [getData(p, k2)] call that arrives while a request for [p] is pending
    never begins a load sequence of its own, whatever the kind of the
    pending request.  Unless the cache holds an entry for [p] of exactly
    the kind [k2], the call is handed the pending promise as it is and
    the service is left untouched.  When the cache does hold such an
    entry, the cache is consulted first: the call is served the view of
    the cached value (the stored [Blob], or a copy of anything else) and
    is not handed the pending promise.  The pending promise belongs to a
    load in flight for [p] whose kind is the one it was started with. *)
Theorem C9_join_ignores_kind
        (s : Service) (path : string) (k2 : ResponseType) (id : nat) :
  reachable s ->
  pendingRequests s !! normalizeLocalUrl path = Some id ->
  (exists k1, loads s !! id = Some (mkLoad (normalizeLocalUrl path) k1)) /\
  loads (snd (getData path k2 s)) = loads s /\
  pendingRequests (snd (getData path k2 s)) = pendingRequests s /\
  network (snd (getData path k2 s)) = network s /\
  ((forall entry, cache s !! normalizeLocalUrl path = Some (Some entry) ->
                  responseType entry <> k2) ->
   getData path k2 s = (Joined id, s)) /\
  (forall entry,
      cache s !! normalizeLocalUrl path = Some (Some entry) ->
      responseType entry = k2 ->
      getData path k2 s =
        (Fulfilled (fst (return_view (heap s) (data entry))),
         mkService (snd (return_view (heap s) (data entry)))
                   (cache s) (pendingRequests s) (loads s) (next_load s) (network s)) /\
      fst (getData path k2 s) <> Joined id).
Proof.
  intros Hr Hp. apply reachable_consistent in Hr as [H1 H2 _].
  destruct (getData_starts_nothing_while_pending path k2 s id Hp) as (Hl & Hq & Hn).
  split; [by apply H2|]. split; [done|]. split; [done|]. split; [done|]. split.
  - intros Hkind. specialize (H1 _ _ Hp).
    destruct (cache s !! normalizeLocalUrl path) as [[entry|]|] eqn:Hc; [| done |].
    + rewrite (getData_mismatch _ _ _ entry) by eauto.
      by apply joinOrStart_pending.
    + rewrite getData_miss by done. by apply joinOrStart_pending.
  - intros entry Hc Hk. rewrite (getData_hit _ _ _ entry Hc Hk). by split.
Qed.

Lemma C9_join_ignores_kind_witness :
  getData "/assets/a.json" text json_pending = (Joined 0, json_pending) /\
  fst (getData "a.json" blob text_pending_over_json) = Joined 1 /\
  fst (getData "a.json" json text_pending_over_json) = Fulfilled (VRef 2).
Proof.
  assert (reachable json_pending) as Hr.
  { by exists [CallGetData "a.json" json]. }
  assert (reachable text_pending_over_json) as Hr'.
  { by exists [CallGetData "a.json" json; LoadSettles 0 doc_host;
               CallGetData "a.json" text]. }
  pose proof (C9_join_ignores_kind json_pending "/assets/a.json" text 0 Hr eq_refl)
    as (_ & _ & _ & _ & H & _).
  pose proof (C9_join_ignores_kind text_pending_over_json "a.json" blob 1 Hr' eq_refl)
    as (_ & _ & _ & _ & Hjoin & _).
  pose proof (C9_join_ignores_kind text_pending_over_json "a.json" json 1 Hr' eq_refl)
    as (_ & _ & _ & _ & _ & Hhit).
  split; [|split].
  - apply H. intros entry Hc. vm_compute in Hc. discriminate.
  - rewrite Hjoin; [done|].
    intros entry Hc. vm_compute in Hc. inversion Hc; subst. discriminate.
  - destruct (Hhit (mkEntry (VRef 0) 0 local json) eq_refl eq_refl) as [-> _].
    reflexivity.
Defined.

(** * Single flight *)













(** * Copies and the cache *)

Lemma val_ok_mono (h h' : list obj) (v : val) :
  length h <= length h' -> val_ok h v -> val_ok h' v.
Proof. destruct v; simpl; try done. lia. Qed.

Lemma Forall_val_ok_mono (h h' : list obj) (props : list (string * val)) :
  length h <= length h' ->
  Forall (fun kv => val_ok h (snd kv)) props ->
  Forall (fun kv => val_ok h' (snd kv)) props.
Proof.
  intros Hle H. eapply Forall_impl; [exact H|].
  intros kv. by apply val_ok_mono.
Qed.

Lemma heap_closed_snoc (h : list obj) (o : obj) :
  heap_closed h ->
  Forall (fun kv => val_ok h (snd kv)) (o_props o) ->
  heap_closed (h ++ [o]).
Proof.
  intros Hh Ho a o' Hlook.
  assert (length h <= length (h ++ [o])) as Hle by (rewrite length_app; lia).
  apply lookup_app_Some in Hlook as [Hlook|[_ Hlook]].
  - eapply Forall_val_ok_mono; [exact Hle|]. by eapply Hh.
  - apply list_lookup_singleton_Some in Hlook as [_ <-].
    by eapply Forall_val_ok_mono.
Qed.

Lemma string_entries_ok (h : list obj) (s : string) (i : nat) :
  Forall (fun kv => val_ok h (snd kv)) (string_entries i s).
Proof.
  unfold string_entries. revert i.
  induction (codeUnits s) as [|u units IH]; intros i; simpl; by constructor.
Qed.

Lemma own_enumerable_ok (h : list obj) (d : val) :
  heap_closed h ->
  Forall (fun kv => val_ok h (snd kv)) (own_enumerable h d).
Proof.
  intros Hh. destruct d as [| | | |s|a]; simpl; try by constructor.
  - apply string_entries_ok.
  - destruct (h !! a) as [o|] eqn:Ho; [by eapply Hh | by constructor].
Qed.

Lemma return_view_closed (h : list obj) (d : val) :
  heap_closed h ->
  heap_closed (snd (return_view h d)) /\
  length h <= length (snd (return_view h d)).
Proof.
  intros Hh. unfold return_view, spread, alloc.
  destruct (instanceofBlob h d); simpl; [done|].
  split; [|rewrite length_app; lia].
  apply heap_closed_snoc; [done|]. simpl. by apply own_enumerable_ok.
Qed.

(** Materialising a payload keeps the heap closed, only adds objects, and
    yields a well scoped value. *)
Lemma materialize_closed :
  forall (p : payload) (h : list obj),
    heap_closed h ->
    heap_closed (snd (materialize p h)) /\
    val_ok (snd (materialize p h)) (fst (materialize p h)) /\
    length h <= length (snd (materialize p h)).
Proof.
  fix IH 1. intros p h Hh.
  destruct p as [| | | | |props|items| |]; simpl; try (repeat split; done || lia).
  - (* object *)
    match goal with |- context [let '(_, _) := ?go props h in _] =>
      assert (heap_closed (snd (go props h)) /\
              Forall (fun kv => val_ok (snd (go props h)) (snd kv)) (fst (go props h)) /\
              length h <= length (snd (go props h))) as Hgo
    end.
    { revert h Hh. induction props as [|[k q] r IHr]; intros h Hh.
      - simpl. repeat split; [done | constructor | lia].
      - simpl. destruct (IH q h Hh) as (Hc1 & Hv1 & Hl1).
        destruct (materialize q h) as [v h1]; simpl in *.
        destruct (IHr h1 Hc1) as (Hc2 & Hv2 & Hl2).
        match goal with |- context [let '(_, _) := ?t in _] =>
          destruct t as [vs h2] end; simpl in *.
        repeat split; [done | | lia].
        constructor; [|done]. simpl. by eapply val_ok_mono. }
    match goal with |- context [let '(_, _) := ?t in _] =>
      destruct t as [vs h1] end; simpl in *.
    destruct Hgo as (Hc & Hv & Hl). unfold alloc; simpl.
    repeat split.
    + by apply heap_closed_snoc.
    + rewrite length_app; simpl; lia.
    + rewrite length_app; simpl; lia.
  - (* array *)
    match goal with |- context [let '(_, _) := ?go 0 items h in _] =>
      assert (forall i, heap_closed (snd (go i items h)) /\
              Forall (fun kv => val_ok (snd (go i items h)) (snd kv)) (fst (go i items h)) /\
              length h <= length (snd (go i items h))) as Hgo
    end.
    { revert h Hh. induction items as [|q r IHr]; intros h Hh i.
      - simpl. repeat split; [done | constructor | lia].
      - simpl. destruct (IH q h Hh) as (Hc1 & Hv1 & Hl1).
        destruct (materialize q h) as [v h1]; simpl in *.
        destruct (IHr h1 Hc1 (S i)) as (Hc2 & Hv2 & Hl2).
        match goal with |- context [let '(_, _) := ?t in _] =>
          destruct t as [vs h2] end; simpl in *.
        repeat split; [done | | lia].
        constructor; [|done]. simpl. by eapply val_ok_mono. }
    specialize (Hgo 0).
    match goal with |- context [let '(_, _) := ?t in _] =>
      destruct t as [vs h1] end; simpl in *.
    destruct Hgo as (Hc & Hv & Hl). unfold alloc; simpl.
    repeat split.
    + by apply heap_closed_snoc.
    + rewrite length_app; simpl; lia.
    + rewrite length_app; simpl; lia.
  - (* Blob *)
    unfold alloc; simpl. repeat split.
    + apply heap_closed_snoc; [done | constructor].
    + rewrite length_app; simpl; lia.
    + rewrite length_app; simpl; lia.
  - (* ArrayBuffer *)
    unfold alloc; simpl. repeat split.
    + apply heap_closed_snoc; [done | constructor].
    + rewrite length_app; simpl; lia.
    + rewrite length_app; simpl; lia.
Qed.

Lemma agrees_below_refl (h : list obj) : agrees_below h h.
Proof. by split. Qed.

Lemma agrees_below_snoc (h H : list obj) (o : obj) :
  agrees_below h H -> agrees_below h (H ++ [o]).
Proof.
  intros [Hle Hag]. split; [rewrite length_app; lia|].
  intros a Ha. rewrite lookup_app_l by lia. by apply Hag.
Qed.

Lemma mutate_heap_agrees (h H : list obj) (m : mutation) :
  length h <= mutation_target m ->
  agrees_below h H -> agrees_below h (mutate_heap m H).
Proof.
  intros Ht [Hle Hag]. unfold mutate_heap.
  destruct (H !! mutation_target m) as [o|]; [|done].
  split; [by rewrite length_insert|].
  intros a Ha. rewrite list_lookup_insert_ne by lia. by apply Hag.
Qed.

Lemma mutations_agree (h : list obj) (ms : list mutation) (H : list obj) :
  Forall (fun m => length h <= mutation_target m) ms ->
  agrees_below h H ->
  agrees_below h (foldl (fun h m => mutate_heap m h) H ms).
Proof.
  intros Hms. revert H. induction Hms as [|m ms Hm _ IH]; intros H HH; [done|].
  simpl. apply IH. by apply mutate_heap_agrees.
Qed.

(** What is reachable from a well scoped value reads the same in every
    heap that agrees with a closed one. *)
Lemma snapshot_frame (n : nat) :
  forall (h H : list obj) (v : val),
    heap_closed h -> val_ok h v -> agrees_below h H ->
    snapshot n H v = snapshot n h v.
Proof.
  induction n as [|n IH]; intros h H v Hh Hv Hag; destruct v as [| | | | |a];
    simpl; try done.
  simpl in Hv. destruct Hag as [Hle Hag]. rewrite (Hag a Hv).
  destruct (h !! a) as [o|] eqn:Ho; [|done].
  f_equal. apply map_ext_Forall.
  eapply Forall_impl; [exact (Hh a o Ho)|].
  intros kv Hkv; simpl. f_equal. by apply IH.
Qed.

Lemma instanceofBlob_frame (h H : list obj) (d : val) :
  val_ok h d -> agrees_below h H -> instanceofBlob H d = instanceofBlob h d.
Proof.
  intros Hd [_ Hag]. destruct d as [| | | | |a]; simpl; try done.
  by rewrite (Hag a Hd).
Qed.

Lemma own_enumerable_frame (h H : list obj) (d : val) :
  val_ok h d -> agrees_below h H -> own_enumerable H d = own_enumerable h d.
Proof.
  intros Hd [_ Hag]. destruct d as [| | | | |a]; simpl; try done.
  by rewrite (Hag a Hd).
Qed.

Lemma return_view_frame (n : nat) (h H : list obj) (d : val) :
  heap_closed h -> val_ok h d -> agrees_below h H ->
  snapshot n (snd (return_view H d)) (fst (return_view H d)) = view_tree n h d.
Proof.
  intros Hh Hd Hag. unfold return_view, view_tree, spread, alloc.
  rewrite (instanceofBlob_frame h H d Hd Hag).
  destruct (instanceofBlob h d); simpl.
  - by apply snapshot_frame.
  - destruct n as [|n]; [done|]. simpl.
    rewrite list_lookup_middle by done. simpl.
    rewrite (own_enumerable_frame h H d Hd Hag).
    f_equal. apply map_ext_Forall.
    eapply Forall_impl; [exact (own_enumerable_ok h d Hh)|].
    intros kv Hkv; simpl. f_equal.
    apply snapshot_frame; [done | done | by apply agrees_below_snoc].
Qed.

Lemma new_service_wf : wf new_service.
Proof.
  split; simpl.
  - intros a o H. by rewrite lookup_nil in H.
  - intros u e H. by rewrite lookup_empty in H.
Qed.

Lemma wf_grow (s : Service) (h' : list obj) :
  wf s -> heap_closed h' -> length (heap s) <= length h' ->
  wf (mkService h' (cache s) (pendingRequests s) (loads s) (next_load s) (network s)).
Proof.
  intros [Hh Hc] Hh' Hle. split; [done|]. simpl.
  intros u e Hu. eapply val_ok_mono; [exact Hle|]. by eapply Hc.
Qed.

Lemma getData_wf (path : string) (rt : ResponseType) (s : Service) :
  wf s -> wf (snd (getData path rt s)).
Proof.
  intros Hs. unfold getData, joinOrStart.
  destruct (cache s !! normalizeLocalUrl path) as [[entry|]|]; simpl; try done.
  - destruct (decide (responseType entry = rt)).
    + destruct (return_view_closed (heap s) (data entry) (proj1 Hs)) as [Hc Hl].
      destruct (return_view (heap s) (data entry)) as [v h']; simpl in *.
      by apply wf_grow.
    + by destruct (pendingRequests s !! normalizeLocalUrl path).
  - by destruct (pendingRequests s !! normalizeLocalUrl path).
Qed.

Lemma clearCache_wf (path : option string) (s : Service) :
  wf s -> wf (clearCache path s).
Proof.
  intros [Hh Hc].
  assert (wf (mkService (heap s) ∅ ∅ (loads s) (next_load s) (network s))) as Hall.
  { split; [done|]. simpl. intros u e H. by rewrite lookup_empty in H. }
  destruct path as [p|]; simpl; [|done].
  destruct (String.eqb p EmptyString); [done|].
  split; [done|]. simpl. intros u e H.
  apply lookup_delete_Some in H as [_ H]. by eapply Hc.
Qed.

Lemma settle_wf (id : nat) (w : World) (s : Service) :
  wf s -> wf (snd (settle id w s)).
Proof.
  intros [Hh Hc]. unfold settle.
  destruct (loads s !! id) as [ld|]; [|done].
  destruct (performDataLoad w (load_localUrl ld) (load_responseType ld))
    as [made [[p src]|e]]; simpl.
  - destruct (materialize_closed p (heap s) Hh) as (Hc1 & Hv1 & Hl1).
    destruct (materialize p (heap s)) as [d h1]; simpl in *.
    destruct (return_view_closed h1 d Hc1) as [Hc2 Hl2].
    destruct (return_view h1 d) as [v h2]; simpl in *.
    split; [done|]. simpl. intros u e Hu.
    destruct (decide (load_localUrl ld = u)) as [<-|Hne].
    + rewrite lookup_insert_eq in Hu. inversion Hu; subst; simpl.
      by eapply val_ok_mono.
    + rewrite lookup_insert_ne in Hu by done.
      eapply val_ok_mono; [|by eapply Hc]. lia.
  - split; [done|]. simpl. intros u e' Hu.
    destruct (decide (load_localUrl ld = u)) as [<-|Hne].
    + by rewrite lookup_insert_eq in Hu.
    + rewrite lookup_insert_ne in Hu by done. by eapply Hc.
Qed.

Lemma assignProp_Forall (P : string * val -> Prop) (k : string) (v : val)
      (props : list (string * val)) :
  Forall P props -> P (k, v) -> Forall P (assignProp k v props).
Proof.
  intros Hprops Hkv. unfold assignProp.
  destruct (existsb (fun kv => String.eqb (fst kv) k) props).
  - induction Hprops as [|[k' v'] r Hx Hr IH]; simpl.
    + by constructor.
    + destruct (String.eqb k' k); by constructor.
  - induction Hprops as [|[k' v'] r Hx Hr IH]; simpl.
    + by constructor.
    + destruct (enumeratedBefore k k'); by repeat constructor.
Qed.

Lemma mutate_heap_closed (m : mutation) (h : list obj) :
  heap_closed h -> mutation_ok h m ->
  heap_closed (mutate_heap m h) /\ length (mutate_heap m h) = length h.
Proof.
  intros Hh Hm. unfold mutate_heap.
  destruct (h !! mutation_target m) as [o|] eqn:Ho; [|done].
  split; [|by rewrite length_insert].
  intros a o' Hlook.
  assert (Forall (fun kv => val_ok h (snd kv)) (o_props o')) as Hok.
  { destruct (decide (a = mutation_target m)) as [->|Hne].
    - rewrite list_lookup_insert_eq in Hlook by (by eapply lookup_lt_Some).
      inversion Hlook; subst o'. pose proof (Hh _ _ Ho) as Hprops.
      destruct m as [t k v|t k]; simpl.
      + by apply assignProp_Forall.
      + unfold deleteProp. apply Forall_forall. intros kv Hkv.
        apply list_elem_of_filter in Hkv as [_ Hkv].
        revert kv Hkv. by apply Forall_forall.
    - rewrite list_lookup_insert_ne in Hlook by done. by eapply Hh. }
  eapply Forall_val_ok_mono; [|exact Hok]. by rewrite length_insert.
Qed.

(** Every transition of a trace keeps the service well formed, provided
    callers store only values they hold. *)
Lemma step_wf (ev : event) (s : Service) :
  wf s ->
  (forall m, ev = CallerMutates m -> mutation_ok (heap s) m) ->
  wf (snd (step ev s)).
Proof.
  intros Hs Hev. destruct ev as [path rt|path|id w|m]; simpl.
  - pose proof (getData_wf path rt s Hs). by destruct (getData path rt s).
  - by apply clearCache_wf.
  - pose proof (settle_wf id w s Hs). by destruct (settle id w s).
  - destruct Hs as [Hh Hc].
    destruct (mutate_heap_closed m (heap s) Hh (Hev m eq_refl)) as [Hh' Hl].
    split; [done|]. simpl. intros u e Hu.
    eapply val_ok_mono; [|by eapply Hc]. lia.
Qed.

(** Either way the copy is the last object of the heap, everything below
    it is closed, and the cache holds the value it was copied from. *)
Lemma handed_copy_shape (u : string) (c : nat) (s1 : Service) :
  handed_copy u c s1 ->
  exists h o e,
    heap s1 = h ++ [o] /\ c = length h /\ heap_closed h /\
    cache s1 !! u = Some (Some e) /\ responseType e = json /\ val_ok h (data e).
Proof.
  intros [s path e [Hh Hc] Hp Hu Hne Hget | s id w x d [Hh Hc] Hld Hs Ho Hj Hne].
  - subst u. unfold getData in Hget. rewrite Hu in Hget.
    destruct (decide (responseType e = json)) as [Hrt|Hrt].
    + unfold return_view, spread, alloc in Hget.
      destruct (instanceofBlob (heap s) (data e)).
      * inversion Hget; subst. congruence.
      * inversion Hget; subst; simpl.
        eexists _, _, e. repeat split; try done. by eapply Hc.
    + unfold joinOrStart in Hget.
      by destruct (pendingRequests s !! normalizeLocalUrl path).
  - unfold settle in Hs. rewrite Hld in Hs. simpl in Hs.
    destruct (performDataLoad w u json) as [made [[p src]|err]].
    + destruct (materialize_closed p (heap s) Hh) as (Hc1 & Hv1 & Hl1).
      destruct (materialize p (heap s)) as [d' h1]; simpl in *.
      unfold return_view, spread, alloc in Hs.
      destruct (instanceofBlob h1 d').
      * inversion Hs; subst; simpl in *. congruence.
      * inversion Hs; subst; simpl in *. inversion Ho; subst.
        eexists _, _, _. repeat split; try done.
        -- apply lookup_insert_eq.
        -- done.
        -- done.
    + inversion Hs; subst. discriminate.
Qed.

(** A cache hit reads its answer off the stored value alone. *)
Lemma getData_hit_view (path : string) (s : Service) (e : DataCacheEntry)
      (h : list obj) (n : nat) :
  cache s !! normalizeLocalUrl path = Some (Some e) ->
  responseType e = json ->
  heap_closed h -> val_ok h (data e) -> agrees_below h (heap s) ->
  exists v, fst (getData path json s) = Fulfilled v /\
            snapshot n (heap (snd (getData path json s))) v = view_tree n h (data e).
Proof.
  intros Hc Hrt Hh Hd Hag.
  rewrite (getData_hit path json s e Hc Hrt). simpl.
  eexists; split; [done|]. by apply return_view_frame.
Qed.

(** C4, as stated, fails, in two ways.  The copy handed to the owner
    shares its nested objects with the cache: after [copy.a.b = 2] the
    next [getData] returns a document whose [a.b] is 2 instead of 1.  And
    the caller that joined the pending request was handed the stored
    object itself: after [doc.a = 7] on it the next [getData] returns a
    document whose [a] is 7. *)
Lemma C4_mutations_reach_the_cache :
  fst (run [CallGetData "a.json" json;
            CallGetData "a.json" json;
            LoadSettles 0 nested_host] new_service) =
    [Returned (Started 0); Returned (Joined 0);
     Settled (Some (mkSettlement (Ok (VRef 2)) (Ok (VRef 1))))] /\
  own_enumerable (heap nested_served) (VRef 2) = [("a", VRef 0)] /\
  snapshot 2 (heap (snd (getData "a.json" json nested_served)))
             (VRef 3) =
    TObject PlainObject EmptyString
            [("a", TObject PlainObject EmptyString [("b", TNumber 1)])] /\
  getData "a.json" json (mutate [SetProp 0 "b" (VNumber 2)] nested_served) =
    (Fulfilled (VRef 3),
     snd (getData "a.json" json (mutate [SetProp 0 "b" (VNumber 2)] nested_served))) /\
  snapshot 2 (heap (snd (getData "a.json" json
                           (mutate [SetProp 0 "b" (VNumber 2)] nested_served))))
             (VRef 3) =
    TObject PlainObject EmptyString
            [("a", TObject PlainObject EmptyString [("b", TNumber 2)])] /\
  snapshot 2 (heap (snd (getData "a.json" json
                           (mutate [SetProp 1 "a" (VNumber 7)] nested_served))))
             (VRef 3) =
    TObject PlainObject EmptyString [("a", TNumber 7)].
Proof. vm_compute. repeat split. Qed.

(** C4 (amended): for a structured request, when a caller was handed a
    copy of the stored value, by a cache hit or as the owner of the load
    that fetched it, then whatever that caller assigns to or deletes from
    the properties of the object it was handed, the next [getData] for
    the locator returns a value with the same content, to any depth, as
    it would have returned without the mutation. *)
Theorem C4_copy_protects_top_level
        (u : string) (c : nat) (s1 : Service) (ms : list mutation) (path : string) :
  handed_copy u c s1 ->
  Forall (fun m => mutation_target m = c) ms ->
  normalizeLocalUrl path = u ->
  exists v v',
    fst (getData path json (mutate ms s1)) = Fulfilled v /\
    fst (getData path json s1) = Fulfilled v' /\
    forall n,
      snapshot n (heap (snd (getData path json (mutate ms s1)))) v =
      snapshot n (heap (snd (getData path json s1))) v'.
Proof.
  intros Hhanded Hms Hp.
  destruct (handed_copy_shape u c s1 Hhanded) as (h & o & e & Hheap & -> & Hh & Hc & Hrt & Hd).
  subst u.
  assert (agrees_below h (heap s1)) as Hag1.
  { rewrite Hheap. apply agrees_below_snoc, agrees_below_refl. }
  assert (agrees_below h (heap (mutate ms s1))) as Hag2.
  { simpl. apply mutations_agree; [|done].
    eapply Forall_impl; [exact Hms|]. simpl. intros m ->. lia. }
  assert (forall n, exists v,
             fst (getData path json s1) = Fulfilled v /\
             snapshot n (heap (snd (getData path json s1))) v = view_tree n h (data e)) as H1.
  { intros n. by apply getData_hit_view. }
  assert (forall n, exists v,
             fst (getData path json (mutate ms s1)) = Fulfilled v /\
             snapshot n (heap (snd (getData path json (mutate ms s1)))) v =
               view_tree n h (data e)) as H2.
  { intros n. by apply getData_hit_view. }
  destruct (H1 0) as (v' & Hv' & _). destruct (H2 0) as (v & Hv & _).
  exists v, v'. repeat split; try done.
  intros n.
  destruct (H1 n) as (w' & Hw' & Hs'). destruct (H2 n) as (w & Hw & Hs).
  rewrite Hv' in Hw'. rewrite Hv in Hw. inversion Hw'; inversion Hw; subst.
  by rewrite Hs, Hs'.
Qed.

Lemma C4_copy_protects_top_level_witness :
  exists v v',
    fst (getData "a.json" json
           (mutate [SetProp 2 "a" (VNumber 7); DeleteProp 2 "a"] nested_served)) =
      Fulfilled v /\
    fst (getData "a.json" json nested_served) = Fulfilled v' /\
    forall n,
      snapshot n (heap (snd (getData "a.json" json
                               (mutate [SetProp 2 "a" (VNumber 7); DeleteProp 2 "a"]
                                       nested_served)))) v =
      snapshot n (heap (snd (getData "a.json" json nested_served))) v'.
Proof.
  apply (C4_copy_protects_top_level "/assets/a.json" 2 nested_served
                                    [SetProp 2 "a" (VNumber 7); DeleteProp 2 "a"] "a.json").
  - apply (by_fetch "/assets/a.json" 2 nested_served
                    (snd (getData "a.json" json (snd (getData "a.json" json new_service))))
                    0 nested_host
                    (mkSettlement (Ok (VRef 2)) (Ok (VRef 1))) (VRef 1)).
    + apply getData_wf, getData_wf, new_service_wf.
    + reflexivity.
    + reflexivity.
    + reflexivity.
    + reflexivity.
    + discriminate.
  - repeat constructor.
  - reflexivity.
Defined.

(** * Further properties of the service *)

(** X1: every locator starts with the separator, and normalising twice
    is normalising once. *)
Theorem X1_normalizeLocalUrl_idempotent (endpoint : string) :
  startsWith (normalizeLocalUrl endpoint) "/" = true /\
  normalizeLocalUrl (normalizeLocalUrl endpoint) = normalizeLocalUrl endpoint.
Proof.
  split; [apply normalizeLocalUrl_leading_slash|].
  unfold normalizeLocalUrl at 1. by rewrite normalizeLocalUrl_leading_slash.
Qed.

(** X2: the cache holds one entry per locator, whatever its kind.  A
    request for a cached locator under another kind, with nothing
    pending, begins a load of its own; when that load succeeds its entry
    replaces the old one, so that a request under the old kind has to
    fetch again. *)
Theorem X2_kind_mismatch_refetches_and_evicts
        (s : Service) (path : string) (k : ResponseType) (e : DataCacheEntry)
        (w : World) (made : list attempt) (p : payload) (src : Source) :
  cache s !! normalizeLocalUrl path = Some (Some e) ->
  responseType e <> k ->
  pendingRequests s !! normalizeLocalUrl path = None ->
  performDataLoad w (normalizeLocalUrl path) k = (made, Ok (p, src)) ->
  fst (getData path k s) = Started (next_load s) /\
  loads (snd (getData path k s)) !! next_load s = Some (mkLoad (normalizeLocalUrl path) k) /\
  (exists e',
      cache (snd (settle (next_load s) w (snd (getData path k s))))
        !! normalizeLocalUrl path = Some (Some e') /\
      responseType e' = k /\ source e' = src) /\
  fst (getData path (responseType e)
         (snd (settle (next_load s) w (snd (getData path k s))))) =
    Started (S (next_load s)).
Proof.
  intros Hc Hne Hp Hload.
  rewrite (getData_mismatch path k s e Hc Hne).
  rewrite (joinOrStart_idle _ _ _ Hp). simpl.
  split; [done|]. split; [apply lookup_insert_eq|].
  match goal with |- context [settle _ _ ?t] => set (s1 := t) end.
  assert (loads s1 !! next_load s = Some (mkLoad (normalizeLocalUrl path) k)) as Hld.
  { apply lookup_insert_eq. }
  rewrite (settle_success _ _ _ _ _ _ _ Hld Hload). simpl.
  split.
  - eexists. split; [apply lookup_insert_eq|]. done.
  - match goal with |- context [getData _ _ ?t] => set (s2 := t) end.
    rewrite (getData_mismatch path (responseType e) s2
               (mkEntry (fst (materialize p (heap s))) (Date_now w) src k)).
    + rewrite joinOrStart_idle; [done|]. simpl. apply lookup_delete_eq.
    + simpl. apply lookup_insert_eq.
    + simpl. congruence.
Qed.

Lemma X2_kind_mismatch_refetches_and_evicts_witness :
  fst (getData "a.json" text
         (snd (settle 0 doc_host (snd (getData "a.json" json new_service))))) =
    Started 1.
Proof.
  pose proof (X2_kind_mismatch_refetches_and_evicts
                (snd (settle 0 doc_host (snd (getData "a.json" json new_service))))
                "a.json" text (mkEntry (VRef 0) 0 local json)
                (serving "/assets/a.json" (PString "{}"))
                [LocalAttempt "/assets/a.json" text] (PString "{}") local
                eq_refl) as H.
  apply H; [discriminate | reflexivity | reflexivity].
Defined.

(** X3: an override that is not an http(s) URL never reaches the proxy:
    the external fetcher throws before sending anything, and the load
    sequence consists of the local fetch alone. *)
Theorem X3_non_http_override_is_not_fetched
        (w : World) (localUrl externalUrl : string) (rt : ResponseType) :
  getExternalUrl w localUrl = Some externalUrl ->
  startsWith externalUrl "http://" = false ->
  startsWith externalUrl "https://" = false ->
  fst (fetchExternalData w externalUrl rt) = [] /\
  (exists message, snd (fetchExternalData w externalUrl rt) = Throw (PlainError message)) /\
  fst (performDataLoad w localUrl rt) = [LocalAttempt localUrl rt].
Proof.
  intros Hext H1 H2.
  assert (fst (fetchExternalData w externalUrl rt) = [] /\
          exists message, snd (fetchExternalData w externalUrl rt) = Throw (PlainError message))
    as [Hmade [message Hthrow]].
  { unfold fetchExternalData.
    destruct (String.eqb externalUrl EmptyString); [by eauto|].
    destruct (trimIsEmpty externalUrl); [by eauto|].
    rewrite H1, H2. simpl. by eauto. }
  repeat split; [done | by eauto |].
  rewrite (performDataLoad_external_failed w localUrl externalUrl rt Hext).
  - by rewrite Hmade.
  - unfold externalFailed. by rewrite Hthrow.
Qed.

Lemma X3_non_http_override_is_not_fetched_witness :
  fst (performDataLoad override_misrouted "/assets/data/x.json" json) =
    [LocalAttempt "/assets/data/x.json" json].
Proof.
  apply (X3_non_http_override_is_not_fetched
           override_misrouted "/assets/data/x.json" "assets/other.json" json
           eq_refl eq_refl eq_refl).
Defined.

(** * The external fetcher *)



(** X5: for the text and structured kinds the proxy is always asked for
    text, and a request that succeeds had an answer that decodes to a
    text that is not empty; a text request yields exactly that text. *)
Theorem X5_external_text_is_never_empty
        (w : World) (url : string) (rt : ResponseType)
        (made : list attempt) (p : payload) :
  rt = text \/ rt = json ->
  fetchExternalData w url rt = (made, Ok p) ->
  made = [ExternalAttempt (proxyUrlFor w url) text] /\
  exists rawResponse,
    http_get w (proxyUrlFor w url) text = Ok rawResponse /\
    textOfRaw w rawResponse <> EmptyString /\
    (rt = text -> p = PString (textOfRaw w rawResponse)).
Proof.
  intros Hrt. unfold fetchExternalData.
  destruct (String.eqb url EmptyString); [done|].
  destruct (trimIsEmpty url); [done|].
  destruct (negb (startsWith url "http://") && negb (startsWith url "https://")); [done|].
  destruct Hrt as [-> | ->];
    (destruct (http_get w (proxyUrlFor w url) text) as [raw|err]; [|done];
     destruct (String.eqb (textOfRaw w raw) EmptyString) eqn:E; [done|];
     intros [= <- <-]; split; [done|]; exists raw; repeat split; try done;
     by apply String.eqb_neq in E).
Qed.

Lemma X5_external_text_is_never_empty_witness :
  exists rawResponse,
    http_get (override_answers "plain") (proxyUrlFor (override_answers "plain") "https://ext/x.json") text
      = Ok rawResponse /\
    textOfRaw (override_answers "plain") rawResponse <> EmptyString /\
    (text = text -> PString "plain" = PString (textOfRaw (override_answers "plain") rawResponse)).
Proof.
  apply (X5_external_text_is_never_empty
           (override_answers "plain") "https://ext/x.json" text
           [ExternalAttempt "http://localhost:3001/proxy?url=https://ext/x.json" text]
           (PString "plain")).
  - by left.
  - reflexivity.
Defined.

(** X6: whatever the kind of a text or structured request, an answer of
    the proxy that decodes to the empty text makes the external fetcher
    throw "Empty response from proxy server". *)
Theorem X6_external_empty_answer_is_an_error
        (w : World) (url : string) (rt : ResponseType) (rawResponse : payload) :
  startsWith url "http://" || startsWith url "https://" = true ->
  rt = text \/ rt = json ->
  http_get w (proxyUrlFor w url) text = Ok rawResponse ->
  textOfRaw w rawResponse = EmptyString ->
  fetchExternalData w url rt =
    ([ExternalAttempt (proxyUrlFor w url) text],
     Throw (PlainError "Empty response from proxy server")).
Proof.
  intros Hhttp Hrt Hget Hempty. rewrite (fetchExternalData_http w url rt Hhttp).
  destruct Hrt as [-> | ->]; by rewrite Hget, Hempty.
Qed.

Lemma X6_external_empty_answer_is_an_error_witness :
  fetchExternalData (override_answers EmptyString) "https://ext/x.json" json =
    ([ExternalAttempt "http://localhost:3001/proxy?url=https://ext/x.json" text],
     Throw (PlainError "Empty response from proxy server")).
Proof.
  apply (X6_external_empty_answer_is_an_error
           (override_answers EmptyString) "https://ext/x.json" json (PString EmptyString)
           eq_refl).
  - by right.
  - reflexivity.
  - reflexivity.
Defined.

(** X7: a structured request never fails on a parse error of the
    external answer.  When the override is an http(s) URL and the proxy
    answers with a text that is not empty, not JSON and not HTML, the
    load settles with that raw text, tagged as external, and the local
    source is not consulted. *)
Theorem X7_unparsable_external_answer_is_returned_as_text
        (w : World) (localUrl externalUrl : string) (rawResponse : payload) :
  getExternalUrl w localUrl = Some externalUrl ->
  startsWith externalUrl "http://" || startsWith externalUrl "https://" = true ->
  http_get w (proxyUrlFor w externalUrl) text = Ok rawResponse ->
  textOfRaw w rawResponse <> EmptyString ->
  JSON_parse w (textOfRaw w rawResponse) = None ->
  includes (textOfRaw w rawResponse) "<html" = false ->
  includes (textOfRaw w rawResponse) "<HTML" = false ->
  performDataLoad w localUrl json =
    ([ExternalAttempt (proxyUrlFor w externalUrl) text],
     Ok (PString (textOfRaw w rawResponse), external)).
Proof.
  intros Hext Hhttp Hget Hne Hparse Hh1 Hh2.
  unfold performDataLoad. rewrite Hext.
  rewrite (fetchExternalData_http w externalUrl json Hhttp), Hget.
  apply String.eqb_neq in Hne. rewrite Hne.
  unfold parseOrRecover. by rewrite Hparse, Hh1, Hh2.
Qed.

Lemma X7_unparsable_external_answer_is_returned_as_text_witness :
  performDataLoad (override_answers "oops") "/assets/data/x.json" json =
    ([ExternalAttempt "http://localhost:3001/proxy?url=https://ext/x.json" text],
     Ok (PString "oops", external)).
Proof.
  apply (X7_unparsable_external_answer_is_returned_as_text
           (override_answers "oops") "/assets/data/x.json" "https://ext/x.json"
           (PString "oops") eq_refl eq_refl eq_refl);
    [discriminate | reflexivity | reflexivity | reflexivity].
Defined.

(** * The brace match of the recovery heuristic *)

Lemma fromFirstBrace_spec (s t : string) :
  fromFirstBrace s = Some t ->
  exists a, s = a +:+ t /\ includes a "{" = false /\ startsWith t "{" = true.
Proof.
  revert t. induction s as [|c s IH]; intros t; simpl; [done|].
  destruct (Ascii.eqb c "{") eqn:Hc.
  - intros [= <-]. exists EmptyString. simpl. by rewrite Hc.
  - intros Ht. destruct (IH t Ht) as (a & -> & Ha & Hs).
    exists (String c a). simpl. by rewrite Hc, Ha.
Qed.

Lemma toLastBrace_spec (t m : string) :
  toLastBrace t = Some m ->
  exists m' c, m = m' +:+ "}" /\ t = m +:+ c /\ includes c "}" = false.
Proof.
  revert m. induction t as [|d t IH]; intros m; simpl; [done|].
  destruct (toLastBrace t) as [m0|] eqn:Ht.
  - intros [= <-]. destruct (IH m0 eq_refl) as (m' & c & -> & -> & Hc).
    exists (String d m'), c. by simpl.
  - destruct (Ascii.eqb d "}") eqn:Hd; [|done].
    intros [= <-]. apply Ascii.eqb_eq in Hd as ->.
    exists EmptyString, t. repeat split.
    clear IH. induction t as [|e t IHt]; simpl in *; [done|].
    destruct (toLastBrace t) as [m0|]; [done|].
    destruct (Ascii.eqb e "}"); [done|]. by rewrite IHt.
Qed.

Lemma toLastBrace_none (t : string) :
  toLastBrace t = None -> includes t "}" = false.
Proof.
  induction t as [|e t IH]; simpl; [done|].
  destruct (toLastBrace t) as [m0|]; [done|].
  destruct (Ascii.eqb e "}"); [done|]. by intros _; rewrite IH.
Qed.

(** X8: the brace match [/\{[\s\S]*\}/] of the recovery heuristic.  When
    it matches, the match runs from the first opening brace of the text
    to its last closing brace: nothing before it contains an opening
    brace, nothing after it a closing one.  When it does not match, the
    text has no opening brace, or no closing brace after the first
    opening one: what follows the part without opening brace begins with
    an opening brace and contains no closing one. *)
Theorem X8_matchBraces_is_first_to_last (s : string) :
  match matchBraces s with
  | Some m =>
      exists a m' c,
        s = a +:+ m +:+ c /\ m = "{" +:+ m' +:+ "}" /\
        includes a "{" = false /\ includes c "}" = false
  | None =>
      includes s "{" = false \/
      exists a t,
        s = a +:+ t /\ includes a "{" = false /\
        startsWith t "{" = true /\ includes t "}" = false
  end.
Proof.
  unfold matchBraces. destruct (fromFirstBrace s) as [t|] eqn:Hs.
  - destruct (fromFirstBrace_spec s t Hs) as (a & -> & Ha & Ht).
    destruct (toLastBrace t) as [m|] eqn:Hm.
    + destruct (toLastBrace_spec t m Hm) as (m' & c & -> & -> & Hc).
      destruct m' as [|d m'].
      * (* the match is the closing brace alone: impossible *)
        simpl in Ht. discriminate.
      * simpl in Ht. apply andb_true_iff in Ht as [Hd _].
        apply Ascii.eqb_eq in Hd as ->.
        exists a, m', c. by repeat split.
    + right. exists a, t.
      split; [done|]. split; [done|]. split; [done|]. by apply toLastBrace_none.
  - left. clear -Hs. induction s as [|c s IH]; simpl in *; [done|].
    destruct (Ascii.eqb c "{"); [done|]. by rewrite IH.
Qed.

(** X9: recovery of JSON embedded in HTML.  When the text the proxy
    answered is not accepted as a JSON object or array, looks like an
    HTML document and has a brace match that parses, the structured
    request settles with the value parsed from the match. *)
Theorem X9_html_embedded_json_is_recovered
        (w : World) (url : string) (rawResponse : payload) (m : string) (extracted : payload) :
  startsWith url "http://" || startsWith url "https://" = true ->
  http_get w (proxyUrlFor w url) text = Ok rawResponse ->
  textOfRaw w rawResponse <> EmptyString ->
  match JSON_parse w (textOfRaw w rawResponse) with
  | Some jsonData => truthy jsonData && typeofObject jsonData = false
  | None => True
  end ->
  includes (textOfRaw w rawResponse) "<html" || includes (textOfRaw w rawResponse) "<HTML" = true ->
  matchBraces (textOfRaw w rawResponse) = Some m ->
  JSON_parse w m = Some extracted ->
  fetchExternalData w url json =
    ([ExternalAttempt (proxyUrlFor w url) text], Ok extracted).
Proof.
  intros Hhttp Hget Hne Hparse Hhtml Hm Hex.
  rewrite (fetchExternalData_http w url json Hhttp), Hget.
  apply String.eqb_neq in Hne. rewrite Hne.
  unfold parseOrRecover. rewrite Hhtml, Hm, Hex.
  destruct (JSON_parse w (textOfRaw w rawResponse)) as [j|]; [|done].
  by rewrite Hparse.
Qed.

Lemma X9_html_embedded_json_is_recovered_witness :
  fetchExternalData (override_answers "<html><body>{c:3}</body></html>")
                    "https://ext/x.json" json =
    ([ExternalAttempt "http://localhost:3001/proxy?url=https://ext/x.json" text],
     Ok (PObject [("c", PNumber 3)])).
Proof.
  apply (X9_html_embedded_json_is_recovered
           (override_answers "<html><body>{c:3}</body></html>") "https://ext/x.json"
           (PString "<html><body>{c:3}</body></html>") "{c:3}" (PObject [("c", PNumber 3)])
           eq_refl eq_refl);
    [discriminate | exact I | reflexivity | reflexivity | reflexivity].
Defined.

(** * The source resolver *)

Lemma truthy_string (s : string) : truthy (PString s) = true <-> s <> EmptyString.
Proof.
  simpl. rewrite negb_true_iff. apply String.eqb_neq.
Qed.

Lemma override_choice (o1 o2 : member) (s : string) :
  match (if member_truthy o1 then o1 else o2) with
  | Own (PString t) =>
      if member_truthy (if member_truthy o1 then o1 else o2) then Some t else None
  | _ => None
  end = Some s <->
  s <> EmptyString /\
  (o1 = Own (PString s) \/ (member_truthy o1 = false /\ o2 = Own (PString s))).
Proof.
  destruct (member_truthy o1) eqn:H1.
  - split.
    + destruct o1 as [[| | | |t| | | |]| |]; try done. rewrite H1. intros [= ->].
      split; [by apply truthy_string | by left].
    + intros [Hs [-> | [Hf _]]]; [by rewrite H1 | congruence].
  - split.
    + destruct o2 as [[| | | |t| | | |]| |]; try done.
      destruct (member_truthy (Own (PString t))) eqn:H2; [|done]. intros [= ->].
      split; [by apply truthy_string | by right].
    + intros [Hs [-> | [_ ->]]].
      * apply truthy_string in Hs.
        change (truthy (PString s) = false) in H1. congruence.
      * apply truthy_string in Hs.
        change (member_truthy (Own (PString s))) with (truthy (PString s)).
        by rewrite Hs.
Qed.

(** X10: which entries of the override table count.  [getExternalUrl]
    yields [s] exactly when a table is loaded, [s] is a string that is
    not empty, and [s] is an own entry of the table under the locator
    itself, or under its alternate spelling while what is found under
    the locator itself is absent or falsy.  What is found under the
    locator counts even when it is not an entry of the table: a truthy
    entry that is not a string hides a string under the alternate
    spelling, and so does a member inherited from [Object.prototype], so
    that a locator that is the name of such a member and has no entry of
    its own never has an override. *)
Theorem X10_getExternalUrl_characterised (w : World) (localUrl s : string) :
  (getExternalUrl w localUrl = Some s <->
   exists cfg,
     outreachConfig w = Some cfg /\ s <> EmptyString /\
     (configLookup cfg localUrl = Own (PString s) \/
      (member_truthy (configLookup cfg localUrl) = false /\
       configLookup cfg (alternateKey localUrl) = Own (PString s)))) /\
  (forall cfg,
      outreachConfig w = Some cfg ->
      cfg !! localUrl = None ->
      In localUrl Object_prototype ->
      getExternalUrl w localUrl = None).
Proof.
  split.
  - unfold getExternalUrl, alternateKey.
    destruct (outreachConfig w) as [cfg|]; [|split; [done | by intros (cfg & ? & _)]].
    cbv zeta. rewrite override_choice. split.
    + intros [Hs Hor]. by exists cfg.
    + by intros (cfg' & [= <-] & Hs & Hor).
  - intros cfg Hw Hown Hin. unfold getExternalUrl. rewrite Hw. cbv zeta.
    assert (configLookup cfg localUrl = Inherited localUrl) as ->; [|done].
    unfold configLookup. rewrite Hown.
    destruct (existsb (String.eqb localUrl) Object_prototype) eqn:E; [done|].
    exfalso. apply not_true_iff_false in E. apply E.
    apply existsb_exists. exists localUrl. split; [done|]. apply String.eqb_refl.
Qed.

Lemma X10_getExternalUrl_characterised_witness :
  getExternalUrl override_unslashed "/assets/data/x.json" = Some "https://ext/x.json" /\
  getExternalUrl override_shadowed "constructor" = None.
Proof.
  split.
  - apply (X10_getExternalUrl_characterised override_unslashed "/assets/data/x.json"
                                            "https://ext/x.json").
    eexists. split; [reflexivity|]. split; [discriminate|].
    right. split; reflexivity.
  - apply (proj2 (X10_getExternalUrl_characterised override_shadowed "constructor"
                                                   EmptyString)
                 {[ "/constructor" := PString "https://ext/c.json" ]});
      [reflexivity | reflexivity | simpl; tauto].
Defined.

(** * The outcome of a load sequence *)

Lemma string_app_assoc (a b c : string) : a +:+ b +:+ c = (a +:+ b) +:+ c.
Proof.
  induction a as [|x a IH]; [reflexivity|].
  change (String x (a +:+ b +:+ c) = String x ((a +:+ b) +:+ c)). by f_equal.
Qed.

(** X11: what a load sequence settles with.  A success carries a value
    that is neither [null] nor [undefined], tagged [external] only if an
    override exists for the locator.  A failure is always a
    [DataLoadError] named after its class and carrying the locator; its
    cause, when it has one, is the error of the local attempt (an error
    of the external attempt is never surfaced). *)
Theorem X11_performDataLoad_outcome (w : World) (localUrl : string) (rt : ResponseType) :
  match snd (performDataLoad w localUrl rt) with
  | Ok (p, src) =>
      notNullish p = true /\
      (src = external -> exists externalUrl, getExternalUrl w localUrl = Some externalUrl) /\
      (src = local -> http_get w localUrl rt = Ok p)
  | Throw e =>
      exists message cause,
        e = DataLoadError message "DataLoadError" localUrl cause /\
        startsWith message ("Failed to load data for " +:+ localUrl +:+ ": ") = true /\
        (forall c, cause = Some c ->
                   instanceofError c = true /\
                   (http_get w localUrl rt = Throw c \/
                    c = PlainError "Local data is null or undefined"))
  end.
Proof.
  assert (forall t, startsWith (("Failed to load data for " +:+ localUrl +:+ ": ") +:+ t)
                               ("Failed to load data for " +:+ localUrl +:+ ": ") = true) as Hmsg.
  { intros t. apply startsWith_app. }
  assert (forall t, "Failed to load data for " +:+ localUrl +:+ ": " +:+ t =
                    ("Failed to load data for " +:+ localUrl +:+ ": ") +:+ t) as Hassoc.
  { intros t. by rewrite !string_app_assoc. }
  assert (forall made,
             match snd (made ++ [LocalAttempt localUrl rt],
                        match http_get w localUrl rt with
                        | Ok data =>
                            if notNullish data then Ok (data, local)
                            else
                              Throw (DataLoadError
                                       ("Failed to load data for " +:+ localUrl +:+ ": " +:+
                                        "Local data is null or undefined")
                                       "DataLoadError" localUrl
                                       (Some (PlainError "Local data is null or undefined")))
                        | Throw error =>
                            Throw (DataLoadError
                                     ("Failed to load data for " +:+ localUrl +:+ ": " +:+
                                      (if instanceofError error then error_message error
                                       else "Unknown error"))
                                     "DataLoadError" localUrl
                                     (if instanceofError error then Some error else None))
                        end) with
             | Ok (p, src) =>
                 notNullish p = true /\
                 (src = external -> exists externalUrl, getExternalUrl w localUrl = Some externalUrl) /\
                 (src = local -> http_get w localUrl rt = Ok p)
             | Throw e =>
                 exists message cause,
                   e = DataLoadError message "DataLoadError" localUrl cause /\
                   startsWith message ("Failed to load data for " +:+ localUrl +:+ ": ") = true /\
                   (forall c, cause = Some c ->
                              instanceofError c = true /\
                              (http_get w localUrl rt = Throw c \/
                               c = PlainError "Local data is null or undefined"))
             end) as Hlocal.
  { intros made. simpl.
    destruct (http_get w localUrl rt) as [d|err].
    - destruct (notNullish d) eqn:Hd.
      + repeat split; done.
      + eexists _, _. split; [done|]. split; [rewrite Hassoc; apply Hmsg|].
        intros c [= <-]. split; [done | by right].
    - eexists _, _. split; [done|]. split; [rewrite Hassoc; apply Hmsg|].
      intros c. destruct (instanceofError err) eqn:He; [|done].
      intros [= <-]. split; [done | by left]. }
  unfold performDataLoad.
  destruct (getExternalUrl w localUrl) as [ext|] eqn:Hext; [|apply Hlocal].
  destruct (fetchExternalData w ext rt) as [made [d|err]]; [|apply Hlocal].
  destruct (notNullish d) eqn:Hd; [|apply Hlocal].
  simpl. repeat split; [done | by eauto | done].
Qed.

(** * Clearing and counting *)

(** X12: [clearCache(p)] for a path that is not empty touches the entry
    and the pending record of the locator of [p] and nothing else: every
    other locator keeps its entry and its pending record, and the loads
    in flight go on. *)
Theorem X12_clearCache_touches_one_locator (p u : string) (s : Service) :
  p <> EmptyString ->
  u <> normalizeLocalUrl p ->
  cache (clearCache (Some p) s) !! u = cache s !! u /\
  pendingRequests (clearCache (Some p) s) !! u = pendingRequests s !! u /\
  loads (clearCache (Some p) s) = loads s /\
  cache (clearCache (Some p) s) !! normalizeLocalUrl p = None /\
  pendingRequests (clearCache (Some p) s) !! normalizeLocalUrl p = None.
Proof.
  intros Hp Hu. unfold clearCache.
  apply String.eqb_neq in Hp. rewrite Hp. simpl.
  rewrite !lookup_delete_ne by done. by rewrite !lookup_delete_eq.
Qed.

Lemma X12_clearCache_touches_one_locator_witness :
  cache (clearCache (Some "b.json")
           (snd (settle 0 doc_host (snd (getData "a.json" json new_service)))))
    !! "/assets/a.json" =
  cache (snd (settle 0 doc_host (snd (getData "a.json" json new_service))))
    !! "/assets/a.json".
Proof.
  apply (X12_clearCache_touches_one_locator
           "b.json" "/assets/a.json"
           (snd (settle 0 doc_host (snd (getData "a.json" json new_service)))));
    discriminate.
Defined.

(** X13: [clearCache('')] is [clearCache()]: an empty path empties the
    cache and the pending table altogether, after which the statistics
    read zero entries and zero pending requests. *)
Theorem X13_clearCache_empty_path_clears_everything (s : Service) :
  clearCache (Some EmptyString) s = clearCache None s /\
  getCacheStats (clearCache None s) = (0, 0) /\
  forall u, cache (clearCache (Some EmptyString) s) !! u = None /\
            pendingRequests (clearCache (Some EmptyString) s) !! u = None.
Proof.
  repeat split; simpl; by rewrite ?lookup_empty.
Qed.

(** X14: the synchronous part of [getData] never changes the number of
    cache entries, and raises the number of pending requests by one
    exactly when it begins a load. *)
Theorem X14_getData_and_the_statistics (path : string) (rt : ResponseType) (s : Service) :
  fst (getCacheStats (snd (getData path rt s))) = fst (getCacheStats s) /\
  snd (getCacheStats (snd (getData path rt s))) =
    match fst (getData path rt s) with
    | Started _ => S (snd (getCacheStats s))
    | _ => snd (getCacheStats s)
    end.
Proof.
  unfold getCacheStats. simpl. rewrite getData_cache. split; [done|].
  unfold getData, joinOrStart.
  destruct (cache s !! normalizeLocalUrl path) as [[entry|]|]; simpl; try done.
  - destruct (decide (responseType entry = rt)).
    + by destruct (return_view (heap s) (data entry)).
    + destruct (pendingRequests s !! normalizeLocalUrl path) eqn:Hp; simpl; [done|].
      by apply map_size_insert_None.
  - destruct (pendingRequests s !! normalizeLocalUrl path) eqn:Hp; simpl; [done|].
    by apply map_size_insert_None.
Qed.

(** X15: when a load settles, its locator gets an entry whether the load
    succeeded or failed: the entry count grows by one if the locator had
    no entry and stays as it is otherwise, so recorded failures are
    counted like cached values. *)
Theorem X15_settle_and_the_statistics (id : nat) (w : World) (s : Service) (ld : Load) :
  loads s !! id = Some ld ->
  is_Some (cache (snd (settle id w s)) !! load_localUrl ld) /\
  fst (getCacheStats (snd (settle id w s))) =
    match cache s !! load_localUrl ld with
    | Some _ => fst (getCacheStats s)
    | None => S (fst (getCacheStats s))
    end.
Proof.
  intros Hld. unfold settle. rewrite Hld.
  assert (forall x : option DataCacheEntry,
             size (<[load_localUrl ld := x]> (cache s)) =
               match cache s !! load_localUrl ld with
               | Some _ => size (cache s)
               | None => S (size (cache s))
               end) as Hsize.
  { intros x. destruct (cache s !! load_localUrl ld) as [y|] eqn:Hc.
    - by eapply map_size_insert_Some.
    - by apply map_size_insert_None. }
  destruct (performDataLoad w (load_localUrl ld) (load_responseType ld))
    as [made [[p src]|e]]; simpl.
  - destruct (materialize p (heap s)) as [d h1].
    destruct (return_view h1 d) as [v h2]; simpl.
    split; [rewrite lookup_insert_eq; eauto | apply Hsize].
  - split; [rewrite lookup_insert_eq; eauto | apply Hsize].
Qed.

Lemma X15_settle_and_the_statistics_witness :
  fst (getCacheStats (snd (settle 0 offline (snd (getData "a.bin" json new_service))))) = 1.
Proof.
  pose proof (X15_settle_and_the_statistics
                0 offline (snd (getData "a.bin" json new_service))
                (mkLoad "/assets/a.bin" json) eq_refl) as [_ H].
  exact H.
Defined.

(** * Invariants of the two tables *)

(** X16: in every state the service can reach, a locator that has a
    pending record has no failure marker, and the record names a load
    sequence that is in flight for that very locator. *)
Theorem X16_pending_records_are_sound (s : Service) (u : string) (id : nat) :
  reachable s ->
  pendingRequests s !! u = Some id ->
  cache s !! u <> Some None /\
  (exists k, loads s !! id = Some (mkLoad u k)) /\
  id < next_load s.
Proof.
  intros Hr Hp. apply reachable_consistent in Hr as [H1 H2 H3].
  destruct (H2 u id Hp) as [k Hk].
  repeat split; [by eapply H1 | by eauto | by eapply H3].
Qed.

Lemma X16_pending_records_are_sound_witness :
  cache text_pending_over_json !! "/assets/a.json" <> Some None /\
  (exists k, loads text_pending_over_json !! 1 = Some (mkLoad "/assets/a.json" k)) /\
  1 < next_load text_pending_over_json.
Proof.
  apply (X16_pending_records_are_sound text_pending_over_json "/assets/a.json" 1).
  - by exists [CallGetData "a.json" json; LoadSettles 0 doc_host; CallGetData "a.json" text].
  - reflexivity.
Defined.

(** X17: the continuation of a load deletes the pending record of its
    locator whichever load registered it.  When a request was cleared
    while in flight and issued again, the older load, on settling,
    removes the record of the newer one: the newer load is still in
    flight, but no later caller can join it. *)
Theorem X17_settling_drops_the_record_of_a_newer_load
        (s : Service) (id id' : nat) (ld ld' : Load) (w : World)
        (path : string) (rt : ResponseType) :
  loads s !! id = Some ld ->
  pendingRequests s !! load_localUrl ld = Some id' ->
  id' <> id ->
  loads s !! id' = Some ld' ->
  normalizeLocalUrl path = load_localUrl ld ->
  pendingRequests (snd (settle id w s)) !! load_localUrl ld = None /\
  loads (snd (settle id w s)) !! id' = Some ld' /\
  (forall j, fst (getData path rt (snd (settle id w s))) <> Joined j).
Proof.
  intros Hld Hp Hne Hld' Hpath.
  assert (pendingRequests (snd (settle id w s)) !! load_localUrl ld = None /\
          loads (snd (settle id w s)) !! id' = Some ld') as [H1 H2].
  { unfold settle. rewrite Hld.
    destruct (performDataLoad w (load_localUrl ld) (load_responseType ld))
      as [made [[p src]|e]]; simpl.
    - destruct (materialize p (heap s)) as [d h1].
      destruct (return_view h1 d) as [v h2]; simpl.
      by rewrite lookup_delete_eq, lookup_delete_ne.
    - by rewrite lookup_delete_eq, lookup_delete_ne. }
  repeat split; try done.
  intros j. unfold getData, joinOrStart. rewrite Hpath, H1.
  destruct (cache (snd (settle id w s)) !! load_localUrl ld) as [[entry|]|]; try done.
  destruct (decide (responseType entry = rt)); [|done].
  by destruct (return_view (heap (snd (settle id w s))) (data entry)).
Qed.

Lemma X17_settling_drops_the_record_of_a_newer_load_witness :
  pendingRequests (snd (settle 0 doc_host cleared_and_reissued)) !! "/assets/a.json" = None /\
  loads (snd (settle 0 doc_host cleared_and_reissued)) !! 1 =
    Some (mkLoad "/assets/a.json" json) /\
  (forall j, fst (getData "a.json" text (snd (settle 0 doc_host cleared_and_reissued)))
             <> Joined j).
Proof.
  apply (X17_settling_drops_the_record_of_a_newer_load
           cleared_and_reissued 0 1 (mkLoad "/assets/a.json" json)
           (mkLoad "/assets/a.json" json) doc_host "a.json" text);
    [reflexivity | reflexivity | discriminate | reflexivity | reflexivity].
Defined.

Lemma materialize_notNullish (p : payload) (h : list obj) :
  notNullish p = true ->
  fst (materialize p h) <> VUndefined /\ fst (materialize p h) <> VNull.
Proof.
  destruct p as [| | | | |props|items| |]; simpl; try done.
  - intros _.
    match goal with |- context [let '(_, _) := ?t in _] => destruct t as [vs h1] end.
    done.
  - intros _.
    match goal with |- context [let '(_, _) := ?t in _] => destruct t as [vs h1] end.
    done.
Qed.

Lemma performDataLoad_ok_notNullish
      (w : World) (localUrl : string) (rt : ResponseType)
      (made : list attempt) (p : payload) (src : Source) :
  performDataLoad w localUrl rt = (made, Ok (p, src)) -> notNullish p = true.
Proof.
  unfold performDataLoad.
  assert (forall m,
             (m ++ [LocalAttempt localUrl rt],
              match http_get w localUrl rt with
              | Ok data =>
                  if notNullish data then Ok (data, local)
                  else
                    Throw (DataLoadError
                             ("Failed to load data for " +:+ localUrl +:+ ": " +:+
                              "Local data is null or undefined")
                             "DataLoadError" localUrl
                             (Some (PlainError "Local data is null or undefined")))
              | Throw error =>
                  Throw (DataLoadError
                           ("Failed to load data for " +:+ localUrl +:+ ": " +:+
                            (if instanceofError error then error_message error
                             else "Unknown error"))
                           "DataLoadError" localUrl
                           (if instanceofError error then Some error else None))
              end) = (made, Ok (p, src)) -> notNullish p = true) as Hlocal.
  { intros m. destruct (http_get w localUrl rt) as [d|err]; [|done].
    destruct (notNullish d) eqn:Hd; [|done]. by intros [= _ <- _]. }
  destruct (getExternalUrl w localUrl) as [ext|]; [|apply Hlocal].
  destruct (fetchExternalData w ext rt) as [m [d|err]]; [|apply Hlocal].
  destruct (notNullish d) eqn:Hd; [|apply Hlocal]. by intros [= _ <- _].
Qed.

Lemma step_no_nullish_entry (ev : event) (s : Service) :
  no_nullish_entry s -> no_nullish_entry (snd (step ev s)).
Proof.
  intros Hs. destruct ev as [path rt|path|id w|m]; simpl.
  - pose proof (getData_cache path rt s) as Hc.
    destruct (getData path rt s) as [o s']; simpl in *.
    intros u e. rewrite Hc. apply Hs.
  - unfold no_nullish_entry. destruct path as [p|]; simpl.
    + destruct (String.eqb p EmptyString); simpl.
      * intros u e H. by rewrite lookup_empty in H.
      * intros u e H. apply lookup_delete_Some in H as [_ H]. by eapply Hs.
    + intros u e H. by rewrite lookup_empty in H.
  - unfold settle. destruct (loads s !! id) as [ld|]; [|done].
    destruct (performDataLoad w (load_localUrl ld) (load_responseType ld))
      as [made [[p src]|err]] eqn:Hload; simpl.
    + pose proof (materialize_notNullish p (heap s)
                    (performDataLoad_ok_notNullish _ _ _ _ _ _ Hload)) as Hd.
      destruct (materialize p (heap s)) as [d h1]; simpl in *.
      destruct (return_view h1 d) as [v h2]; simpl.
      intros u e; simpl. destruct (decide (load_localUrl ld = u)) as [<-|Hne].
      * rewrite lookup_insert_eq. by intros [= <-].
      * rewrite lookup_insert_ne by done. apply Hs.
    + intros u e; simpl. destruct (decide (load_localUrl ld = u)) as [<-|Hne].
      * by rewrite lookup_insert_eq.
      * rewrite lookup_insert_ne by done. apply Hs.
  - done.
Qed.

(** X18: in every state the service can reach, a success entry of the
    cache holds a value that is neither [null] nor [undefined]: the
    value [undefined] under a key always means a recorded failure. *)
Theorem X18_cached_values_are_never_nullish
        (s : Service) (u : string) (e : DataCacheEntry) :
  reachable s ->
  cache s !! u = Some (Some e) ->
  data e <> VUndefined /\ data e <> VNull.
Proof.
  intros [evs ->]. revert u e.
  change (no_nullish_entry (snd (run evs new_service))).
  assert (no_nullish_entry new_service) as H0.
  { intros u e H. simpl in H. by rewrite lookup_empty in H. }
  revert H0. generalize new_service.
  induction evs as [|ev evs IH]; intros s Hs; [done|].
  simpl. pose proof (step_no_nullish_entry ev s Hs) as H1.
  destruct (step ev s) as [o s1]; simpl in *.
  specialize (IH s1 H1). by destruct (run evs s1).
Qed.

Lemma X18_cached_values_are_never_nullish_witness :
  VRef 0 <> VUndefined /\ VRef 0 <> VNull.
Proof.
  apply (X18_cached_values_are_never_nullish
           (snd (run [CallGetData "a.json" json; LoadSettles 0 doc_host] new_service))
           "/assets/a.json" (mkEntry (VRef 0) 0 local json)).
  - by exists [CallGetData "a.json" json; LoadSettles 0 doc_host].
  - reflexivity.
Defined.

Lemma agrees_below_trans (h1 h2 h3 : list obj) :
  agrees_below h1 h2 -> agrees_below h2 h3 -> agrees_below h1 h3.
Proof.
  intros [Hl1 H1] [Hl2 H2]. split; [lia|].
  intros a Ha. rewrite H2 by lia. by apply H1.
Qed.

Lemma return_view_agrees (h : list obj) (d : val) :
  agrees_below h (snd (return_view h d)).
Proof.
  unfold return_view, spread, alloc.
  destruct (instanceofBlob h d); simpl.
  - apply agrees_below_refl.
  - apply agrees_below_snoc, agrees_below_refl.
Qed.

(** Materialising a payload leaves the objects of the heap as they are. *)
Lemma materialize_agrees :
  forall (p : payload) (h : list obj), agrees_below h (snd (materialize p h)).
Proof.
  fix IH 1. intros p h.
  destruct p as [| | | | |props|items| |]; simpl; try apply agrees_below_refl.
  - (* object *)
    match goal with |- context [let '(_, _) := ?go props h in _] =>
      assert (agrees_below h (snd (go props h))) as Hgo
    end.
    { revert h. induction props as [|[k q] r IHr]; intros h.
      - simpl. apply agrees_below_refl.
      - simpl. pose proof (IH q h) as H1.
        destruct (materialize q h) as [v h1]; simpl in *.
        pose proof (IHr h1) as H2.
        match goal with |- context [let '(_, _) := ?t in _] =>
          destruct t as [vs h2] end; simpl in *.
        by eapply agrees_below_trans. }
    match goal with |- context [let '(_, _) := ?t in _] =>
      destruct t as [vs h1] end; simpl in *.
    by apply agrees_below_snoc.
  - (* array *)
    match goal with |- context [let '(_, _) := ?go 0 items h in _] =>
      assert (forall i, agrees_below h (snd (go i items h))) as Hgo
    end.
    { revert h. induction items as [|q r IHr]; intros h i.
      - simpl. apply agrees_below_refl.
      - simpl. pose proof (IH q h) as H1.
        destruct (materialize q h) as [v h1]; simpl in *.
        pose proof (IHr h1 (S i)) as H2.
        match goal with |- context [let '(_, _) := ?t in _] =>
          destruct t as [vs h2] end; simpl in *.
        by eapply agrees_below_trans. }
    specialize (Hgo 0).
    match goal with |- context [let '(_, _) := ?t in _] =>
      destruct t as [vs h1] end; simpl in *.
    by apply agrees_below_snoc.
  - (* Blob *)
    apply agrees_below_snoc, agrees_below_refl.
  - (* ArrayBuffer *)
    apply agrees_below_snoc, agrees_below_refl.
Qed.

Lemma agrees_below_lookup (h H : list obj) (a : nat) (o : obj) :
  agrees_below h H -> h !! a = Some o -> H !! a = Some o.
Proof.
  intros [_ Hag] Ho. rewrite Hag; [done|]. by eapply lookup_lt_Some.
Qed.

(** No event changes the class of an allocated object. *)
Lemma step_keeps_class (ev : event) (s : Service) (a : nat) (o : obj) :
  heap s !! a = Some o ->
  exists o', heap (snd (step ev s)) !! a = Some o' /\ o_class o' = o_class o.
Proof.
  intros Ho. destruct ev as [path rt|path|id w|m]; simpl.
  - (* getData *)
    exists o. split; [|done]. unfold getData, joinOrStart.
    destruct (cache s !! normalizeLocalUrl path) as [[entry|]|]; simpl; try done.
    + destruct (decide (responseType entry = rt)).
      * pose proof (return_view_agrees (heap s) (data entry)) as Hag.
        destruct (return_view (heap s) (data entry)) as [v h']; simpl in *.
        by eapply agrees_below_lookup.
      * by destruct (pendingRequests s !! normalizeLocalUrl path).
    + by destruct (pendingRequests s !! normalizeLocalUrl path).
  - (* clearCache *)
    exists o. split; [|done]. unfold clearCache.
    destruct path as [q|]; [|done]. by destruct (String.eqb q EmptyString).
  - (* a load settles *)
    exists o. split; [|done]. unfold settle.
    destruct (loads s !! id) as [ld|]; [|done].
    destruct (performDataLoad w (load_localUrl ld) (load_responseType ld))
      as [made [[p src]|e]]; simpl; [|done].
    pose proof (materialize_agrees p (heap s)) as H1.
    destruct (materialize p (heap s)) as [d h1]; simpl in *.
    pose proof (return_view_agrees h1 d) as H2.
    destruct (return_view h1 d) as [v h2]; simpl in *.
    eapply agrees_below_lookup; [|exact Ho]. by eapply agrees_below_trans.
  - (* a caller mutates an object *)
    unfold mutate_heap.
    destruct (heap s !! mutation_target m) as [t|] eqn:Ht; [|by exists o].
    destruct (decide (mutation_target m = a)) as [<-|Hne].
    + rewrite Ho in Ht. inversion Ht; subst t.
      exists (mutate_obj m o). split; [|by destruct m].
      apply list_lookup_insert_eq. by eapply lookup_lt_Some.
    + exists o. split; [|done]. by rewrite list_lookup_insert_ne.
Qed.

Lemma getData_no_load_for (u path : string) (rt : ResponseType) (s : Service) :
  (normalizeLocalUrl path = u ->
   exists e, cache s !! u = Some (Some e) /\ responseType e = rt) ->
  no_load_for u s ->
  no_load_for u (snd (getData path rt s)).
Proof.
  intros Hhit Hl. destruct (decide (normalizeLocalUrl path = u)) as [Heq|Hne].
  - destruct (Hhit Heq) as (e & Hc & Hk).
    rewrite (getData_hit path rt s e) by (by rewrite ?Heq). exact Hl.
  - unfold getData, joinOrStart.
    destruct (cache s !! normalizeLocalUrl path) as [[entry|]|];
      repeat (case_match; simpl); try done;
      intros id ld; simpl;
      (destruct (decide (next_load s = id)) as [->|Hid];
       [rewrite lookup_insert_eq; intros [= <-]; done
       |rewrite lookup_insert_ne by done; apply Hl]).
Qed.

Lemma step_blob_cached (u : string) (a : nat) (ev : event) (s : Service) :
  keeps_entry u blob ev = true ->
  blob_cached u a s ->
  blob_cached u a (snd (step ev s)).
Proof.
  intros Hev ((e & Hc & Hk & Hd) & (o & Ho & Hcl) & Hl).
  split; [|split].
  - (* the entry *)
    exists e. split; [|done].
    destruct ev as [path rt|path|id w|m]; simpl.
    + pose proof (getData_cache path rt s) as Hcache.
      destruct (getData path rt s) as [x s']; simpl in *. by rewrite Hcache.
    + destruct path as [q|]; [|done]. simpl in Hev.
      apply negb_true_iff, orb_false_iff in Hev as [Hq Hu].
      unfold clearCache. rewrite Hq. simpl.
      apply String.eqb_neq in Hu. by rewrite lookup_delete_ne.
    + unfold settle. destruct (loads s !! id) as [ld|] eqn:Hld; [|done].
      pose proof (Hl _ _ Hld) as Hne.
      destruct (performDataLoad w (load_localUrl ld) (load_responseType ld))
        as [made [[p src]|err]]; simpl.
      * destruct (materialize p (heap s)) as [d h1].
        destruct (return_view h1 d) as [v h2]; simpl.
        by rewrite lookup_insert_ne.
      * by rewrite lookup_insert_ne.
    + done.
  - (* the object *)
    destruct (step_keeps_class ev s a o Ho) as (o' & Ho' & Hcl').
    exists o'. split; [done|]. by rewrite Hcl'.
  - (* the loads in flight *)
    destruct ev as [path rt|path|id w|m]; simpl.
    + pose proof (getData_no_load_for u path rt s) as Hg.
      destruct (getData path rt s) as [x s']; simpl in *. apply Hg; [|done].
      intros Heq. exists e. split; [done|].
      apply orb_true_iff in Hev as [Hne|Hrt].
      * apply negb_true_iff, String.eqb_neq in Hne. contradiction.
      * apply bool_decide_eq_true in Hrt. by rewrite Hrt.
    + unfold clearCache. destruct path as [q|]; [|done].
      by destruct (String.eqb q EmptyString).
    + unfold settle. destruct (loads s !! id) as [ld|] eqn:Hld; [|done].
      assert (no_load_for u
                (mkService (heap s) (cache s) (pendingRequests s)
                           (delete id (loads s)) (next_load s) (network s))) as Hl'.
      { intros id' ld'; simpl. intros H. apply lookup_delete_Some in H as [_ H].
        by eapply Hl. }
      destruct (performDataLoad w (load_localUrl ld) (load_responseType ld))
        as [made [[p src]|err]]; simpl.
      * destruct (materialize p (heap s)) as [d h1].
        destruct (return_view h1 d) as [v h2]; simpl. exact Hl'.
      * exact Hl'.
    + done.
Qed.

Lemma run_blob_cached (u : string) (a : nat) (evs : list event) (s : Service) :
  forallb (keeps_entry u blob) evs = true ->
  blob_cached u a s ->
  blob_cached u a (snd (run evs s)).
Proof.
  revert s. induction evs as [|ev evs IH]; intros s Hevs Hs; [done|].
  simpl in Hevs. apply andb_true_iff in Hevs as [Hev Hevs].
  pose proof (step_blob_cached u a ev s Hev Hs) as H1.
  simpl. destruct (step ev s) as [x s1]; simpl in *.
  specialize (IH s1 Hevs H1).
  by destruct (run evs s1).
Qed.

(** X19: a fetched [Blob] warms the cache.  Once a load of kind [blob]
    has settled with a [Blob], a [getBlob] for the locator, in any
    spelling, is answered at once with that same object, the very one
    the owner and the callers that joined were handed, and leaves the
    service as it was: no copy is made and nothing is fetched.  This
    holds right after the settlement, and after any further activity of
    the service that keeps the entry in place: no [clearCache] call that
    removes it, no request for the locator under another kind, and no
    other load for the locator still in flight when the [Blob] arrives
    (a load left behind by a [clearCache] during the flight). *)
Theorem X19_fetched_blob_is_served_by_identity
        (s : Service) (id : nat) (u : string) (w : World)
        (made : list attempt) (bytes : string) (src : Source) (path : string) :
  loads s !! id = Some (mkLoad u blob) ->
  performDataLoad w u blob = (made, Ok (PBlob bytes, src)) ->
  normalizeLocalUrl path = u ->
  fst (settle id w s) =
    Some (mkSettlement (Ok (VRef (length (heap s)))) (Ok (VRef (length (heap s))))) /\
  getBlob path (snd (settle id w s)) =
    (Fulfilled (VRef (length (heap s))), snd (settle id w s)) /\
  (no_load_for u (snd (settle id w s)) ->
   forall evs : list event,
     forallb (keeps_entry u blob) evs = true ->
     getBlob path (snd (run evs (snd (settle id w s)))) =
       (Fulfilled (VRef (length (heap s))), snd (run evs (snd (settle id w s))))).
Proof.
  intros Hld Hload Hp.
  destruct (settle_blob_by_identity id w s _ made bytes src Hld Hload) as (Hx & Hh & Hc).
  simpl in Hc.
  assert (forall s' : Service,
            blob_cached u (length (heap s)) s' ->
            getBlob path s' = (Fulfilled (VRef (length (heap s))), s')) as Hserve.
  { intros s' ((e & He & Hk & Hd) & (o & Ho & Hcl) & _). unfold getBlob.
    rewrite <- Hd.
    apply (getData_blob_hit_by_identity path blob s' e); [by rewrite Hp | done |].
    rewrite Hd. simpl. rewrite Ho. by apply bool_decide_eq_true. }
  assert (no_load_for u (snd (settle id w s)) ->
          blob_cached u (length (heap s)) (snd (settle id w s))) as Hinv.
  { intros Hfree. split; [|split; [|done]].
    - eexists. split; [exact Hc|]. by split.
    - exists (mkObj BlobObject [] bytes). split; [|done].
      rewrite Hh. by rewrite list_lookup_middle. }
  split; [done|]. split.
  - unfold getBlob.
    apply (getData_blob_hit_by_identity path blob (snd (settle id w s))
             (mkEntry (VRef (length (heap s))) (Date_now w) src blob)).
    + by rewrite Hp.
    + done.
    + simpl. rewrite Hh. by rewrite list_lookup_middle.
  - intros Hfree evs Hevs. apply Hserve. apply run_blob_cached; [done|]. by apply Hinv.
Qed.

Lemma X19_fetched_blob_is_served_by_identity_witness :
  getBlob "assets/cv.pdf" (snd (settle 0 cv_host (snd (getBlob "cv.pdf" new_service)))) =
    (Fulfilled (VRef 0), snd (settle 0 cv_host (snd (getBlob "cv.pdf" new_service)))) /\
  getBlob "assets/cv.pdf"
    (snd (run cv_bystanders
              (snd (settle 0 cv_host (snd (getBlob "cv.pdf" new_service)))))) =
    (Fulfilled (VRef 0),
     snd (run cv_bystanders
              (snd (settle 0 cv_host (snd (getBlob "cv.pdf" new_service)))))).
Proof.
  pose proof (X19_fetched_blob_is_served_by_identity
                (snd (getBlob "cv.pdf" new_service)) 0 "/assets/cv.pdf" cv_host
                [LocalAttempt "/assets/cv.pdf" blob] "%PDF" local "assets/cv.pdf"
                eq_refl eq_refl eq_refl) as (_ & H1 & H2).
  split; [exact H1|].
  apply H2; [|reflexivity].
  intros id ld H. vm_compute in H. discriminate.
Defined.

(** * The configuration loader *)

Lemma ConfigLoader_step_data (o : ConfigLoader.op) (c : ConfigLoader.t) :
  (ConfigLoader.loaded c = true <-> is_Some (ConfigLoader.data c)) /\
  (forall d, ConfigLoader.data c = Some d -> truthy d && typeofObject d = true) ->
  (ConfigLoader.loaded (ConfigLoader.step o c) = true <->
     is_Some (ConfigLoader.data (ConfigLoader.step o c))) /\
  (forall d, ConfigLoader.data (ConfigLoader.step o c) = Some d ->
             truthy d && typeofObject d = true).
Proof.
  assert (false = true <-> is_Some (@None payload)) as Hnone.
  { split; [done | by intros [? ?]]. }
  assert (forall x : payload, true = true <-> is_Some (Some x)) as Hsome.
  { intros x. split; [by eauto | done]. }
  intros [Hl Hd]. destruct o as [w|p w|]; simpl.
  - unfold ConfigLoader.ensureLoaded, ConfigLoader.loadConfig.
    destruct (ConfigLoader.loadingPromise c); [by split|].
    destruct (ConfigLoader.loaded c) eqn:Hloaded; simpl; [rewrite Hloaded; by split|].
    destruct (ConfigLoader.requestUrl w c); simpl; [by split|].
    split; [apply Hnone | done].
  - unfold ConfigLoader.resume.
    destruct (List.find _ (ConfigLoader.suspended c)) as [[q url]|]; [|by split].
    destruct (http_get w url json) as [d|e]; simpl.
    + destruct (truthy d && typeofObject d) eqn:Hok; simpl.
      * split; [apply Hsome | by intros d' [= <-]].
      * split; [apply Hnone | done].
    + split; [apply Hnone | done].
  - split; [apply Hnone | done].
Qed.

(** X20: whatever is done to a loader, its snapshot is either [null] or
    a document that passed the validation (a truthy value of type
    object), and [isLoaded] is true exactly when the snapshot is not
    [null]. *)
Theorem X20_config_is_null_or_a_valid_document
        (ops : list ConfigLoader.op) (configPath environmentConfig : payload)
        (useProxyForExternal : bool) :
  (ConfigLoader.isLoaded
     (ConfigLoader.run ops
        (ConfigLoader.create configPath environmentConfig useProxyForExternal)) = true <->
   ConfigLoader.config
     (ConfigLoader.run ops
        (ConfigLoader.create configPath environmentConfig useProxyForExternal)) <> PNull) /\
  (ConfigLoader.config
     (ConfigLoader.run ops
        (ConfigLoader.create configPath environmentConfig useProxyForExternal)) = PNull \/
   truthy (ConfigLoader.config
             (ConfigLoader.run ops
                (ConfigLoader.create configPath environmentConfig useProxyForExternal))) &&
   typeofObject (ConfigLoader.config
                   (ConfigLoader.run ops
                      (ConfigLoader.create configPath environmentConfig useProxyForExternal)))
   = true).
Proof.
  set (c0 := ConfigLoader.create configPath environmentConfig useProxyForExternal).
  assert ((ConfigLoader.loaded c0 = true <-> is_Some (ConfigLoader.data c0)) /\
          (forall d, ConfigLoader.data c0 = Some d -> truthy d && typeofObject d = true)) as H0.
  { simpl. split; [|done]. split; [done | by intros [? ?]]. }
  assert ((ConfigLoader.loaded (ConfigLoader.run ops c0) = true <->
             is_Some (ConfigLoader.data (ConfigLoader.run ops c0))) /\
          (forall d, ConfigLoader.data (ConfigLoader.run ops c0) = Some d ->
                     truthy d && typeofObject d = true)) as [Hl Hd].
  { revert H0. generalize c0. unfold ConfigLoader.run.
    induction ops as [|o ops IH]; intros c Hc; [done|].
    simpl. apply IH. by apply ConfigLoader_step_data. }
  unfold ConfigLoader.isLoaded, ConfigLoader.config.
  destruct (ConfigLoader.data (ConfigLoader.run ops c0)) as [d|] eqn:Hdata.
  - pose proof (Hd d eq_refl) as Hok. split; [|by right].
    split; [|intros _; apply Hl; eauto].
    intros _ ->. done.
  - split; [|by left]. rewrite Hl. split; [by intros [? ?] | done].
Qed.

Lemma ConfigLoader_step_sent (o : ConfigLoader.op) (c : ConfigLoader.t) :
  length (ConfigLoader.sent (ConfigLoader.step o c)) +
    (match ConfigLoader.loadingPromise (ConfigLoader.step o c) with Some _ => 0 | None => 1 end) <=
  length (ConfigLoader.sent c) +
    (match ConfigLoader.loadingPromise c with Some _ => 0 | None => 1 end) +
    (if ConfigLoader.isReset o then 1 else 0).
Proof.
  destruct o as [w|p w|]; simpl.
  - unfold ConfigLoader.ensureLoaded, ConfigLoader.loadConfig.
    destruct (ConfigLoader.loadingPromise c) eqn:Hp; simpl; [rewrite Hp; lia|].
    destruct (ConfigLoader.loaded c); simpl; [rewrite Hp; lia|].
    destruct (ConfigLoader.requestUrl w c); simpl; [|lia].
    rewrite length_app. simpl. lia.
  - unfold ConfigLoader.resume.
    destruct (List.find _ (ConfigLoader.suspended c)) as [[q url]|]; [|lia].
    destruct (http_get w url json) as [d|e]; simpl; [|lia].
    destruct (truthy d && typeofObject d); simpl; lia.
  - destruct (ConfigLoader.loadingPromise c); lia.
Qed.

(** X21: a loader sends at most one request, whatever the number of
    [ensureLoaded] calls and whether the load succeeds or fails: a
    failed load is not retried.  Only [reset] allows a further request,
    one per call. *)
Theorem X21_loader_sends_one_request_per_reset
        (ops : list ConfigLoader.op) (configPath environmentConfig : payload)
        (useProxyForExternal : bool) :
  length (ConfigLoader.sent
            (ConfigLoader.run ops
               (ConfigLoader.create configPath environmentConfig useProxyForExternal))) <=
  1 + length (List.filter ConfigLoader.isReset ops).
Proof.
  set (c0 := ConfigLoader.create configPath environmentConfig useProxyForExternal).
  assert (forall c,
             length (ConfigLoader.sent (ConfigLoader.run ops c)) +
               (match ConfigLoader.loadingPromise (ConfigLoader.run ops c) with Some _ => 0 | None => 1 end) <=
             length (ConfigLoader.sent c) +
               (match ConfigLoader.loadingPromise c with Some _ => 0 | None => 1 end) +
               length (List.filter ConfigLoader.isReset ops)) as H.
  { unfold ConfigLoader.run. induction ops as [|o ops IH]; intros c; simpl; [lia|].
    specialize (IH (ConfigLoader.step o c)).
    pose proof (ConfigLoader_step_sent o c) as Hs.
    destruct (ConfigLoader.isReset o); simpl; lia. }
  specialize (H c0). simpl in H.
  destruct (ConfigLoader.loadingPromise (ConfigLoader.run ops c0)); lia.
Qed.

(** X22: [reset] does not cancel a load in flight.  When the request
    that was pending at the time of the reset brings a valid document,
    the loader adopts it and reports itself loaded, so that the next
    [ensureLoaded] returns at once without asking again. *)
Theorem X22_reset_is_undone_by_a_late_answer
        (c : ConfigLoader.t) (p : nat) (url : string) (w w' : World) (d : payload) :
  List.find (fun q => Nat.eqb (fst q) p) (ConfigLoader.suspended c) = Some (p, url) ->
  http_get w url json = Ok d ->
  truthy d && typeofObject d = true ->
  ConfigLoader.config (ConfigLoader.resume p w (ConfigLoader.reset c)) = d /\
  ConfigLoader.isLoaded (ConfigLoader.resume p w (ConfigLoader.reset c)) = true /\
  ConfigLoader.ensureLoaded w' (ConfigLoader.resume p w (ConfigLoader.reset c)) =
    (ConfigLoader.ReturnsAtOnce, ConfigLoader.resume p w (ConfigLoader.reset c)).
Proof.
  intros Hfind Hget Hok.
  unfold ConfigLoader.resume, ConfigLoader.reset, ConfigLoader.ensureLoaded,
    ConfigLoader.config, ConfigLoader.isLoaded. simpl.
  by rewrite Hfind, Hget, Hok.
Qed.

Lemma X22_reset_is_undone_by_a_late_answer_witness :
  ConfigLoader.isLoaded
    (ConfigLoader.resume 0 environment_host (ConfigLoader.reset environment_loading)) = true /\
  ConfigLoader.ensureLoaded offline
    (ConfigLoader.resume 0 environment_host (ConfigLoader.reset environment_loading)) =
    (ConfigLoader.ReturnsAtOnce,
     ConfigLoader.resume 0 environment_host (ConfigLoader.reset environment_loading)).
Proof.
  pose proof (X22_reset_is_undone_by_a_late_answer
                environment_loading 0 "/assets/environment.json?t=0"
                environment_host offline _ eq_refl eq_refl eq_refl) as (_ & H2 & H3).
  exact (conj H2 H3).
Defined.

(** * The configuration bootstrap *)

Lemma awaitLoaded_fresh (w : World) (configPath environmentConfig : payload)
      (useProxyForExternal : bool) :
  awaitLoaded w (ConfigLoader.create configPath environmentConfig useProxyForExternal) =
    match ConfigLoader.requestUrl w
            (ConfigLoader.create configPath environmentConfig useProxyForExternal) with
    | Some url =>
        match http_get w url json with
        | Ok configData =>
            if truthy configData && typeofObject configData then
              ConfigLoader.mk configPath environmentConfig useProxyForExternal
                              (Some configData) true (Some 0) [] 1 [url]
            else
              ConfigLoader.mk configPath environmentConfig useProxyForExternal
                              None false (Some 0) [] 1 [url]
        | Throw _ =>
            ConfigLoader.mk configPath environmentConfig useProxyForExternal
                            None false (Some 0) [] 1 [url]
        end
    | None =>
        ConfigLoader.mk configPath environmentConfig useProxyForExternal
                        None false (Some 0) [] 1 []
    end.
Proof.
  unfold awaitLoaded, ConfigLoader.ensureLoaded, ConfigLoader.loadConfig. simpl.
  destruct (ConfigLoader.requestUrl w _) as [url|]; simpl; [|done].
  unfold ConfigLoader.resume; simpl.
  destruct (http_get w url json) as [d|e]; [|done].
  by destruct (truthy d && typeofObject d).
Qed.

(** X23: configuration errors are not fatal.  When the request for the
    override table fails, whatever the environment document said, the
    table is absent: the resolver finds no override for any locator and
    every load sequence consists of the local fetch alone. *)
Theorem X23_failed_override_table_means_local_only
        (w1 w2 w : World) (localUrl : string) (rt : ResponseType) :
  (forall url, exists e, http_get w2 url json = Throw e) ->
  outreachConfig w =
    asTable (ConfigLoader.config (outreachConfigLoader (initializeConfigs w1 w2))) ->
  ConfigLoader.isLoaded (outreachConfigLoader (initializeConfigs w1 w2)) = false /\
  getExternalUrl w localUrl = None /\
  fst (performDataLoad w localUrl rt) = [LocalAttempt localUrl rt].
Proof.
  intros Hdown Hw.
  assert (forall c, ConfigLoader.data (awaitLoaded w2
             (ConfigLoader.create (ConfigLoader.configPath c)
                                  (ConfigLoader.environmentConfig c)
                                  (ConfigLoader.useProxyForExternal c))) = None /\
                    ConfigLoader.loaded (awaitLoaded w2
             (ConfigLoader.create (ConfigLoader.configPath c)
                                  (ConfigLoader.environmentConfig c)
                                  (ConfigLoader.useProxyForExternal c))) = false) as Hnone.
  { intros c. rewrite awaitLoaded_fresh.
    destruct (ConfigLoader.requestUrl w2 _) as [url|]; [|done].
    destruct (Hdown url) as [e ->]. done. }
  assert (ConfigLoader.data (outreachConfigLoader (initializeConfigs w1 w2)) = None /\
          ConfigLoader.loaded (outreachConfigLoader (initializeConfigs w1 w2)) = false)
    as [Hdata Hloaded].
  { unfold initializeConfigs. simpl.
    match goal with |- context [if ?b then _ else _] => destruct b end.
    - apply (Hnone (ConfigLoader.create _ _ true)).
    - apply (Hnone (ConfigLoader.create _ _ true)). }
  unfold ConfigLoader.config in Hw. rewrite Hdata in Hw. simpl in Hw.
  assert (getExternalUrl w localUrl = None) as Hnoext.
  { unfold getExternalUrl. by rewrite Hw. }
  repeat split; [done | done |].
  by apply performDataLoad_no_override.
Qed.

Lemma X23_failed_override_table_means_local_only_witness :
  getExternalUrl offline "/assets/data/x.json" = None /\
  fst (performDataLoad offline "/assets/data/x.json" json) =
    [LocalAttempt "/assets/data/x.json" json].
Proof.
  pose proof (X23_failed_override_table_means_local_only
                environment_host offline offline "/assets/data/x.json" json) as H.
  apply H.
  - intros url. by eexists.
  - reflexivity.
Defined.

(** X24: what the bootstrap asks for.  The environment document is
    always requested from the static host, under its fixed path with a
    cache-defeating parameter, never through the proxy.  Unless it
    loads and names a path for the override table, the table is then
    requested from its default path on the static host. *)
Theorem X24_bootstrap_requests (w1 w2 : World) :
  ConfigLoader.sent (environmentConfigLoader (initializeConfigs w1 w2)) =
    ["/assets/environment.json" +:+ "?t=" +:+ numberToString (Date_now w1)] /\
  (truthy (optField (optField (ConfigLoader.config
                                 (environmentConfigLoader (initializeConfigs w1 w2)))
                              "outreach") "configPath") = false ->
   ConfigLoader.sent (outreachConfigLoader (initializeConfigs w1 w2)) =
     ["/assets/outreachConfig.json" +:+ "?t=" +:+ numberToString (Date_now w2)]).
Proof.
  unfold initializeConfigs; simpl. split.
  - rewrite awaitLoaded_fresh. simpl.
    destruct (http_get w1 _ json) as [d|e]; [|done].
    by destruct (truthy d && typeofObject d).
  - intros ->. rewrite awaitLoaded_fresh. simpl.
    destruct (http_get w2 _ json) as [d|e]; [|done].
    by destruct (truthy d && typeofObject d).
Qed.

Lemma X24_bootstrap_requests_witness :
  ConfigLoader.sent (outreachConfigLoader (initializeConfigs offline offline)) =
    ["/assets/outreachConfig.json?t=0"].
Proof.
  pose proof (X24_bootstrap_requests offline offline) as [_ H].
  exact (H eq_refl).
Defined.



(** * SkillsService *)

(** X26: [SkillsService.retry] cannot recover from a failed load, nor
    refresh a successful one.  Once the load of the skills document has
    settled, [retry] never begins a load sequence and never adds a
    pending request: the data service still holds the outcome, which
    [retry] does not clear.  After a failure the call that [retry] makes
    is rejected at once with the "previously failed" error, which
    becomes the error message of the service. *)
Theorem X26_retry_never_fetches_again
        (s : Service) (id : nat) (w : World) (k : SkillsService.t) :
  loads s !! id = Some (mkLoad "/assets/data/skills.json" json) ->
  loads (snd (SkillsService.retry k (snd (settle id w s)))) = loads (snd (settle id w s)) /\
  pendingRequests (snd (SkillsService.retry k (snd (settle id w s)))) =
    pendingRequests (snd (settle id w s)) /\
  network (snd (SkillsService.retry k (snd (settle id w s)))) =
    network (snd (settle id w s)) /\
  (forall x e,
      fst (settle id w s) = Some x ->
      owner_sees x = Throw e ->
      SkillsService.isLoading k = false ->
      fst (fst (SkillsService.retry k (snd (settle id w s)))) =
        SkillsService.AwaitsData (Rejected (previouslyFailed "assets/data/skills.json")) /\
      snd (SkillsService.retry k (snd (settle id w s))) = snd (settle id w s) /\
      SkillsService.errorSubject
        (snd (SkillsService.resume
                (Throw (previouslyFailed "assets/data/skills.json"))
                (snd (fst (SkillsService.retry k (snd (settle id w s))))))) =
        Some "Failed to load data for assets/data/skills.json (previously failed)").
Proof.
  intros Hld.
  assert (exists entry,
             cache (snd (settle id w s)) !! "/assets/data/skills.json" = Some entry /\
             forall e, entry = Some e -> responseType e = json) as (entry & Hc & Hkind).
  { unfold settle. rewrite Hld. simpl.
    destruct (performDataLoad w "/assets/data/skills.json" json) as [made [[p src]|err]]; simpl.
    - destruct (materialize p (heap s)) as [d h1].
      destruct (return_view h1 d) as [v h2]; simpl.
      eexists. split; [apply lookup_insert_eq|]. by intros e [= <-].
    - eexists. split; [apply lookup_insert_eq|]. done. }
  set (s1 := snd (settle id w s)) in *.
  assert (normalizeLocalUrl "assets/data/skills.json" = "/assets/data/skills.json") as Hn
    by reflexivity.
  unfold SkillsService.retry, SkillsService.getSkillsData. simpl.
  destruct entry as [e0|].
  - (* the load had succeeded: the retry is a cache hit *)
    assert (cache s1 !! normalizeLocalUrl "assets/data/skills.json" = Some (Some e0)) as Hc'
      by (by rewrite Hn).
    destruct (SkillsService.isLoading k) eqn:Hl; simpl.
    + repeat split; done.
    + rewrite (getData_hit _ _ _ _ Hc' (Hkind e0 eq_refl)). simpl.
      split; [done|]. split; [done|]. split; [done|].
      intros x e Hx Ho _. exfalso.
      subst s1. revert Hc Hx Ho. unfold settle. rewrite Hld. simpl.
      destruct (performDataLoad w "/assets/data/skills.json" json) as [made [[p src]|err]]; simpl.
      * destruct (materialize p (heap s)) as [d h1].
        destruct (return_view h1 d) as [v h2]; simpl.
        intros _ [= <-]. done.
      * by rewrite lookup_insert_eq.
  - (* the load had failed: the retry is rejected at once *)
    assert (cache s1 !! normalizeLocalUrl "assets/data/skills.json" = Some None) as Hc'
      by (by rewrite Hn).
    destruct (SkillsService.isLoading k) eqn:Hl; simpl.
    + repeat split; try done.
    + rewrite (getData_recorded_failure _ json _ Hc'). simpl.
      repeat split; done.
Qed.

Lemma X26_retry_never_fetches_again_witness :
  fst (fst (SkillsService.retry SkillsService.create
              (snd (settle 0 offline
                      (snd (getData "assets/data/skills.json" json new_service)))))) =
    SkillsService.AwaitsData (Rejected (previouslyFailed "assets/data/skills.json")).
Proof.
  pose proof (X26_retry_never_fetches_again
                (snd (getData "assets/data/skills.json" json new_service)) 0 offline
                SkillsService.create eq_refl) as (_ & _ & _ & H).
  destruct (H _ (DataLoadError "Failed to load data for /assets/data/skills.json: Unknown error"
                               "DataLoadError" "/assets/data/skills.json" None)
              eq_refl eq_refl eq_refl) as (H1 & _).
  exact H1.
Defined.

Example splitComma_python : splitComma "C++, Python ,Rust" = ["C++"; " Python "; "Rust"].
Proof. reflexivity. Qed.

Example trim_python : trim "  Python  " = "Python".
Proof. reflexivity. Qed.

(** White space outside ASCII is trimmed as well: a no-break space
    before the name, a line separator and a space after it. *)
Example trim_no_break_space :
  trim (String (ascii_of_nat 194) (String (ascii_of_nat 160)
          ("Python" +:+
           String (ascii_of_nat 226) (String (ascii_of_nat 128)
             (String (ascii_of_nat 168) " "))))) = "Python".
Proof. reflexivity. Qed.

(** White space inside a name stays, and so does a letter whose encoding
    ends with the byte that ends the encoding of a no-break space. *)
Example trim_keeps_inner_space :
  trim (" Visual Studio" +:+ String (ascii_of_nat 195) (String (ascii_of_nat 160) " ")) =
  "Visual Studio" +:+ String (ascii_of_nat 195) (String (ascii_of_nat 160) EmptyString).
Proof. reflexivity. Qed.

Example extractTopSkills_two_each :
  extractTopSkills None ["C++, Python ,Rust"; "Angular"; EmptyString] 3 =
    ["C++"; "Python"; "Angular"].
Proof. reflexivity. Qed.

Lemma In_firstn {A : Type} (x : A) (n : nat) (l : list A) :
  In x (firstn n l) -> In x l.
Proof.
  intros H. rewrite <- (firstn_skipn n l). apply in_or_app. by left.
Qed.

Lemma concat_firstn_length {A : Type} (f : string -> list A) (skills : list string) :
  length (concat (map (fun skill => firstn 2 (f skill)) skills)) <= 2 * length skills.
Proof.
  induction skills as [|sk skills IH]; simpl; [lia|].
  rewrite length_app, length_firstn. lia.
Qed.

Lemma firstn_concat_groups {A B : Type} (f : B -> list A) (n : nat) (l : list B) :
  exists groups,
    firstn n (concat (map f l)) = concat groups /\
    Forall2 (fun group x => exists rest, f x = group ++ rest) groups l.
Proof.
  revert n. induction l as [|x l IH]; intros n; simpl.
  - exists []. rewrite firstn_nil. split; [done | constructor].
  - rewrite firstn_app. destruct (IH (n - length (f x))) as (gs & Hgs & HF).
    exists (firstn n (f x) :: gs). simpl. rewrite Hgs. split; [done|].
    constructor; [|done]. exists (skipn n (f x)). by rewrite firstn_skipn.
Qed.

Lemma concat_firstn_two_length {A : Type} (f : string -> list A) (skills : list string) :
  length (concat (map (fun skill => firstn 2 (f skill)) skills)) =
  list_sum (map (fun skill => Nat.min 2 (length (f skill))) skills).
Proof.
  induction skills as [|sk skills IH]; simpl; [done|].
  rewrite length_app, length_firstn. by rewrite IH.
Qed.

(** X27: [extractTopSkills].  When the document lists orbits, they are
    returned as they are, whatever the count.  Otherwise, for a count
    that is not negative, the names returned are made of one group per
    category, in the order of the categories; the group of a category
    is an initial part of its first two comma-separated pieces, each
    with its surrounding white space removed, so that no category gives
    more than two names.  The names are the first [count] of all those
    pieces in that order: all of them when there are fewer, one or two
    per category according to the number of its pieces. *)
Theorem X27_extractTopSkills
        (orbits : option (list string)) (skills : list string) (count : Z) :
  match orbits with
  | Some (o :: os) => extractTopSkills orbits skills count = o :: os
  | _ =>
      (0 <= count)%Z ->
      length (extractTopSkills orbits skills count) <= Z.to_nat count /\
      length (extractTopSkills orbits skills count) <= 2 * length skills /\
      Forall (fun name => exists skill piece,
                  In skill skills /\ In piece (splitComma skill) /\ name = trim piece)
             (extractTopSkills orbits skills count) /\
      (exists groups,
          extractTopSkills orbits skills count = concat groups /\
          Forall2 (fun group skill =>
                     length group <= 2 /\
                     exists rest,
                       firstn 2 (map trim (splitComma skill)) = group ++ rest)
                  groups skills) /\
      (exists rest,
          concat (map (fun skill => firstn 2 (map trim (splitComma skill))) skills) =
          extractTopSkills orbits skills count ++ rest) /\
      length (extractTopSkills orbits skills count) =
        Nat.min (Z.to_nat count)
                (list_sum (map (fun skill => Nat.min 2 (length (splitComma skill))) skills))
  end.
Proof.
  assert ((0 <= count)%Z ->
          slice0 (concat (map (fun skill => firstn 2 (map trim (splitComma skill)))
                              skills)) count =
          firstn (Z.to_nat count)
                 (concat (map (fun skill => firstn 2 (map trim (splitComma skill)))
                              skills))) as Hslice.
  { intros Hc. unfold slice0.
    destruct (count <? 0)%Z eqn:Hneg; [apply Z.ltb_lt in Hneg; lia | done]. }
  assert (extractTopSkills None skills count =
          slice0 (concat (map (fun skill => firstn 2 (map trim (splitComma skill)))
                              skills)) count) as Hnone by done.
  assert (extractTopSkills (Some []) skills count =
          slice0 (concat (map (fun skill => firstn 2 (map trim (splitComma skill)))
                              skills)) count) as Hempty by done.
  assert ((0 <= count)%Z ->
          forall result,
            result = slice0 (concat (map (fun skill => firstn 2 (map trim (splitComma skill)))
                                         skills)) count ->
            length result <= Z.to_nat count /\
            length result <= 2 * length skills /\
            Forall (fun name => exists skill piece,
                        In skill skills /\ In piece (splitComma skill) /\ name = trim piece)
                   result /\
            (exists groups,
                result = concat groups /\
                Forall2 (fun group skill =>
                           length group <= 2 /\
                           exists rest,
                             firstn 2 (map trim (splitComma skill)) = group ++ rest)
                        groups skills) /\
            (exists rest,
                concat (map (fun skill => firstn 2 (map trim (splitComma skill))) skills) =
                result ++ rest) /\
            length result =
              Nat.min (Z.to_nat count)
                      (list_sum (map (fun skill => Nat.min 2 (length (splitComma skill)))
                                     skills))) as Hgen.
  { intros Hc result ->. rewrite (Hslice Hc).
    pose proof (concat_firstn_length (fun skill => map trim (splitComma skill)) skills) as Hlen.
    pose proof (concat_firstn_two_length (fun skill => map trim (splitComma skill)) skills)
      as Hsum.
    rewrite length_firstn.
    split; [lia|]. split; [lia|]. split; [|split; [|split]].
    - apply Forall_forall. intros name Hname.
      apply list_elem_of_In in Hname. apply In_firstn in Hname.
      apply in_concat in Hname as (l & Hl & Hname).
      apply in_map_iff in Hl as (skill & <- & Hskill).
      apply In_firstn in Hname. apply in_map_iff in Hname as (piece & <- & Hpiece).
      by exists skill, piece.
    - destruct (firstn_concat_groups
                  (fun skill => firstn 2 (map trim (splitComma skill)))
                  (Z.to_nat count) skills) as (groups & Hg & HF).
      exists groups. split; [done|].
      eapply Forall2_impl; [exact HF|].
      intros group skill [rest Hrest]. split; [|by exists rest].
      assert (length (firstn 2 (map trim (splitComma skill))) <= 2) as H2.
      { rewrite length_firstn. lia. }
      rewrite Hrest, length_app in H2. lia.
    - eexists. symmetry. apply firstn_skipn.
    - rewrite Hsum. f_equal. f_equal. apply map_ext. intros skill.
      by rewrite length_map. }
  destruct orbits as [[|o os]|]; [|done|].
  - intros Hc. rewrite Hempty. by apply Hgen.
  - intros Hc. rewrite Hnone. by apply Hgen.
Qed.

Lemma X27_extractTopSkills_witness :
  length (extractTopSkills None ["C++, Python ,Rust"; "Angular"] 3) <= Z.to_nat 3 /\
  length (extractTopSkills None ["C++, Python ,Rust"; "Angular"] 3) = 3.
Proof.
  pose proof (X27_extractTopSkills None ["C++, Python ,Rust"; "Angular"] 3) as H.
  simpl in H. destruct H as (H1 & _ & _ & _ & _ & H2); [lia|].
  split; [exact H1 | exact H2].
Defined.

(** * PortfolioService *)

Lemma existsb_eqb_In (x : string) (l : list string) :
  existsb (String.eqb x) l = true <-> In x l.
Proof.
  rewrite existsb_exists. split.
  - intros (y & Hy & Heq). by apply String.eqb_eq in Heq as ->.
  - intros H. exists x. split; [done | apply String.eqb_refl].
Qed.

Lemma distinctFrom_spec (seen l : list string) :
  NoDup (PortfolioService.distinctFrom seen l) /\
  forall x, In x (PortfolioService.distinctFrom seen l) <-> In x l /\ ~ In x seen.
Proof.
  revert seen. induction l as [|y l IH]; intros seen; simpl.
  - split; [constructor | intros x; tauto].
  - destruct (existsb (String.eqb y) seen) eqn:Hy.
    + apply existsb_eqb_In in Hy. destruct (IH seen) as [Hnd Hin].
      split; [done|]. intros x. rewrite Hin. split; [tauto|].
      intros [[<- | Hx] Hs]; tauto.
    + assert (~ In y seen) as Hny.
      { intros H. apply existsb_eqb_In in H. congruence. }
      destruct (IH (y :: seen)) as [Hnd Hin]. split.
      * apply NoDup_cons. split; [|done].
        rewrite list_elem_of_In, Hin. simpl. tauto.
      * intros x. simpl. rewrite Hin. simpl. split.
        -- intros [<- | [Hx Hs]]; tauto.
        -- intros [[<- | Hx] Hs]; [tauto|].
           destruct (String.eqb y x) eqn:E.
           ++ apply String.eqb_eq in E. tauto.
           ++ apply String.eqb_neq in E. tauto.
Qed.

(** X28: the category list of the portfolio.  It always opens with the
    category [all], labelled "All Projects", and that is its only
    default.  The categories after it are the distinct categories of the
    projects, each once; so the identifiers of the whole list are
    pairwise distinct exactly when no project has the category [all]. *)
Theorem X28_generateCategoriesFromProjects
        (toUpperCase : string -> string) (categories : list string) :
  hd_error (PortfolioService.generateCategoriesFromProjects toUpperCase categories) =
    Some (PortfolioService.mkCategory "all" (PortfolioService.LabelText "All Projects") true) /\
  List.filter PortfolioService.isDefault
    (PortfolioService.generateCategoriesFromProjects toUpperCase categories) =
    [PortfolioService.mkCategory "all" (PortfolioService.LabelText "All Projects") true] /\
  NoDup (map PortfolioService.id
           (tl (PortfolioService.generateCategoriesFromProjects toUpperCase categories))) /\
  (forall c, In c (map PortfolioService.id
                     (tl (PortfolioService.generateCategoriesFromProjects
                            toUpperCase categories))) <-> In c categories) /\
  (NoDup (map PortfolioService.id
            (PortfolioService.generateCategoriesFromProjects toUpperCase categories)) <->
   ~ In "all" categories).
Proof.
  unfold PortfolioService.generateCategoriesFromProjects, PortfolioService.distinct. simpl.
  destruct (distinctFrom_spec [] categories) as [Hnd Hin].
  assert (map PortfolioService.id
            (map (fun categoryId =>
                    PortfolioService.mkCategory categoryId
                      (PortfolioService.labelFor toUpperCase categoryId) false)
                 (PortfolioService.distinctFrom [] categories)) =
          PortfolioService.distinctFrom [] categories) as Hids.
  { rewrite map_map. simpl. apply map_id. }
  rewrite Hids.
  assert (forall c, In c (PortfolioService.distinctFrom [] categories) <-> In c categories)
    as Hin'.
  { intros c. rewrite Hin. simpl. tauto. }
  assert (forall l,
             List.filter PortfolioService.isDefault
               (map (fun categoryId =>
                       PortfolioService.mkCategory categoryId
                         (PortfolioService.labelFor toUpperCase categoryId) false) l) = [])
    as Hfilter.
  { induction l as [|c l IH]; [done | exact IH]. }
  rewrite Hfilter.
  repeat split; try done.
  - by apply Hin'.
  - by apply Hin'.
  - intros H Hall. apply NoDup_cons in H as [H _].
    apply H. apply list_elem_of_In. by apply Hin'.
  - intros Hall. apply NoDup_cons. split; [|done].
    intros H. apply Hall. apply Hin'. by apply list_elem_of_In.
Qed.

(** * The theme service *)

Lemma some_theme_id_In (x : string) (l : list CompleteTheme) :
  existsb (fun theme => String.eqb (theme_id theme) x) l = true <->
  In x (map theme_id l).
Proof.
  induction l as [|a l IH]; simpl.
  - split; [discriminate|tauto].
  - rewrite orb_true_iff, IH, String.eqb_eq. tauto.
Qed.

Lemma findIndexFrom_absent (x : string) (i : Z) (l : list CompleteTheme) :
  ~ In x (map theme_id l) ->
  findIndexFrom (fun theme => String.eqb (theme_id theme) x) i l = (-1)%Z.
Proof.
  revert i. induction l as [|a l IH]; intros i Hnot; simpl; [done|].
  simpl in Hnot.
  destruct (String.eqb (theme_id a) x) eqn:E.
  - apply String.eqb_eq in E. tauto.
  - apply IH. tauto.
Qed.

Lemma themeIds_cases (x : string) :
  In x themeIds ->
  x = "default-dark" \/ x = "ocean-dark" \/ x = "sunset-dark" \/
  x = "royal-dark" \/ x = "auto-dark" \/ x = "default-light" \/
  x = "ocean-light" \/ x = "sunset-light" \/ x = "royal-light" \/
  x = "auto-light".
Proof.
  intros H. vm_compute in H.
  repeat (destruct H as [H|H]; [subst x; tauto|]). done.
Qed.

Lemma cycleTheme_of_unknown (s : ThemeService.t) :
  ~ In (ThemeService.currentThemeId s) themeIds ->
  ThemeService.cycleTheme s = ThemeService.setTheme "default-dark" s.
Proof.
  intros Hnot. unfold ThemeService.cycleTheme, findIndex.
  cbv zeta. rewrite findIndexFrom_absent by exact Hnot. reflexivity.
Qed.

(** X29: [cycleTheme] always ends on a theme of the table and saves it,
    whatever the identifier held before: the index after the last wraps
    to the first, and an identifier that is not in the table (index -1)
    is followed by the first theme, [default-dark].  From a theme of the
    table, ten calls come back to it and no fewer do: the cycle visits
    all ten themes. *)
Theorem X29_cycleTheme_walks_the_table (s : ThemeService.t) :
  (In (ThemeService.currentThemeId (ThemeService.cycleTheme s)) themeIds /\
   ThemeService.stored (ThemeService.cycleTheme s) =
     Some (ThemeService.currentThemeId (ThemeService.cycleTheme s))) /\
  (~ In (ThemeService.currentThemeId s) themeIds ->
   ThemeService.currentThemeId (ThemeService.cycleTheme s) = "default-dark") /\
  (In (ThemeService.currentThemeId s) themeIds ->
   ThemeService.currentThemeId (Nat.iter 10 ThemeService.cycleTheme s) =
     ThemeService.currentThemeId s /\
   forall k : nat, (0 < k < 10)%nat ->
     ThemeService.currentThemeId (Nat.iter k ThemeService.cycleTheme s) <>
     ThemeService.currentThemeId s).
Proof.
  destruct s as [c st].
  split; [|split].
  - destruct (in_dec String.string_dec c themeIds) as [Hin|Hnot].
    + apply themeIds_cases in Hin.
      repeat (destruct Hin as [->|Hin]; [vm_compute; tauto|]).
      subst c. vm_compute; tauto.
    + rewrite cycleTheme_of_unknown by exact Hnot. vm_compute; tauto.
  - intros Hnot. by rewrite cycleTheme_of_unknown.
  - intros Hin. simpl in Hin. apply themeIds_cases in Hin.
    assert (forall P : nat -> Prop,
              P 1%nat -> P 2%nat -> P 3%nat -> P 4%nat -> P 5%nat ->
              P 6%nat -> P 7%nat -> P 8%nat -> P 9%nat ->
              forall k, (0 < k < 10)%nat -> P k) as Hk.
    { intros P ? ? ? ? ? ? ? ? ? k Hk.
      do 10 (destruct k as [|k]; [first [lia | assumption]|]). lia. }
    repeat (destruct Hin as [->|Hin];
            [split; [reflexivity|apply Hk; vm_compute; congruence]|]).
    subst c. split; [reflexivity|apply Hk; vm_compute; congruence].
Qed.

Lemma X29_cycleTheme_walks_the_table_witness :
  In "royal-dark" themeIds /\
  ThemeService.currentThemeId
    (Nat.iter 10 ThemeService.cycleTheme (ThemeService.mk "royal-dark" None)) =
  "royal-dark".
Proof.
  split; [vm_compute; tauto|].
  pose proof (X29_cycleTheme_walks_the_table (ThemeService.mk "royal-dark" None))
    as (_ & _ & H).
  apply H. vm_compute; tauto.
Defined.

(** X30: what a restart restores: after [setTheme(id)], a service
    constructed over the same storage starts on [id] exactly when [id] is
    a theme of the table, and on [default-dark] otherwise, the saved
    identifier staying in the storage as it is.  Whatever the storage
    holds, the constructor starts on a theme of the table, whose mode and
    colour theme are those its identifier spells. *)
Theorem X30_saved_theme_is_restored_only_when_known
  (s : ThemeService.t) (id : string) (st : option string) :
  (In id themeIds ->
   ThemeService.create (ThemeService.stored (ThemeService.setTheme id s)) =
   ThemeService.setTheme id s) /\
  (~ In id themeIds ->
   ThemeService.create (ThemeService.stored (ThemeService.setTheme id s)) =
   ThemeService.mk "default-dark" (Some id)) /\
  In (ThemeService.currentThemeId (ThemeService.create st)) themeIds /\
  ThemeService.stored (ThemeService.create st) = st /\
  ThemeService.currentThemeId (ThemeService.create st) =
    ThemeService.getCurrentColorTheme (ThemeService.create st) +:+ "-" +:+
    ThemeService.getCurrentMode (ThemeService.create st).
Proof.
  assert (forall x : string, ~ In x themeIds ->
            ThemeService.create (Some x) = ThemeService.mk "default-dark" (Some x))
    as Hunknown.
  { intros x Hnot.
    unfold ThemeService.create, ThemeService.loadSavedTheme, ThemeService.stored.
    destruct (existsb (fun theme => String.eqb (theme_id theme) x) THEME_COMBINATIONS)
      eqn:E.
    - apply some_theme_id_In in E. contradiction.
    - by rewrite andb_false_r. }
  assert (forall x : string, In x themeIds ->
            ThemeService.create (Some x) = ThemeService.mk x (Some x)) as Hknown.
  { intros x Hin. apply themeIds_cases in Hin.
    repeat (destruct Hin as [->|Hin]; [reflexivity|]). by subst x. }
  split; [|split].
  - intros Hin. simpl. by rewrite Hknown.
  - intros Hnot. simpl. by rewrite Hunknown.
  - destruct st as [x|]; [|vm_compute; tauto].
    destruct (in_dec String.string_dec x themeIds) as [Hin|Hnot].
    + rewrite (Hknown x Hin). split; [exact Hin|]. split; [reflexivity|].
      apply themeIds_cases in Hin.
      repeat (destruct Hin as [->|Hin]; [reflexivity|]). by subst x.
    + rewrite (Hunknown x Hnot). split; [vm_compute; tauto|]. by split.
Qed.

Lemma X30_saved_theme_is_restored_only_when_known_witness :
  In "ocean-light" themeIds /\
  ~ In "ocean" themeIds /\
  ThemeService.create (Some "ocean-light") =
    ThemeService.mk "ocean-light" (Some "ocean-light") /\
  ThemeService.create (Some "ocean") =
    ThemeService.mk "default-dark" (Some "ocean").
Proof.
  assert (In "ocean-light" themeIds) as Hin by (vm_compute; tauto).
  assert (~ In "ocean" themeIds) as Hnot.
  { vm_compute. intros H. repeat (destruct H as [H|H]; [discriminate H|]). exact H. }
  pose proof (X30_saved_theme_is_restored_only_when_known
                (ThemeService.mk "default-dark" None) "ocean-light" None)
    as (H1 & _).
  pose proof (X30_saved_theme_is_restored_only_when_known
                (ThemeService.mk "default-dark" None) "ocean" None)
    as (_ & H2 & _).
  split; [exact Hin|]. split; [exact Hnot|].
  split; [exact (H1 Hin)|exact (H2 Hnot)].
Defined.
